(** * vscode-cpptools: environment-file parser and self-update orchestrator

    A shallow embedding of
      - [ParsedEnvironmentFile.CreateFromContent] (the .env parser), and
      - the update cycle of [LanguageServer/extension.ts]
        ([installVsix], [applyUpdate], [checkAndApplyUpdate], the Insiders
        polling timer),
    together with the properties the specification states about them.

    JavaScript strings are sequences of UTF-16 code units; the regular
    expressions of the parser are run by a backtracking matcher written in
    the continuation-passing style of the ECMAScript specification.  The
    asynchronous code of the update cycle is a state monad over the module
    variables and the host settings that records what the cycle does; the
    answers of the network, of the host and of the install process are
    inputs.

    The file has three parts: the program, the vocabulary in which its
    properties are stated, and the proofs. *)

From Stdlib Require Import List NArith ZArith Arith Bool Lia String Ascii DecimalString.
Import ListNotations.

Set Implicit Arguments.

(* ##################################################################### *)
(** * Part I: the program *)
(* ##################################################################### *)

(* ===================================================================== *)
(** * JavaScript strings *)
(* ===================================================================== *)

Module JS.

(** A UTF-16 code unit. *)
Definition char := N.
Definition jsstring := list char.

Definition of_ascii (a : ascii) : char := N_of_ascii a.

(** Literals: an ASCII string as a sequence of code units. *)
Fixpoint lit (s : string) : jsstring :=
  match s with
  | EmptyString => []
  | String a s' => of_ascii a :: lit s'
  end.

Definition LF : char := 10%N.
Definition CR : char := 13%N.
Definition dquote : char := 34%N.
Definition squote : char := 39%N.
Definition hash : char := 35%N.
Definition equals : char := 61%N.
Definition backslash : char := 92%N.
Definition letter_n : char := 110%N.
Definition BOM : char := 65279%N.

Definition char_eqb (a b : char) : bool := N.eqb a b.

Definition in_range (lo hi c : N) : bool := (N.leb lo c && N.leb c hi)%bool.

(** LineTerminator: LF, CR, U+2028, U+2029. *)
Definition is_line_terminator (c : char) : bool :=
  N.eqb c 10 || N.eqb c 13 || N.eqb c 8232 || N.eqb c 8233.

(** [\s]: WhiteSpace and LineTerminator code units. *)
Definition is_space (c : char) : bool :=
  in_range 9 13 c || N.eqb c 32 || N.eqb c 160 || N.eqb c 5760
  || in_range 8192 8202 c || N.eqb c 8232 || N.eqb c 8233
  || N.eqb c 8239 || N.eqb c 8287 || N.eqb c 12288 || N.eqb c 65279.

(** [\w]: ASCII letters, digits and underscore. *)
Definition is_word (c : char) : bool :=
  in_range 97 122 c || in_range 65 90 c || in_range 48 57 c || N.eqb c 95.

(** [[\w\.\-]]: the characters of a key. *)
Definition is_key_char (c : char) : bool :=
  is_word c || N.eqb c 46 || N.eqb c 45.

(** [.] without the s flag: anything but a line terminator. *)
Definition is_dot (c : char) : bool := negb (is_line_terminator c).

(** The class of the two quote characters, single and double. *)
Definition is_quote (c : char) : bool := N.eqb c squote || N.eqb c dquote.

Fixpoint string_eqb (a b : jsstring) : bool :=
  match a, b with
  | [], [] => true
  | x :: a', y :: b' => N.eqb x y && string_eqb a' b'
  | _, _ => false
  end.

(** [s.split] on the line feed: always at least one piece. *)
Fixpoint split_lines (s : jsstring) : list jsstring :=
  match s with
  | [] => [[]]
  | c :: s' =>
      if N.eqb c LF then [] :: split_lines s'
      else match split_lines s' with
           | [] => [[c]]
           | l :: ls => (c :: l) :: ls
           end
  end.

(** [s.charAt(s.length - 1)], [None] standing for the empty string that
    charAt returns out of range. *)
Fixpoint last_char (s : jsstring) : option char :=
  match s with
  | [] => None
  | [c] => Some c
  | _ :: s' => last_char s'
  end.

(** The longest prefix whose characters satisfy [p], and the rest. *)
Fixpoint span (p : char -> bool) (s : jsstring) : jsstring * jsstring :=
  match s with
  | [] => ([], [])
  | c :: s' =>
      if p c then let (a, b) := span p s' in (c :: a, b)
      else ([], s)
  end.

End JS.

Import JS.

(* ===================================================================== *)
(** * Regular expressions: the backtracking matcher of ECMAScript *)
(* ===================================================================== *)

Module Regex.

(** The state of a match: the index reached, the input that remains from
    that index on, and the captures recorded so far (latest binding of a
    group first). *)
Record MatchState := mkState {
  endIndex : nat;
  remaining : jsstring;
  captures : list (nat * jsstring)
}.

Definition Continuation := MatchState -> option MatchState.
Definition Matcher := MatchState -> Continuation -> option MatchState.

Inductive regex :=
| CharSet (p : char -> bool)        (* a class, a literal or [.] *)
| Empty
| Seq (r1 r2 : regex)
| Disj (r1 r2 : regex)               (* r1|r2 *)
| Star (r : regex)                   (* r*, greedy *)
| Plus (r : regex)                   (* r+, greedy *)
| Opt (r : regex)                    (* r?, greedy *)
| Group (n : nat) (r : regex)        (* the n-th capturing parentheses *)
| AssertStart                        (* ^ without the m flag *)
| AssertEnd.                         (* $ without the m flag *)

Fixpoint lookup_capture (n : nat) (caps : list (nat * jsstring)) : option jsstring :=
  match caps with
  | [] => None
  | (k, v) :: caps' => if Nat.eqb k n then Some v else lookup_capture n caps'
  end.

Definition set_capture (n : nat) (v : jsstring) (y : MatchState) : MatchState :=
  mkState (endIndex y) (remaining y) ((n, v) :: captures y).

Definition clear_captures (groups : list nat) (x : MatchState) : MatchState :=
  mkState (endIndex x) (remaining x)
          (filter (fun kv => negb (existsb (Nat.eqb (fst kv)) groups)) (captures x)).

Fixpoint groups_of (r : regex) : list nat :=
  match r with
  | Seq r1 r2 | Disj r1 r2 => groups_of r1 ++ groups_of r2
  | Star r' | Plus r' | Opt r' => groups_of r'
  | Group n r' => n :: groups_of r'
  | _ => []
  end.

Definition CharacterSetMatcher (p : char -> bool) : Matcher :=
  fun x c =>
    match remaining x with
    | [] => None
    | ch :: rest =>
        if p ch then c (mkState (S (endIndex x)) rest (captures x)) else None
    end.

(** RepeatMatcher(m, min, max, greedy = true, x, c): [max = None] is
    infinity.  An iteration that matches the empty string once [min] is
    zero is rejected, so every further iteration consumes input and
    [fuel] = min + remaining length + 2 is never exhausted. *)
Fixpoint RepeatMatcher (fuel : nat) (m : Matcher) (min : nat) (max : option nat)
         (groups : list nat) (x : MatchState) (c : Continuation) : option MatchState :=
  match fuel with
  | 0 => None
  | S fuel' =>
      match max with
      | Some 0 => c x
      | _ =>
          let d : Continuation := fun y =>
            if Nat.eqb min 0 && Nat.eqb (endIndex y) (endIndex x) then None
            else RepeatMatcher fuel' m (Nat.pred min) (option_map Nat.pred max) groups y c in
          let xr := clear_captures groups x in
          if negb (Nat.eqb min 0) then m xr d
          else match m xr d with
               | Some z => Some z
               | None => c x
               end
      end
  end.

Definition repeat_fuel (min : nat) (x : MatchState) : nat :=
  S (S (min + List.length (remaining x))).

Fixpoint compile (r : regex) : Matcher :=
  match r with
  | CharSet p => CharacterSetMatcher p
  | Empty => fun x c => c x
  | Seq r1 r2 => fun x c => compile r1 x (fun y => compile r2 y c)
  | Disj r1 r2 => fun x c =>
      match compile r1 x c with
      | Some z => Some z
      | None => compile r2 x c
      end
  | Star r' => fun x c =>
      RepeatMatcher (repeat_fuel 0 x) (compile r') 0 None (groups_of r') x c
  | Plus r' => fun x c =>
      RepeatMatcher (repeat_fuel 1 x) (compile r') 1 None (groups_of r') x c
  | Opt r' => fun x c =>
      RepeatMatcher (repeat_fuel 0 x) (compile r') 0 (Some 1) (groups_of r') x c
  | Group n r' => fun x c =>
      compile r' x (fun y =>
        c (set_capture n (firstn (endIndex y - endIndex x) (remaining x)) y))
  | AssertStart => fun x c => if Nat.eqb (endIndex x) 0 then c x else None
  | AssertEnd => fun x c => match remaining x with [] => c x | _ => None end
  end.

(** One attempt of the pattern at index [idx], where [s] is the input from
    that index on. *)
Definition match_at (r : regex) (idx : nat) (s : jsstring) : option MatchState :=
  compile r (mkState idx s []) (fun y => Some y).

(** RegExpBuiltinExec of a pattern without the g and y flags: the first
    index, from 0 upwards, at which the pattern matches. *)
Fixpoint exec_from (r : regex) (idx : nat) (s : jsstring) : option MatchState :=
  match match_at r idx s with
  | Some y => Some y
  | None =>
      match s with
      | [] => None
      | _ :: s' => exec_from r (S idx) s'
      end
  end.

(** [s.match(re)] for a non-global [re]: the captures, or [None] for null. *)
Definition String_match (r : regex) (s : jsstring) : option (list (nat * jsstring)) :=
  option_map captures (exec_from r 0 s).

(** [re.test(s)] *)
Definition RegExp_test (r : regex) (s : jsstring) : bool :=
  match exec_from r 0 s with Some _ => true | None => false end.

(** [s.replace(re, repl)] for a global [re] and a replacement without [$]
    patterns: matches are looked for from left to right, each search
    starting where the previous match ended (one further after an empty
    match); [skip] counts the characters of the current match still to be
    dropped. *)
Fixpoint replace_loop (r : regex) (repl : jsstring) (idx skip : nat) (s : jsstring)
  : jsstring :=
  match skip with
  | S k =>
      match s with
      | [] => []
      | _ :: s' => replace_loop r repl (S idx) k s'
      end
  | 0 =>
      match match_at r idx s with
      | Some y =>
          let k := endIndex y - idx in
          repl ++ match s with
                  | [] => []
                  | ch :: s' =>
                      if Nat.eqb k 0 then ch :: replace_loop r repl (S idx) 0 s'
                      else replace_loop r repl (S idx) (Nat.pred k) s'
                  end
      | None =>
          match s with
          | [] => []
          | ch :: s' => ch :: replace_loop r repl (S idx) 0 s'
          end
      end
  end.

Definition String_replace_global (r : regex) (repl : jsstring) (s : jsstring) : jsstring :=
  replace_loop r repl 0 0 s.

(** A sequence of terms. *)
Fixpoint Concat (rs : list regex) : regex :=
  match rs with
  | [] => Empty
  | [r] => r
  | r :: rs' => Seq r (Concat rs')
  end.

Definition Lit (c : char) : regex := CharSet (N.eqb c).

End Regex.

Import Regex.

(* ===================================================================== *)
(** * The environment-file parser *)
(* ===================================================================== *)

Module EnvFile.

Record Environment := mkEnv { name : jsstring; value : jsstring }.

Record ParsedEnvironmentFile := mkParsed {
  Env : list Environment;
  Warning : option jsstring
}.

(** The pattern  ^ \s* ([\w\.\-]+) \s* = \s* ( .* )? \s* $  (written here with
    blanks between its terms; it has no flags). *)
Definition lineRegex : regex :=
  Concat [ AssertStart; Star (CharSet is_space);
           Group 1 (Plus (CharSet is_key_char));
           Star (CharSet is_space); Lit equals; Star (CharSet is_space);
           Opt (Group 2 (Star (CharSet is_dot)));
           Star (CharSet is_space); AssertEnd ].

(** The pattern  \\n  (a backslash followed by the letter n), flags g and m. *)
Definition escapedNewlineRegex : regex := Seq (Lit backslash) (Lit letter_n).

(** The global pattern  (^[Q]|[Q]$)  where [Q] is the class of the single
    and the double quote character. *)
Definition edgeQuoteRegex : regex :=
  Group 1 (Disj (Seq AssertStart (CharSet is_quote))
                (Seq (CharSet is_quote) AssertEnd)).

(** The pattern  ^ \s* (#|$)  (no flags). *)
Definition comments : regex :=
  Concat [ AssertStart; Star (CharSet is_space);
           Group 1 (Disj (Lit hash) AssertEnd) ].

(** An ES2015 [Map] from strings to strings: the entries in insertion
    order.  [set] on a key already present replaces the value where the
    entry stands; on a new key it appends the entry. *)
Definition JSMap := list (jsstring * jsstring).

Fixpoint Map_set (key v : jsstring) (m : JSMap) : JSMap :=
  match m with
  | [] => [(key, v)]
  | (k, v') :: m' =>
      if string_eqb k key then (k, v) :: m' else (k, v') :: Map_set key v m'
  end.

(** [m.get(key)]; the empty string stands for [undefined], which the
    parser never meets since it only looks up keys of the map. *)
Fixpoint Map_get (key : jsstring) (m : JSMap) : jsstring :=
  match m with
  | [] => []
  | (k, v) :: m' => if string_eqb k key then v else Map_get key m'
  end.

Definition Map_keys (m : JSMap) : list jsstring := map fst m.

(** [o || ""] for a capture [o] that is a string or undefined. *)
Definition or_empty (o : option jsstring) : jsstring :=
  match o with Some v => v | None => [] end.

(** The first condition of the loop body: the value is not empty and both
    its first and its last character are a double quote. *)
Definition double_quoted (v : jsstring) : bool :=
  match v with
  | [] => false
  | c :: _ =>
      N.eqb c dquote &&
      match last_char v with Some l => N.eqb l dquote | None => false end
  end.

(** The processing of the captured value. *)
Definition process_value (v : jsstring) : jsstring :=
  let v1 := if double_quoted v
            then String_replace_global escapedNewlineRegex [LF] v else v in
  String_replace_global edgeQuoteRegex [] v1.

(** The body of the forEach over the lines; the state is the map and the
    list of lines that could not be parsed. *)
Definition parse_line (st : JSMap * list jsstring) (line : jsstring)
  : JSMap * list jsstring :=
  let (env, parseErrors) := st in
  match String_match lineRegex line with
  | Some r =>
      (* r[1] is bound whenever the pattern matches *)
      let key := or_empty (lookup_capture 1 r) in
      let v := or_empty (lookup_capture 2 r) in
      (Map_set key (process_value v) env, parseErrors)
  | None =>
      if negb (RegExp_test comments line)
      then (env, parseErrors ++ [line])
      else (env, parseErrors)
  end.

(** The forEach that appends the quoted lines to the warning. *)
Fixpoint append_errors (warning : jsstring) (idx len : nat) (errs : list jsstring)
  : jsstring :=
  match errs with
  | [] => warning
  | v :: errs' =>
      append_errors
        (warning ++ [dquote] ++ v ++ [dquote]
                 ++ (if negb (Nat.eqb idx (len - 1)) then lit ", " else lit "."))
        (S idx) len errs'
  end.

Section Parser.

(** [localize] of vscode-nls: the message of a key, formatted with the
    arguments given.  It is an external library; the parser is verified
    for whatever it returns. *)
Variable localize : jsstring -> jsstring -> list jsstring -> jsstring.

Definition strip_bom (content : jsstring) : jsstring :=
  match content with
  | c :: rest => if N.eqb c BOM then rest else content
  | [] => content
  end.

Definition CreateFromContent (content envFile : jsstring)
           (initialEnv : option (list Environment)) : ParsedEnvironmentFile :=
  let content := strip_bom content in
  let env0 : JSMap :=
    match initialEnv with
    | Some es => fold_left (fun env e => Map_set (name e) (value e) env) es []
    | None => []
    end in
  let (env, parseErrors) := fold_left parse_line (split_lines content) (env0, []) in
  let warning :=
    if negb (Nat.eqb (List.length parseErrors) 0)
    then Some (append_errors
                 (localize (lit "ignoring.lines.in.envfile")
                           (lit "Ignoring non-parseable lines in {0} {1}: ")
                           [lit "envFile"; envFile])
                 0 (List.length parseErrors) parseErrors)
    else None in
  let arrayEnv := map (fun key => mkEnv key (Map_get key env)) (Map_keys env) in
  mkParsed arrayEnv warning.

End Parser.

(** What vscode-nls does when no translated bundle is loaded: the default
    message with the placeholders replaced.  Used for the examples only. *)
Definition localize_default (key message : jsstring) (args : list jsstring) : jsstring :=
  lit "Ignoring non-parseable lines in " ++ nth 0 args [] ++ lit " " ++ nth 1 args [] ++ lit ": ".

End EnvFile.

Import EnvFile.

(* ===================================================================== *)
(** * The update cycle of the language-server extension *)
(* ===================================================================== *)

Module Update.

Unset Implicit Arguments.

(** A JavaScript value, as far as one is thrown, used to reject a promise
    or sent as a telemetry property here: undefined, null, a boolean, a
    string, or an object, given by the text that its toString method
    returns and by its data properties.  Numbers, symbols, functions and
    objects with accessor properties are left out. *)
#[warnings="-register-all"]
Inductive Value :=
| VUndefined
| VNull
| VBoolean (b : bool)
| VString (s : jsstring)
| VObject (printed : jsstring) (properties : list (jsstring * Value)).

(** A JavaScript [Error]: what the code reads of it is its message. *)
Record Error := mkError { message : jsstring }.

(** The object that [new Error(message)] makes: its message is an own
    property, and it is printed as Error, a colon and the message. *)
Definition error_object (e : Error) : Value :=
  VObject (match message e with
           | [] => lit "Error"
           | _ :: _ => lit "Error: " ++ message e
           end)
          [(lit "message", VString (message e))].

Coercion error_object : Error >-> Value.

Fixpoint get_property (key : jsstring) (properties : list (jsstring * Value)) : Value :=
  match properties with
  | [] => VUndefined
  | (k, v) :: rest => if string_eqb k key then v else get_property key rest
  end.

(** [error.message]: reading a property of undefined or of null throws a
    TypeError, for which [None] stands; a boolean and a string have no
    such property. *)
Definition read_message (error : Value) : option Value :=
  match error with
  | VUndefined | VNull => None
  | VBoolean _ | VString _ => Some VUndefined
  | VObject _ properties => Some (get_property (lit "message") properties)
  end.

(** The text of a value in a template literal. *)
Definition ToString (v : Value) : jsstring :=
  match v with
  | VUndefined => lit "undefined"
  | VNull => lit "null"
  | VBoolean true => lit "true"
  | VBoolean false => lit "false"
  | VString s => s
  | VObject printed _ => printed
  end.

(** The state of a promise. *)
Inductive Settlement :=
| Pending
| Fulfilled
| RejectedWith (e : Value).

(** [resolve()] and [reject(e)] settle a promise once; later calls do
    nothing. *)
Definition settle (p now : Settlement) : Settlement :=
  match p with
  | Pending => now
  | _ => p
  end.

Record BuildInfo := mkBuildInfo { buildName : jsstring; downloadUrl : jsstring }.

(** The setting http.proxySupport as the host keeps it: the value of the
    user (global) scope, which [inspect] shows and [update(.., true)]
    writes, and the value [get] returns, in which a workspace value
    overrides the user value and the default stands for a missing one. *)
Record Config := mkConfig {
  defaultValue : jsstring;
  globalValue : option jsstring;
  workspaceValue : option jsstring
}.

Definition config_get (c : Config) : jsstring :=
  match workspaceValue c with
  | Some v => v
  | None => match globalValue c with Some v => v | None => defaultValue c end
  end.

Definition config_update_global (v : option jsstring) (c : Config) : Config :=
  mkConfig (defaultValue c) v (workspaceValue c).

(** [a !== b] on values that are a string or undefined. *)
Definition differs (a b : option jsstring) : bool :=
  match a, b with
  | None, None => false
  | Some x, Some y => negb (string_eqb x y)
  | _, _ => true
  end.

(** A Node interval timer whose callback is [checkAndApplyUpdate]: its
    handle, its period in milliseconds and the extra arguments given to
    [setInterval], which are passed to the callback at every tick. *)
Record Timer := mkTimer { handle : nat; interval : N; timerArgs : list jsstring }.

Definition insiderUpdateTimerInterval : N := (1000 * 60 * 60)%N.

(** What the cycle does to the outside, in the order in which it does it.
    [EvConfigUpdate] is the call of [config.update], not the write. *)
Inductive Event :=
| EvDownload (url : jsstring) (attempt : nat) (ok : bool)
| EvConfigUpdate (v : option jsstring)
| EvTelemetry (event : jsstring) (properties : list (jsstring * Value))
| EvConsoleError (msg : jsstring)
| EvInstall (vsixPath : jsstring)
| EvPromptReload (msg : jsstring)
| EvResolve
| EvReject (e : Value)
| EvCheckAndApplyUpdate (updateChannel : option jsstring)
| EvSuggestInsidersChannel.

(** A write of the user value of http.proxySupport that the host has been
    asked for and has not carried out yet: the number of awaits it still
    takes, and the value. *)
Definition PendingWrite : Type := nat * option jsstring.

Record World := mkWorld {
  config : Config;
  pendingWrites : list PendingWrite;    (* oldest first *)
  insiderUpdateTimer : option nat;
  timers : list Timer;
  nextHandle : nat;
  buildInfoCache : option BuildInfo
}.

(** ** A state monad over the world that also collects the events *)

Definition M (A : Type) : Type := World -> A * World * list Event.

Definition ret {A} (a : A) : M A := fun w => (a, w, []).

Definition bind {A B} (m : M A) (k : A -> M B) : M B :=
  fun w =>
    let '(a, w1, t1) := m w in
    let '(b, w2, t2) := k a w1 in
    (b, w2, t1 ++ t2).

Notation "x <- m ;; k" := (bind m (fun x => k))
  (at level 61, m at next level, right associativity).
Notation "m ;;; k" := (bind m (fun _ => k))
  (at level 61, right associativity).

Definition emit (e : Event) : M unit := fun w => (tt, w, [e]).

Definition inspect_global : M (option jsstring) :=
  fun w => (globalValue (config w), w, []).

Definition get_effective : M jsstring := fun w => (config_get (config w), w, []).

(** ** The host writes a setting later *)

(** [config.update] returns a promise, which the code does not await: the
    host carries the write out while the code waits at some later await,
    or at once.  The host carries the writes out in the order in which it
    was asked for them: the writes at the head of the queue that take no
    further await are done. *)
Fixpoint carry_out (q : list PendingWrite) (c : Config) : list PendingWrite * Config :=
  match q with
  | (0, v) :: q' => carry_out q' (config_update_global v c)
  | _ => (q, c)
  end.

(** One await passes for the write the host is working on. *)
Definition one_await (q : list PendingWrite) : list PendingWrite :=
  match q with
  | (S n, v) :: q' => (n, v) :: q'
  | _ => q
  end.

Definition with_config (c : Config) (q : list PendingWrite) (w : World) : World :=
  mkWorld c q (insiderUpdateTimer w) (timers w) (nextHandle w) (buildInfoCache w).

(** The code waits at an [await], or for a callback: the host works on
    the pending writes. *)
Definition await_host : M unit :=
  fun w =>
    let '(q, c) := carry_out (one_await (pendingWrites w)) (config w) in
    (tt, with_config c q w, []).

(** [config.update('http.proxySupport', v, true)], not awaited; [latency]
    is the number of awaits that the host takes for this write once the
    writes before it are done. *)
Definition config_update (latency : nat) (v : option jsstring) : M unit :=
  fun w =>
    let '(q, c) := carry_out (pendingWrites w ++ [(latency, v)]) (config w) in
    (tt, with_config c q w, [EvConfigUpdate v]).

(** [insiderUpdateTimer = setInterval(checkAndApplyUpdate,
    insiderUpdateTimerInterval, ...args)] *)
Definition setInterval_insider (args : list jsstring) : M unit :=
  fun w => (tt, mkWorld (config w) (pendingWrites w) (Some (nextHandle w))
                        (timers w ++ [mkTimer (nextHandle w) insiderUpdateTimerInterval args])
                        (S (nextHandle w)) (buildInfoCache w),
            []).

(** [clearInterval(insiderUpdateTimer)] *)
Definition clearInterval_insider : M unit :=
  fun w =>
    (tt, mkWorld (config w) (pendingWrites w) (insiderUpdateTimer w)
                 (match insiderUpdateTimer w with
                  | Some h => filter (fun t => negb (Nat.eqb (handle t) h)) (timers w)
                  | None => timers w
                  end)
                 (nextHandle w) (buildInfoCache w),
     []).

Definition take_buildInfoCache : M (option BuildInfo) :=
  fun w => (buildInfoCache w,
            mkWorld (config w) (pendingWrites w) (insiderUpdateTimer w) (timers w)
                    (nextHandle w) None,
            []).

(** The parts of a finished computation. *)
Definition result {A} (r : A * World * list Event) : A := fst (fst r).
Definition world {A} (r : A * World * list Event) : World := snd (fst r).
Definition events {A} (r : A * World * list Event) : list Event := snd r.

(** ** What the outside answers during one cycle *)

Inductive FeedResult :=
| FeedBuild (b : BuildInfo)
| FeedNothing
| FeedError (e : Value).

Record Externals := mkExternals {
  (** [tmp.file]: an error, or the path of the temporary file *)
  tmpFile : option jsstring;
  (** the outcome of the n-th call of [downloadFileToDestination] *)
  download : nat -> bool;
  (** how the promise of [installVsix] settles *)
  installOutcome : Settlement;
  (** [getTargetBuildInfo], by update channel *)
  getTargetBuildInfo : option jsstring -> FeedResult;
  (** the number of awaits that the host takes for the setting write
      asked for after the n-th download; 0 when it writes at once *)
  writeLatency : nat -> nat;
  (** the TypeError that the engine throws when the named property is
      read of undefined or null, or called where it is no function *)
  typeError : jsstring -> Value
}.

Definition cppInstallVsixStr : jsstring := lit "C/C++: Install vsix -- ".
Definition off : jsstring := lit "off".

Definition err (s : string) : Error := mkError (lit s).

(** [msg.indexOf('/') !== -1 || msg.indexOf('\\') !== -1] *)
Definition has_path_separator (msg : jsstring) : bool :=
  existsb (N.eqb 47) msg || existsb (N.eqb backslash) msg.

Inductive LoopResult :=
| Break
| Return (e : Error)       (* reject(e); return *)
| OutOfFuel.

(** The [while (true)] loop around the download; [attempt] counts the
    calls of [downloadFileToDestination]. *)
Fixpoint download_loop (ext : Externals) (url : jsstring)
         (originalProxySupport : option jsstring) (fuel attempt : nat)
  : M LoopResult :=
  match fuel with
  | 0 => ret OutOfFuel
  | S fuel' =>
      await_host ;;;
      emit (EvDownload url attempt (download ext attempt)) ;;;
      if download ext attempt then
        g <- inspect_global ;;
        (if differs originalProxySupport g then
           config_update (writeLatency ext attempt) originalProxySupport ;;;
           emit (EvTelemetry (lit "installVsix")
                   [(lit "error", VString (lit "Success with proxySupport off"));
                    (lit "success", VString (lit "true"))])
         else ret tt) ;;;
        ret Break
      else
        g <- inspect_global ;;
        if differs originalProxySupport g then
          config_update (writeLatency ext attempt) originalProxySupport ;;;
          ret (Return (err "Failed to download VSIX package with proxySupport off"))
        else
          eff <- get_effective ;;
          if negb (string_eqb eff off) && differs originalProxySupport (Some off) then
            config_update (writeLatency ext attempt) (Some off) ;;;
            download_loop ext url originalProxySupport fuel' (S attempt)
          else
            ret (Return (err "Failed to download VSIX package"))
  end.

(** The awaits that the pending writes still take, and their number. *)
Definition waiting (q : list PendingWrite) : nat :=
  fold_right (fun wv n => fst wv + n) 0 q.

(** The loop is left after that many rounds at the latest: by then the
    host has carried out the first write to off that the loop asks for
    (see [download_loop_terminates]). *)
Definition loop_bound (ext : Externals) : M nat :=
  fun w => (3 + waiting (pendingWrites w) + List.length (pendingWrites w)
            + writeLatency ext 0, w, []).

Definition reject (e : Value) : M Settlement :=
  emit (EvReject e) ;;; ret (RejectedWith e).

(** The executor of the promise made in [applyUpdate]: the callback of
    [tmp.file]. *)
Definition applyUpdate_executor (ext : Externals) (buildInfo : BuildInfo)
  : M Settlement :=
  await_host ;;;
  match tmpFile ext with
  | None => reject (err "Failed to create vsix file")
  | Some vsixPath =>
      originalProxySupport <- inspect_global ;;
      fuel <- loop_bound ext ;;
      r <- download_loop ext (downloadUrl buildInfo) originalProxySupport fuel 0 ;;
      match r with
      | Return e => reject e
      | OutOfFuel => ret Pending
      | Break =>
          emit (EvInstall vsixPath) ;;;
          await_host ;;;
          match installOutcome ext with
          | RejectedWith error => reject error
          | Pending => ret Pending
          | Fulfilled =>
              clearInterval_insider ;;;
              emit (EvPromptReload
                      (lit "The C/C++ Extension has been updated to version "
                       ++ buildName buildInfo
                       ++ lit ". Please reload the window for the changes to take effect.")) ;;;
              emit (EvTelemetry (lit "installVsix")
                      [(lit "success", VString (lit "true"))]) ;;;
              emit EvResolve ;;;
              ret Fulfilled
          end
      end
  end.

(** The [.catch] handler of [applyUpdate].  The promise that [catch]
    returns is fulfilled when the handler returns and rejected with what
    the handler throws: the template literal reads the message of the
    error, and [indexOf] is called on the message, which works on a
    string only. *)
Definition applyUpdate_catch (ext : Externals) (error : Value) : M Settlement :=
  match read_message error with
  | None => ret (RejectedWith (typeError ext (lit "message")))
  | Some m =>
      emit (EvConsoleError (cppInstallVsixStr ++ ToString m)) ;;;
      match m with
      | VString msg =>
          let msg := if has_path_separator msg then lit "Potential PII hidden" else msg in
          emit (EvTelemetry (lit "installVsix")
                  [(lit "error", VString msg); (lit "success", VString (lit "false"))]) ;;;
          ret Fulfilled
      | _ => ret (RejectedWith (typeError ext (lit "indexOf")))
      end
  end.

Definition applyUpdate (ext : Externals) (buildInfo : BuildInfo) : M Settlement :=
  p <- applyUpdate_executor ext buildInfo ;;
  match p with
  | RejectedWith error => applyUpdate_catch ext error
  | Fulfilled => ret Fulfilled
  | Pending => ret Pending
  end.

(** [checkAndApplyUpdate]: the catch block reads the message of what the
    feed threw; when that read throws, the function ends there and its
    promise is rejected. *)
Definition checkAndApplyUpdate (ext : Externals) (updateChannel : option jsstring)
  : M Settlement :=
  cached <- take_buildInfoCache ;;
  buildInfo <-
    match cached with
    | Some b => ret (inl (Some b))
    | None =>
        await_host ;;;
        match getTargetBuildInfo ext updateChannel with
        | FeedBuild b => ret (inl (Some b))
        | FeedNothing => ret (inl None)
        | FeedError error =>
            match read_message error with
            | Some m =>
                emit (EvTelemetry (lit "installVsix")
                        [(lit "error", m); (lit "success", VString (lit "false"))]) ;;;
                ret (inl None)
            | None => ret (inr (typeError ext (lit "message")))
            end
        end
    end ;;
  match buildInfo with
  | inr thrown => ret (RejectedWith thrown)
  | inl None => ret Fulfilled
  | inl (Some b) => applyUpdate ext b
  end.

(** ** The polling timer *)

Definition Default : jsstring := lit "Default".
Definition Insiders : jsstring := lit "Insiders".

(** The end of [realActivation]: what is done with the update channel of
    the settings.  Calls of [checkAndApplyUpdate] and of
    [suggestInsidersChannel] start asynchronous work; the call itself is
    recorded. *)
Definition realActivation_updateChannel (updateChannel : jsstring) : M unit :=
  if string_eqb updateChannel Default then
    emit EvSuggestInsidersChannel
  else if string_eqb updateChannel Insiders then
    setInterval_insider [updateChannel] ;;;
    emit (EvCheckAndApplyUpdate (Some updateChannel))
  else ret tt.

(** The end of [onDidChangeSettings]; [newUpdateChannel] is the changed
    value of updateChannel, undefined when it did not change. *)
Definition onDidChangeSettings_updateChannel (newUpdateChannel : option jsstring)
  : M unit :=
  match newUpdateChannel with
  | None | Some [] => ret tt
  | Some ch =>
      (if string_eqb ch Default then clearInterval_insider
       else if string_eqb ch Insiders then setInterval_insider []
       else ret tt) ;;;
      emit (EvCheckAndApplyUpdate (Some ch))
  end.

(** A tick of a timer calls its callback with the extra arguments of
    [setInterval]; a parameter without argument is undefined. *)
Definition tick (t : Timer) : M unit :=
  emit (EvCheckAndApplyUpdate (nth_error (timerArgs t) 0)).

(** One period of the polling timer passes: every active timer ticks. *)
Fixpoint tick_all (ts : list Timer) : M unit :=
  match ts with
  | [] => ret tt
  | t :: ts' => tick t ;;; tick_all ts'
  end.

Definition hour_passes : M unit := fun w => tick_all (timers w) w.

Definition initial_world (c : Config) : World :=
  mkWorld c [] None [] 0 None.

End Update.

Import Update.

(* ===================================================================== *)
(** * [installVsix]: the install process and its timeout *)
(* ===================================================================== *)

Module Install.

Unset Implicit Arguments.

(** The exit code of a child process: a number, or null when a signal ended
    the process. *)
Definition ExitCode := option Z.

(** The text a template literal gives for the code. *)
Definition code_string (code : ExitCode) : jsstring :=
  match code with
  | Some z => lit (NilZero.string_of_int (Z.to_int z))
  | None => lit "null"
  end.

Inductive SpawnResult :=
| SpawnThrows      (* spawn raises *)
| SpawnNoPid       (* the child has no pid: it could not be started *)
| Spawned.

(** How the promise returned by [installVsix] is decided. *)
Inductive Variant :=
| ViaHostCommand   (* the command workbench.extensions.installExtension *)
| ViaExitCode      (* the script with --force: the exit event decides *)
| ViaStdout        (* the older script: its first output decides *)
| NoProcess.       (* settled, or left waiting, without a process *)

Record InstallState := mkInstall {
  variant : Variant;
  promise : Settlement;
  timerArmed : bool;         (* the 30 s timeout is pending *)
  killed : bool;             (* process.kill() was called *)
  stdin : list jsstring;     (* what was written to the process *)
  sentOverride : bool
}.

(** What can happen while the promise is awaited. *)
Inductive ProcEvent :=
| Exit (code : ExitCode)
| StdoutData
| HostCommandSettles (r : Settlement)
| Timeout30s.

Definition timeoutError : Error :=
  err "Failed to receive response from VS Code script process for installation within 30s.".
Definition launchError : Error :=
  err "Failed to launch VS Code script process for installation".
Definition scriptError : Error := err "Failed to find VS Code script".
Definition exitError (code : ExitCode) : Error :=
  mkError (lit "VS Code script exited with error code " ++ code_string code).

Definition is_zero (code : ExitCode) : bool :=
  match code with Some 0%Z => true | _ => false end.

(** The listeners: the exit listener of the first variant, the data
    listener of the second, the timeout of both.  Node cancels a timeout
    through [clearInterval] as through [clearTimeout]. *)
Definition handle (st : InstallState) (ev : ProcEvent) : InstallState :=
  match variant st, ev with
  | ViaHostCommand, HostCommandSettles r =>
      mkInstall (variant st) (settle (promise st) r) (timerArmed st) (killed st)
                (stdin st) (sentOverride st)
  | ViaExitCode, Exit code =>
      mkInstall (variant st)
                (settle (promise st)
                        (if negb (is_zero code) then RejectedWith (exitError code)
                         else Fulfilled))
                false (killed st) (stdin st) (sentOverride st)
  | ViaStdout, StdoutData =>
      if sentOverride st then st
      else mkInstall (variant st) (settle (promise st) Fulfilled) false (killed st)
                     (stdin st ++ [lit "0" ++ [LF]]) true
  | ViaExitCode, Timeout30s | ViaStdout, Timeout30s =>
      if timerArmed st
      then mkInstall (variant st) (settle (promise st) (RejectedWith timeoutError))
                     false true (stdin st) (sentOverride st)
      else st
  | _, _ => st
  end.

Definition run (st : InstallState) (evs : list ProcEvent) : InstallState :=
  fold_left handle evs st.

(** The state when the 30 seconds are over: the timeout fires if it is
    still pending. *)
Definition at_deadline (st : InstallState) (evs : list ProcEvent) : InstallState :=
  handle (run st evs) Timeout30s.

Definition idle (v : Variant) (p : Settlement) : InstallState :=
  mkInstall v p false false [] false.

Section InstallVsix.

(** The class PackageVersion is declared in another file: its values,
    the comparison and the two versions the function compares with are
    taken as given. *)
Variable PackageVersion : Type.
Variable isGreaterThan : PackageVersion -> PackageVersion -> bool.
Variable version_1_32_3 : PackageVersion.
Variable version_1_27_2 : PackageVersion.

Record InstallInput := mkInput {
  (** [new PackageVersion(vscode.version)] *)
  userVersion : PackageVersion;
  (** how the promise of GetPlatformInformation settles *)
  platformInformation : Settlement;
  (** the path of the VS Code script found for the platform, if any *)
  vsCodeScriptPath : option jsstring;
  spawnResult : SpawnResult
}.

(** The state in which [installVsix] leaves the promise it returns, before
    any event. *)
Definition installVsix (i : InstallInput) : InstallState :=
  if isGreaterThan (userVersion i) version_1_32_3 then
    idle ViaHostCommand Pending
  else
    match platformInformation i with
    | Pending => idle NoProcess Pending
    | RejectedWith e => idle NoProcess (RejectedWith e)
    | Fulfilled =>
        match vsCodeScriptPath i with
        | None => idle NoProcess (RejectedWith scriptError)
        | Some _ =>
            if isGreaterThan (userVersion i) version_1_27_2 then
              match spawnResult i with
              | SpawnThrows => idle NoProcess (RejectedWith launchError)
              | SpawnNoPid =>
                  mkInstall ViaExitCode (RejectedWith launchError) true false [] false
              | Spawned => mkInstall ViaExitCode Pending true false [] false
              end
            else
              match spawnResult i with
              | SpawnThrows | SpawnNoPid => idle NoProcess (RejectedWith launchError)
              | Spawned => mkInstall ViaStdout Pending true false [] false
              end
        end
    end.

End InstallVsix.

Arguments mkInput {PackageVersion}.
Arguments userVersion {PackageVersion}.
Arguments platformInformation {PackageVersion}.
Arguments vsCodeScriptPath {PackageVersion}.
Arguments spawnResult {PackageVersion}.

(** Versions as major.minor.patch, for the examples. *)
Record SemVer := mkSemVer { major : nat; minor : nat; patch : nat }.

Definition semver_gt (a b : SemVer) : bool :=
  Nat.ltb (major b) (major a)
  || (Nat.eqb (major a) (major b)
      && (Nat.ltb (minor b) (minor a)
          || (Nat.eqb (minor a) (minor b) && Nat.ltb (patch b) (patch a)))).

Definition installVsix_semver : InstallInput SemVer -> InstallState :=
  installVsix SemVer semver_gt (mkSemVer 1 32 3) (mkSemVer 1 27 2).

End Install.

Import Install.

(* ===================================================================== *)
(** * Suggesting the Insiders channel, and shutting down *)
(* ===================================================================== *)

Module Suggest.

Unset Implicit Arguments.

(** The module state of the extension together with the stored value of
    the persistent state CPP.suggestInsiders ([None] when nothing has been
    stored yet). *)
Record Session := mkSession {
  sessionWorld : World;
  suggestInsiders : option bool
}.

(** The getter [Value] of a [PersistentState]: the stored value, or the
    default given to the constructor.  The class is declared in another
    file. *)
Definition PersistentState_Value (defaultValue : bool) (stored : option bool) : bool :=
  match stored with
  | Some v => v
  | None => defaultValue
  end.

(** What [suggestInsidersChannel] does to the outside. *)
Inductive UiEvent :=
| UiConsoleLog (msg : jsstring)
| UiTelemetry (event : jsstring) (properties : list (jsstring * Value))
| UiShowInformationMessage (msg : jsstring) (items : list jsstring)
| UiUpdateSetting (section key v : jsstring)    (* the user (global) target *)
| UiReject (e : Value).                         (* the function throws *)

Definition yes : jsstring := lit "Yes".
Definition askLater : jsstring := lit "Ask Me Later".
Definition dontShowAgain : jsstring := lit "Don't Show Again".

Definition set_buildInfoCache (b : option BuildInfo) (w : World) : World :=
  mkWorld (config w) (pendingWrites w) (insiderUpdateTimer w) (timers w) (nextHandle w) b.

(** [suggestInsidersChannel]; [selection] is what the user answers if the
    message is shown: one of the three items, or undefined when the message
    is dismissed.  The catch block reads the message of what the feed
    threw and calls [indexOf] on it; when that throws, the function ends
    there and its promise is rejected. *)
Definition suggestInsidersChannel (ext : Externals) (selection : option jsstring)
           (s : Session) : Session * list UiEvent :=
  if negb (PersistentState_Value true (suggestInsiders s)) then (s, [])
  else
    let '(buildInfo, t1) :=
      match getTargetBuildInfo ext (Some Insiders) with
      | FeedBuild b => (Some b, [])
      | FeedNothing => (None, [])
      | FeedError error =>
          (None,
           match read_message error with
           | None => [UiReject (typeError ext (lit "message"))]
           | Some m =>
               UiConsoleLog (cppInstallVsixStr ++ ToString m)
               :: match m with
                  | VString msg =>
                      [UiTelemetry (lit "suggestInsiders")
                         [(lit "error",
                           VString (if has_path_separator msg
                                    then lit "Potential PII hidden" else msg));
                          (lit "success", VString (lit "false"))]]
                  | _ => [UiReject (typeError ext (lit "indexOf"))]
                  end
           end)
      end in
    match buildInfo with
    | None => (s, t1)
    | Some b =>
        let msg := lit "Insiders version " ++ buildName b
                   ++ lit " is available. Would you like to switch to the Insiders channel and install this update?" in
        let t2 := t1 ++ [UiShowInformationMessage msg [yes; askLater; dontShowAgain]] in
        match selection with
        | Some sel =>
            if string_eqb sel yes then
              (mkSession (set_buildInfoCache (Some b) (sessionWorld s)) (suggestInsiders s),
               t2 ++ [UiUpdateSetting (lit "C_Cpp") (lit "updateChannel") Insiders])
            else if string_eqb sel dontShowAgain then
              (mkSession (sessionWorld s) (Some false), t2)
            else (s, t2)
        | None => (s, t2)
        end
    end.

(** [deactivate], as far as the state kept here goes: the polling timer is
    cleared.  Its other statements dispose of objects that are not part of
    this state. *)
Definition deactivate : M unit := clearInterval_insider.

End Suggest.

Import Suggest.

(* ===================================================================== *)
(** * More of the JavaScript string functions *)
(* ===================================================================== *)

Module JSString.

Unset Implicit Arguments.

Definition TAB : char := 9%N.

Fixpoint starts_with (p s : jsstring) : bool :=
  match p, s with
  | [], _ => true
  | a :: p', b :: s' => N.eqb a b && starts_with p' s'
  | _ :: _, [] => false
  end.

(** The first index at or after [idx] at which [needle] occurs, where [s]
    is the string from [idx] on. *)
Fixpoint index_from (needle s : jsstring) (idx : nat) : option nat :=
  if starts_with needle s then Some idx
  else match s with
       | [] => None
       | _ :: s' => index_from needle s' (S idx)
       end.

(** [s.indexOf(needle, position)]: the search starts at the position
    clamped to the string; -1 when there is no occurrence. *)
Definition String_indexOf (needle s : jsstring) (position : Z) : Z :=
  let start := Z.to_nat (Z.min (Z.max position 0) (Z.of_nat (List.length s))) in
  match index_from needle (skipn start s) start with
  | Some i => Z.of_nat i
  | None => (-1)%Z
  end.

(** [s.includes(needle)] *)
Definition String_includes (needle s : jsstring) : bool :=
  match index_from needle s 0 with
  | Some _ => true
  | None => false
  end.

(** [s.substr(start, length)]; [None] for a length that is not given.  A
    negative start counts from the end. *)
Definition String_substr (s : jsstring) (start : Z) (length : option Z) : jsstring :=
  let size := Z.of_nat (List.length s) in
  let from := if (start <? 0)%Z then Z.max (size + start) 0 else Z.min start size in
  let len := match length with
             | None => (size - from)%Z
             | Some l => Z.min (Z.max l 0) (size - from)
             end in
  firstn (Z.to_nat len) (skipn (Z.to_nat from) s).

Fixpoint drop_while (p : char -> bool) (s : jsstring) : jsstring :=
  match s with
  | [] => []
  | c :: s' => if p c then drop_while p s' else s
  end.

(** [s.trimRight()]: the white space and the line terminators at the end
    are removed; they are the characters of the class [\s]. *)
Definition String_trimRight (s : jsstring) : jsstring :=
  rev (drop_while is_space (rev s)).

(** [s.replace(re, repl)] for a pattern without the g flag: the first
    match, looked for from index 0 upwards, is replaced. *)
Fixpoint replace_first_from (r : regex) (repl : jsstring) (idx : nat) (s : jsstring)
  : jsstring :=
  match match_at r idx s with
  | Some y => repl ++ skipn (endIndex y - idx) s
  | None =>
      match s with
      | [] => []
      | c :: s' => c :: replace_first_from r repl (S idx) s'
      end
  end.

Definition String_replace_first (r : regex) (repl s : jsstring) : jsstring :=
  replace_first_from r repl 0 s.

(** [\d] *)
Definition is_digit (c : char) : bool := in_range 48 57 c.

(** The pattern of a literal text. *)
Definition Literal (text : jsstring) : regex := Concat (map Lit text).

(** [new RegExp(source)] for a source in which the dot is the only
    character with a special meaning. *)
Definition RegExp_of_source (source : jsstring) : regex :=
  Concat (map (fun c => if N.eqb c 46 then CharSet is_dot else Lit c) source).

End JSString.

Import JSString.

(* ===================================================================== *)
(** * Reporting a crash of the language server on macOS *)
(* ===================================================================== *)

Module Crash.

Unset Implicit Arguments.

(** What is sent: the name of the event and its properties. *)
Record TelemetryEvent := mkTelemetry {
  eventName : jsstring;
  eventProperties : list (jsstring * jsstring)
}.

Definition logCrashTelemetry (data : jsstring) : TelemetryEvent :=
  mkTelemetry (lit "MacCrash") [(lit "CrashingThreadCallStack", data)].

(** The pattern  ^Version: \s* ( \d* \. \d* \. \d* \. \d* | \d )  *)
Definition versionRegex : regex :=
  Concat [ AssertStart; Literal (lit "Version:"); Star (CharSet is_space);
           Group 1 (Disj (Concat [ Star (CharSet is_digit); Lit 46%N;
                                   Star (CharSet is_digit); Lit 46%N;
                                   Star (CharSet is_digit); Lit 46%N;
                                   Star (CharSet is_digit) ])
                         (CharSet is_digit)) ].

(** The global pattern: 0x, sixteen characters, a blank. *)
Definition addressRegex : regex :=
  Concat (map Lit (lit "0x") ++ repeat (CharSet is_dot) 16 ++ [Lit 32%N]).

(** The global pattern: 0x1, eight characters, blank, plus sign, blank,
    zero. *)
Definition offsetRegex : regex :=
  Concat (map Lit (lit "0x1") ++ repeat (CharSet is_dot) 8 ++ map Lit (lit " + 0")).

(** The pattern: digits and then blanks at the start. *)
Definition lineNumberRegex : regex :=
  Concat [ AssertStart; Plus (CharSet is_digit); Plus (CharSet is_space) ].

Definition stdRegex : regex := Literal (lit "std::__1::").

Definition crashStart : jsstring := lit " Crashed:".
Definition process1 : jsstring :=
  lit "Microsoft.VSCode.CPP.IntelliSense.Msvc.darwin" ++ [TAB].
Definition process2 : jsstring :=
  lit "Microsoft.VSCode.CPP.Extension.darwin" ++ [TAB].

(** The body of the forEach over the lines of the call stack. *)
Definition add_line (data line : jsstring) : jsstring :=
  if negb (String_includes (lit ".dylib") line) && negb (String_includes (lit "???") line)
  then
    let line := String_replace_first lineNumberRegex [] line in
    let line := String_replace_global stdRegex (lit "std::") line in
    data ++ (line ++ [LF])
  else data.

(** [handleCrashFileRead]; [err] is the error of the read if there was
    one, given by the text of its code.  The result is the one event that
    the function logs. *)
Definition handleCrashFileRead (err : option jsstring) (data : jsstring)
  : TelemetryEvent :=
  match err with
  | Some code => logCrashTelemetry (lit "readFile: " ++ code)
  | None =>
      let startVersion := String_indexOf (lit "Version:") data 0 in
      let '(data, binaryVersion) :=
        if (0 <=? startVersion)%Z then
          let data := String_substr data startVersion None in
          (data,
           match String_match versionRegex data with
           | Some binaryVersionMatches => or_empty (lookup_capture 1 binaryVersionMatches)
           | None => []
           end)
        else (data, []) in
      let startCrash := String_indexOf crashStart data 0 in
      if (startCrash <? 0)%Z then logCrashTelemetry (lit "No crash start")
      else
        let startCrash := (startCrash + Z.of_nat (List.length crashStart) + 1)%Z in
        let endCrash := String_indexOf (lit "Thread ") data startCrash in
        let endCrash := if (endCrash <? 0)%Z
                        then (Z.of_nat (List.length data) - 1)%Z else endCrash in
        if (endCrash <=? startCrash)%Z then logCrashTelemetry (lit "No crash end")
        else
          let data := String_substr data startCrash (Some (endCrash - startCrash)%Z) in
          let data := String_replace_global addressRegex [] data in
          let data := String_replace_global offsetRegex [] data in
          let named (process : jsstring) :=
            let data := String_replace_global (RegExp_of_source process) [] data in
            let data := process ++ binaryVersion ++ [LF] ++ data in
            let lines := split_lines data in
            let data := fold_left add_line lines [] in
            let data := String_trimRight data in
            let data := if (8192 <? Z.of_nat (List.length data))%Z
                        then String_substr data 0 (Some 8189%Z) ++ lit "..."
                        else data in
            logCrashTelemetry data in
          if String_includes process1 data then named process1
          else if String_includes process2 data then named process2
          else logCrashTelemetry (lit "No process")
  end.

End Crash.

Import Crash.

(* ===================================================================== *)
(** * Looking up missing headers in the vcpkg database *)
(* ===================================================================== *)

Module Vcpkg.

Unset Implicit Arguments.

Definition slash : char := 47%N.
Definition less_than : char := 60%N.
Definition greater_than : char := 62%N.

(** [s.replace(pattern, repl)] for a pattern that is a string: the first
    occurrence is replaced. *)
Definition String_replace_string (pattern repl s : jsstring) : jsstring :=
  match index_from pattern s 0 with
  | Some i => firstn i s ++ repl ++ skipn (i + List.length pattern) s
  | None => s
  end.

(** [xs.indexOf(x)]: the first index at which [x] stands, [None] for -1. *)
Fixpoint Array_indexOf_from {A} (eqb : A -> A -> bool) (x : A) (xs : list A) (i : nat)
  : option nat :=
  match xs with
  | [] => None
  | y :: xs' => if eqb y x then Some i else Array_indexOf_from eqb x xs' (S i)
  end.

Definition Array_indexOf {A} (eqb : A -> A -> bool) (x : A) (xs : list A) : option nat :=
  Array_indexOf_from eqb x xs 0.

(** [xs.filter((x, index) => f(x, index))] *)
Fixpoint filter_indexed_from {A} (f : A -> nat -> bool) (xs : list A) (i : nat) : list A :=
  match xs with
  | [] => []
  | x :: xs' =>
      if f x i then x :: filter_indexed_from f xs' (S i)
      else filter_indexed_from f xs' (S i)
  end.

(** [xs.filter((x, index) => xs.indexOf(x) === index)] *)
Definition filter_duplicates {A} (eqb : A -> A -> bool) (xs : list A) : list A :=
  filter_indexed_from
    (fun x index => match Array_indexOf eqb x xs with
                    | Some foundIndex => Nat.eqb foundIndex index
                    | None => false
                    end)
    xs 0.

(** The code of a diagnostic: a number, a string, or none. *)
Inductive DiagnosticCode :=
| CodeNumber (n : Z)
| CodeString (s : jsstring)
| CodeUndefined.

Record Diagnostic := mkDiagnostic {
  diagnosticCode : DiagnosticCode;
  diagnosticSource : option jsstring;
  startLine : nat            (* range.start.line *)
}.

Record TextDocument := mkDocument {
  fsPath : jsstring;         (* uri.fsPath *)
  documentLines : list jsstring
}.

Definition isMissingIncludeDiagnostic (diagnostic : Diagnostic) : bool :=
  match diagnosticCode diagnostic with
  | CodeNumber n => negb (Z.eqb n 0) && Z.eqb n 1696
  | _ => false
  end
  && match diagnosticSource diagnostic with
     | Some s => negb (Nat.eqb (List.length s) 0) && string_eqb s (lit "cpptools")
     | None => false
     end.

Definition is_open (c : char) : bool := N.eqb c less_than || N.eqb c dquote.
Definition is_close (c : char) : bool := N.eqb c greater_than || N.eqb c dquote.

(** The pattern  #include \s* [OPEN] ( [^CLOSE]* ) [CLOSE]  where OPEN is the
    class of the less-than sign and the double quote and CLOSE the class
    of the greater-than sign and the double quote; its one group is named
    includeFile. *)
Definition includeRegex : regex :=
  Concat [ Literal (lit "#include"); Star (CharSet is_space); CharSet is_open;
           Group 1 (Star (CharSet (fun c => negb (is_close c))));
           CharSet is_close ].

(** An element of the array of ports: the name of a port, or the value
    of a property that the database object inherits (see [inherited]
    below), given by the name of the property and the text that the value
    is printed as. *)
Inductive Item :=
| PortName (port : jsstring)
| InheritedValue (property printed : jsstring).

(** [a === b] on such elements: strings are compared by their characters,
    inherited values by identity. *)
Definition item_eqb (a b : Item) : bool :=
  match a, b with
  | PortName p, PortName q => string_eqb p q
  | InheritedValue p s, InheritedValue q t => string_eqb p q && string_eqb s t
  | _, _ => false
  end.

(** The text of an element in a template literal and in [toString]. *)
Definition item_text (it : Item) : jsstring :=
  match it with
  | PortName port => port
  | InheritedValue _ printed => printed
  end.

(** How the promise of a lookup settles: rejected with the TypeError that
    is thrown, or resolved with the ports of the header, or resolved with
    an inherited value, which is no array. *)
Inductive Lookup :=
| Throws
| Ports (ports : list jsstring)
| NotAnArray (property printed : jsstring).

Section Database.

(** What [vcpkgDbPromise] resolves with: undefined before the database is
    asked for, or the database, a plain object whose own properties give
    the ports of a header. *)
Variable vcpkgDb : option (jsstring -> option (list jsstring)).

(** The properties that every plain object inherits from its prototype
    (constructor, toString and the like), each with the text its value is
    printed as.  Their values are functions or objects: they count as
    true, they are no arrays, and the values of two names are taken to be
    two objects. *)
Variable inherited : jsstring -> option jsstring.

(** [vcpkgDb[missingHeader]], and what the return statement makes of it:
    an own property hides an inherited one, and undefined gives no
    ports. *)
Definition portsWithHeader (missingHeader : jsstring) : Lookup :=
  match vcpkgDb with
  | Some db =>
      match db missingHeader with
      | Some ps => Ports ps
      | None =>
          match inherited missingHeader with
          | Some printed => NotAnArray missingHeader printed
          | None => Ports []
          end
      end
  | None => Ports []
  end.

Definition lookupIncludeInVcpkg (document : TextDocument) (line : nat) : Lookup :=
  match nth_error (documentLines document) line with
  | None => Throws                       (* lineAt throws *)
  | Some text =>
      match String_match includeRegex text with
      | None => Throws                   (* the length of null is read *)
      | Some groups =>
          (* the array of a match is never empty *)
          let missingHeader :=
            String_replace_string [slash] [backslash]
                                  (or_empty (lookup_capture 1 groups)) in
          portsWithHeader missingHeader
      end
  end.

(** What [onVcpkgClipboardInstallSuggested] ends with. *)
Inductive Outcome :=
| NothingCopied                          (* an early return *)
| Rejected                               (* a lookup has thrown *)
| Copied (telemetry : list (jsstring * jsstring)) (installCommand : jsstring).

(** What [concat] adds for the result of one lookup: the elements of an
    array, or the value itself when it is no array. *)
Definition items_of (l : Lookup) : list Item :=
  match l with
  | Throws => []
  | Ports ps => map PortName ps
  | NotAnArray property printed => [InheritedValue property printed]
  end.

(** [Promise.all] followed by the concatenation of the results. *)
Fixpoint all_ports (lookups : list Lookup) : option (list Item) :=
  match lookups with
  | [] => Some []
  | Throws :: _ => None
  | l :: rest =>
      match all_ports rest with
      | Some qs => Some (items_of l ++ qs)
      | None => None
      end
  end.

(** [ports.toString()] for the texts of the elements *)
Fixpoint Array_toString (xs : list jsstring) : jsstring :=
  match xs with
  | [] => []
  | x :: xs' =>
      match xs' with
      | [] => x
      | _ :: _ => x ++ lit "," ++ Array_toString xs'
      end
  end.

Definition copy_command (source : jsstring) (ports : list Item) : Outcome :=
  let installCommand :=
    fold_left (fun cmd port => cmd ++ (lit " " ++ item_text port)) ports
              (lit "vcpkg install") in
  Copied [(lit "source", source);
          (lit "action", lit "vcpkgClipboardInstallSuggested");
          (lit "ports", Array_toString (map item_text ports))]
         installCommand.

(** The open documents with the lines of their missing-include
    diagnostics, as the first loop of [onVcpkgClipboardInstallSuggested]
    collects them.  [diagnostics] is what
    [vscode.languages.getDiagnostics()] returns, each resource given by its
    file-system path, and [textDocuments] the open documents. *)
Definition missingIncludeLocations
           (diagnostics : list (jsstring * list Diagnostic))
           (textDocuments : list TextDocument) : list (TextDocument * list nat) :=
  flat_map
    (fun uriAndDiagnostics =>
       match find (fun doc => string_eqb (fsPath doc) (fst uriAndDiagnostics))
                  textDocuments with
       | None => []
       | Some textDocument =>
           let lines :=
             map startLine
                 (filter isMissingIncludeDiagnostic (snd uriAndDiagnostics)) in
           match lines with
           | [] => []
           | _ :: _ => [(textDocument, filter_duplicates Nat.eqb lines)]
           end
       end)
    diagnostics.

Definition onVcpkgClipboardInstallSuggested
           (ports : option (list jsstring))
           (diagnostics : list (jsstring * list Diagnostic))
           (textDocuments : list TextDocument) : Outcome :=
  match ports with
  | Some (p :: ps) => copy_command (lit "CodeAction") (map PortName (p :: ps))
  | _ =>
      let missingIncludeLocations :=
        missingIncludeLocations diagnostics textDocuments in
      match missingIncludeLocations with
      | [] => NothingCopied
      | _ :: _ =>
          let portsPromises :=
            flat_map (fun docAndLineNumbers =>
                        map (lookupIncludeInVcpkg (fst docAndLineNumbers))
                            (snd docAndLineNumbers))
                     missingIncludeLocations in
          match all_ports portsPromises with
          | None => Rejected
          | Some [] => NothingCopied
          | Some (p :: ps) =>
              copy_command (lit "CommandPalette")
                           (filter_duplicates item_eqb (p :: ps))
          end
      end
  end.

End Database.

End Vcpkg.

Import Vcpkg.

(* ===================================================================== *)
(** * The tasks that build the active file *)
(* ===================================================================== *)

Module BuildTasks.

Unset Implicit Arguments.

(** [s.trim()] *)
Definition String_trim (s : jsstring) : jsstring :=
  String_trimRight (drop_while is_space s).

(** The global pattern of two backslashes. *)
Definition doubleBackslashRegex : regex := Literal [backslash; backslash].

Record CompilerPathAndArgs := mkCompilerPathAndArgs {
  compilerPath : option jsstring;          (* a string, null or undefined *)
  compilerName : jsstring;
  additionalArgs : option (list jsstring)
}.

Record KnownCompiler := mkKnownCompiler {
  knownPath : jsstring;                    (* the field path *)
  isC : bool
}.

(** What the active client answers. *)
Record Client := mkClient {
  getCurrentCompilerPathAndArgs : CompilerPathAndArgs;
  getKnownCompilers : option (list KnownCompiler)
}.

(** [getActiveClient()] returns the client or throws. *)
Inductive ActiveClient :=
| ClientThrows (e : option Error)
| ClientIs (client : Client).

Record TaskDefinition := mkTaskDefinition {
  taskType : jsstring;
  label : jsstring;
  command : jsstring;
  args : list jsstring;
  options : option jsstring;               (* the cwd of the options, if any *)
  definitionCompilerPath : option jsstring
}.

(** A task, without the workspace folder it is made for. *)
Record Task := mkTask {
  definition : TaskDefinition;
  taskName : jsstring;
  taskSource : jsstring;
  executionCommand : jsstring;             (* of the ShellExecution *)
  executionArgs : list jsstring;
  executionCwd : jsstring;
  problemMatcher : jsstring;
  isBuildGroup : bool
}.

Inductive TaskLog :=
| TaskConsoleError (msg : jsstring)
| TaskTelemetry (event : jsstring).

Definition taskSourceStr : jsstring := lit "C/C++".
Definition intelliSenseDisabledError : jsstring :=
  lit "Do not activate the extension when IntelliSense is disabled.".

(** [s] is a string that counts as true: it is not empty. *)
Definition truthy (s : jsstring) : bool := negb (Nat.eqb (List.length s) 0).

Section Host.

(** The functions of Node's path module for the platform, and the case
    mapping of strings. *)
Variable path_extname : jsstring -> jsstring.
Variable path_basename : jsstring -> jsstring.
Variable path_dirname : jsstring -> jsstring.
Variable path_join : jsstring -> jsstring -> jsstring.
Variable toLowerCase : jsstring -> jsstring.

(** [os.platform() === 'win32'] *)
Variable isWindows : bool.

Definition createTask (returnCompilerPath : bool) (compilerPath : jsstring)
           (compilerArgs : option (list jsstring)) : Task :=
  let filePath := path_join (lit "${fileDirname}") (lit "${fileBasenameNoExtension}") in
  let compilerPathBase := path_basename compilerPath in
  let taskName := compilerPathBase ++ lit " build active file" in
  let isCl := string_eqb compilerPathBase (lit "cl.exe") in
  let cwd := if isCl then [] else path_dirname compilerPath in
  let args :=
    if isCl then [lit "/Zi"; lit "/EHsc"; lit "/Fe:"; filePath ++ lit ".exe"; lit "${file}"]
    else [lit "-g"; lit "${file}"; lit "-o";
          filePath ++ (if isWindows then lit ".exe" else [])] in
  let args :=
    match compilerArgs with
    | Some (a :: more) => args ++ (a :: more)
    | _ => args
    end in
  let kind :=
    mkTaskDefinition (lit "shell") taskName
                     (if isCl then compilerPathBase else compilerPath)
                     args
                     (if isCl then None else Some cwd)
                     (if returnCompilerPath
                      then Some (if isCl then compilerPathBase else compilerPath)
                      else None) in
  mkTask kind taskName taskSourceStr compilerPath args cwd (lit "$gcc") true.

(** [getBuildTasks]; [fileName] is the file name of the document of the
    active editor, if there is one. *)
Definition getBuildTasks (returnCompilerPath : bool) (fileName : option jsstring)
           (activeClient : ActiveClient) : list Task * list TaskLog :=
  match fileName with
  | None => ([], [])
  | Some fileName =>
      let fileExt := path_extname fileName in
      if negb (truthy fileExt) then ([], [])
      else
        let fileExtLower := toLowerCase fileExt in
        let isHeader :=
          negb (truthy fileExt)
          || existsb (fun ext => string_eqb fileExtLower ext)
                     [lit ".hpp"; lit ".hh"; lit ".hxx"; lit ".h"; lit ".inl"; []] in
        if isHeader then ([], [])
        else
          let '(fileIsCpp, fileIsC) :=
            if string_eqb fileExt (lit ".C") then (true, true)
            else (existsb (fun ext => string_eqb fileExtLower ext)
                          [lit ".cpp"; lit ".cc"; lit ".cxx"; lit ".mm"; lit ".ino"],
                  string_eqb fileExtLower (lit ".c")) in
          if negb (fileIsCpp || fileIsC) then ([], [])
          else
            match activeClient with
            | ClientThrows e =>
                (if match e with
                    | None => true
                    | Some e => negb (string_eqb (message e) intelliSenseDisabledError)
                    end
                 then ([], [TaskConsoleError (lit "Unknown error calling getActiveClient().")])
                 else ([], []))
            | ClientIs client =>
                let userCompilerPathAndArgs := getCurrentCompilerPathAndArgs client in
                let userCompilerPath := compilerPath userCompilerPathAndArgs in
                let userCompilerPath :=
                  match userCompilerPath with
                  | Some p =>
                      if truthy p && truthy (compilerName userCompilerPathAndArgs) then
                        let p := String_trim p in
                        if isWindows && starts_with [slash] p then None
                        else Some (String_replace_global doubleBackslashRegex
                                                         [backslash] p)
                      else Some p
                  | None => None
                  end in
                let knownCompilerPaths :=
                  match getKnownCompilers client with
                  | Some knownCompilers =>
                      Some (map knownPath
                              (filter
                                 (fun info =>
                                    ((fileIsCpp && negb (isC info))
                                     || (fileIsC && isC info))
                                    && negb (string_eqb
                                               (path_basename (knownPath info))
                                               (compilerName userCompilerPathAndArgs))
                                    && (negb isWindows
                                        || negb (starts_with [slash] (knownPath info))))
                                 knownCompilers))
                  | None => None
                  end in
                match knownCompilerPaths, userCompilerPath with
                | Some knownCompilerPaths, Some (c :: p) =>
                    (map (fun compilerPath => createTask returnCompilerPath compilerPath None)
                         knownCompilerPaths
                     ++ [createTask returnCompilerPath (c :: p)
                                    (additionalArgs userCompilerPathAndArgs)],
                     [])
                | _, _ => ([], [TaskTelemetry (lit "noCompilerFound")])
                end
            end
  end.

End Host.

End BuildTasks.

Import BuildTasks.

(* ===================================================================== *)
(** * Delayed activation *)
(* ===================================================================== *)

Module Activation.

Unset Implicit Arguments.

(** The module variables that steer the activation, and the two stored
    states it reads ([None] when nothing is stored). *)
Record ActivationState := mkActivation {
  realActivationOccurred : bool;
  tempCommands : nat;                        (* the length of the array *)
  activatedPreviously : option bool;         (* workspace state, default false *)
  checkForConflictingExtensions : option bool;  (* global state, default true *)
  providersRegistered : nat                  (* calls of registerTaskProvider *)
}.

(** What the host looks like when a function is called. *)
Record HostView := mkHostView {
  intelliSenseDisabled : bool;       (* intelliSenseEngine === "Disabled" *)
  clangCommandAdapterActive : bool;  (* the conflicting extension is active *)
  configExists : bool;     (* a workspace folder holds c_cpp_properties.json *)
  openLanguages : list jsstring      (* languageId of the open documents *)
}.

Inductive ActivationLog :=
| ActConsoleLog (msg : jsstring)
| ActTelemetry (event : jsstring)
| ActDispose (listeners : nat).      (* the temporary listeners are disposed of *)

(** The result of a call: the state, what was logged, and whether the
    call ended by throwing. *)
Record Result := mkResult {
  after : ActivationState;
  logged : list ActivationLog;
  threw : bool
}.

Definition returned (s : ActivationState) (l : list ActivationLog) : Result :=
  mkResult s l false.

(** [first] and then, unless it threw, [next]. *)
Definition and_then (first : Result) (next : ActivationState -> Result) : Result :=
  if threw first then first
  else let r := next (after first) in
       mkResult (after r) (logged first ++ logged r) (threw r).

Definition set_activatedPreviously (v : bool) (s : ActivationState) : ActivationState :=
  mkActivation (realActivationOccurred s) (tempCommands s) (Some v)
               (checkForConflictingExtensions s) (providersRegistered s).

(** [realActivation], up to the point where the language server is
    started; what follows sets up the clients and the listeners. *)
Definition realActivation (host : HostView) (s : ActivationState) : Result :=
  if intelliSenseDisabled host then mkResult s [] true
  else
    let check := PersistentState_Value true (checkForConflictingExtensions s) in
    returned
      (mkActivation true (tempCommands s) (activatedPreviously s)
                    (if check then Some false else checkForConflictingExtensions s)
                    (providersRegistered s))
      ([ActConsoleLog (lit "activating extension")]
         ++ (if check && clangCommandAdapterActive host
             then [ActTelemetry (lit "conflictingExtension")] else [])
         ++ [ActConsoleLog (lit "starting language server")]).

Definition onActivationEvent (host : HostView) (s : ActivationState) : Result :=
  if Nat.eqb (tempCommands s) 0 then returned s []
  else
    let disposed :=
      mkActivation (realActivationOccurred s) 0 (activatedPreviously s)
                   (checkForConflictingExtensions s) (providersRegistered s) in
    and_then (returned disposed [ActDispose (tempCommands s)]) (fun s =>
    and_then (if negb (realActivationOccurred s) then realActivation host s
              else returned s []) (fun s =>
    returned (set_activatedPreviously true s) [])).

Definition is_c_or_cpp (languageId : jsstring) : bool :=
  string_eqb languageId (lit "cpp") || string_eqb languageId (lit "c").

Definition activate (host : HostView) (activationEventOccurred : bool)
           (s : ActivationState) : Result :=
  if realActivationOccurred s then returned s []
  else
    and_then (if PersistentState_Value false (activatedPreviously s)
              then realActivation host (set_activatedPreviously false s)
              else returned s []) (fun s =>
    let s := if Nat.eqb (tempCommands s) 0
             then mkActivation (realActivationOccurred s) 1 (activatedPreviously s)
                               (checkForConflictingExtensions s) (providersRegistered s)
             else s in
    if activationEventOccurred then onActivationEvent host s
    else
      let s := mkActivation (realActivationOccurred s) (tempCommands s)
                            (activatedPreviously s) (checkForConflictingExtensions s)
                            (S (providersRegistered s)) in
      if configExists host then onActivationEvent host s
      else if existsb is_c_or_cpp (openLanguages host) then onActivationEvent host s
      else returned s []).

Definition onDidOpenTextDocument (host : HostView) (languageId : jsstring)
           (s : ActivationState) : Result :=
  if string_eqb languageId (lit "c") || string_eqb languageId (lit "cpp")
  then onActivationEvent host s
  else returned s [].

(** The start of [getClients] and of [getActiveClient]. *)
Definition getClients (host : HostView) (s : ActivationState) : Result :=
  if negb (realActivationOccurred s) then realActivation host s else returned s [].

(** The calls that reach this state: of the exported functions, of the
    listener for opened documents, and of the commands, which all start
    with [onActivationEvent]. *)
Inductive Call :=
| CallActivate (activationEventOccurred : bool)
| CallOnDidOpenTextDocument (languageId : jsstring)
| CallCommand
| CallGetClients.

Definition call (host : HostView) (c : Call) (s : ActivationState) : Result :=
  match c with
  | CallActivate b => activate host b s
  | CallOnDidOpenTextDocument languageId => onDidOpenTextDocument host languageId s
  | CallCommand => onActivationEvent host s
  | CallGetClients => getClients host s
  end.

(** A session: calls one after the other, each with the host as it is
    then; a call that throws leaves the state it reached. *)
Fixpoint session (calls : list (HostView * Call)) (s : ActivationState)
  : ActivationState * list ActivationLog :=
  match calls with
  | [] => (s, [])
  | (host, c) :: rest =>
      let r := call host c s in
      let (s', l) := session rest (after r) in
      (s', logged r ++ l)
  end.

(** The state when the extension host loads the module. *)
Definition loaded (activatedPreviously checkForConflictingExtensions : option bool)
  : ActivationState :=
  mkActivation false 0 activatedPreviously checkForConflictingExtensions 0.

End Activation.

Import Activation.

(* ##################################################################### *)
(** * Part II: the vocabulary of the properties *)
(* ##################################################################### *)

(* ===================================================================== *)
(** * What the patterns match, without backtracking *)
(* ===================================================================== *)

Module Scan.

Unset Implicit Arguments.

(** What follows the longest prefix does not start with a [p] character. *)
Definition stops (p : char -> bool) (r : jsstring) : Prop :=
  match r with [] => True | c :: _ => p c = false end.

(** After the equals sign: blanks, the value up to the first line
    terminator, and nothing but blanks after it. *)
Definition scan_value (s : jsstring) : option jsstring :=
  let (v, t) := span is_dot (snd (span is_space s)) in
  if forallb is_space t then Some v else None.

(** After the key: blanks, the equals sign, and the value. *)
Definition scan_assign (s : jsstring) : option jsstring :=
  match snd (span is_space s) with
  | c :: r => if N.eqb equals c then scan_value r else None
  | [] => None
  end.

Definition scan_line (line : jsstring) : option (jsstring * jsstring) :=
  let (key, r) := span is_key_char (snd (span is_space line)) in
  match key with
  | [] => None
  | _ :: _ => option_map (fun v => (key, v)) (scan_assign r)
  end.

(** A line the parser skips silently: blanks only, or blanks and a hash. *)
Definition scan_comment (line : jsstring) : bool :=
  match snd (span is_space line) with
  | [] => true
  | c :: _ => N.eqb hash c
  end.

(** The captures after the optional group 2: bound when it matched a
    non-empty value, left undefined otherwise. *)
Definition with_value (v : jsstring) (cs : list (nat * jsstring)) :=
  match v with [] => cs | _ :: _ => (2, v) :: cs end.

Definition tailR : regex := Seq (Star (CharSet is_space)) AssertEnd.
Definition valueR : regex := Seq (Opt (Group 2 (Star (CharSet is_dot)))) tailR.
Definition afterEqR : regex := Seq (Star (CharSet is_space)) valueR.
Definition assignR : regex := Seq (Star (CharSet is_space)) (Seq (Lit equals) afterEqR).
Definition keyR : regex := Seq (Group 1 (Plus (CharSet is_key_char))) assignR.

(** No capture is bound to group 2 yet. *)
Definition clean (cs : list (nat * jsstring)) : Prop :=
  forall e s, clear_captures [2] (mkState e s cs) = mkState e s cs.

(** Every backslash followed by the letter n becomes a line feed; the scan
    goes on after the replaced pair. *)
Fixpoint unescape_newlines (s : jsstring) : jsstring :=
  match s with
  | [] => []
  | a :: s' =>
      match s' with
      | [] => [a]
      | b :: s'' =>
          if N.eqb backslash a && N.eqb letter_n b
          then LF :: unescape_newlines s''
          else a :: unescape_newlines s'
      end
  end.

(** The last character is dropped when it is a quote. *)
Fixpoint drop_final_quote (s : jsstring) : jsstring :=
  match s with
  | [] => []
  | c :: s' =>
      match s' with
      | [] => if is_quote c then [] else [c]
      | _ :: _ => c :: drop_final_quote s'
      end
  end.

(** A quote at the very start and a quote at the very end are dropped. *)
Definition strip_quotes (s : jsstring) : jsstring :=
  match s with
  | [] => []
  | c :: s' => if is_quote c then drop_final_quote s' else c :: drop_final_quote s'
  end.

End Scan.

Import Scan.

(* ===================================================================== *)
(** * The parts of a parse result *)
(* ===================================================================== *)

Module Parsed.

Unset Implicit Arguments.

(** The assignment a line makes, if it matches the line pattern. *)
Definition line_assignment (line : jsstring) : option (jsstring * jsstring) :=
  match String_match lineRegex line with
  | Some r => Some (or_empty (lookup_capture 1 r),
                    process_value (or_empty (lookup_capture 2 r)))
  | None => None
  end.

(** A line that ends up in the warning. *)
Definition unparseable (line : jsstring) : bool :=
  match String_match lineRegex line with
  | Some _ => false
  | None => negb (RegExp_test comments line)
  end.

Definition assignments (lines : list jsstring) : list (jsstring * jsstring) :=
  flat_map (fun l => match line_assignment l with Some kv => [kv] | None => [] end) lines.

Definition set_all (assigns : list (jsstring * jsstring)) (m : JSMap) : JSMap :=
  fold_left (fun env kv => Map_set (fst kv) (snd kv) env) assigns m.

Definition baseline (initialEnv : option (list Environment)) : list (jsstring * jsstring) :=
  match initialEnv with
  | Some es => map (fun e => (name e, value e)) es
  | None => []
  end.

(** The list of quoted lines: comma and blank between them, a period at
    the end. *)
Fixpoint quoted_list (errs : list jsstring) : jsstring :=
  match errs with
  | [] => []
  | e :: errs' =>
      [dquote] ++ e ++ [dquote]
      ++ match errs' with
         | [] => lit "."
         | _ :: _ => lit ", " ++ quoted_list errs'
         end
  end.

Definition warning_prefix
           (localize : jsstring -> jsstring -> list jsstring -> jsstring)
           (envFile : jsstring) : jsstring :=
  localize (lit "ignoring.lines.in.envfile")
           (lit "Ignoring non-parseable lines in {0} {1}: ")
           [lit "envFile"; envFile].

End Parsed.

Import Parsed.

(* ===================================================================== *)
(** * The line grammar of the specification *)
(* ===================================================================== *)

Module LineGrammar.

Unset Implicit Arguments.

Definition blanks (s : jsstring) : Prop := forallb is_space s = true.

(** The line grammar in the words of the specification: whitespace* key
    whitespace* = whitespace* value? whitespace*, where the key is one or
    more word characters, dots or hyphens and the value is the remainder of
    the line, whatever it holds. *)
Definition KeyValueLine (line : jsstring) : Prop :=
  exists ws1 key ws2 ws3 v ws4,
    line = ws1 ++ key ++ ws2 ++ [equals] ++ ws3 ++ v ++ ws4
    /\ blanks ws1 /\ blanks ws2 /\ blanks ws3 /\ blanks ws4
    /\ key <> [] /\ forallb is_key_char key = true.

(** The same shape with a value that stays on one line: the value holds no
    line terminator, that is no carriage return, U+2028 or U+2029 (and no
    line feed).  These are the lines that the pattern of the code matches,
    see [scan_line_grammar]; a line of the text, which is cut at the line
    feeds only, can still hold the three other terminators. *)
Definition OneLineKeyValue (line : jsstring) : Prop :=
  exists ws1 key ws2 ws3 v ws4,
    line = ws1 ++ key ++ ws2 ++ [equals] ++ ws3 ++ v ++ ws4
    /\ blanks ws1 /\ blanks ws2 /\ blanks ws3 /\ blanks ws4
    /\ key <> [] /\ forallb is_key_char key = true
    /\ forallb is_dot v = true.

Definition BlankLine (line : jsstring) : Prop := blanks line.

(** Optional whitespace followed by a hash. *)
Definition CommentLine (line : jsstring) : Prop :=
  exists ws rest, line = ws ++ hash :: rest /\ blanks ws.

End LineGrammar.

Import LineGrammar.

(* ===================================================================== *)
(** * First-seen order and last value *)
(* ===================================================================== *)

Module Ordered.

Unset Implicit Arguments.

(** The names in the order in which they are first seen. *)
Fixpoint first_seen (ks : list jsstring) : list jsstring :=
  match ks with
  | [] => []
  | k :: ks' => k :: filter (fun k' => negb (string_eqb k k')) (first_seen ks')
  end.

(** The value of the last assignment to a name. *)
Fixpoint last_value (k : jsstring) (assigns : list (jsstring * jsstring))
  : option jsstring :=
  match assigns with
  | [] => None
  | (k', v) :: rest =>
      match last_value k rest with
      | Some v' => Some v'
      | None => if string_eqb k' k then Some v else None
      end
  end.

Definition mem (k : jsstring) (ks : list jsstring) : bool := existsb (string_eqb k) ks.

End Ordered.

Import Ordered.

(* ===================================================================== *)
(** * The value processing, in the words of the specification *)
(* ===================================================================== *)

Module ValueSpec.

Unset Implicit Arguments.

Definition localize_t := jsstring -> jsstring -> list jsstring -> jsstring.

(** Wrapped in a matching pair of double quotes. *)
Definition wrapped_in_double_quotes (v : jsstring) : bool :=
  match v with
  | [] => false
  | c :: rest =>
      N.eqb c dquote
      && match last_char rest with Some l => N.eqb l dquote | None => false end
  end.

Definition strip_leading_quote (s : jsstring) : jsstring :=
  match s with
  | [] => []
  | c :: s' => if is_quote c then s' else s
  end.

Definition strip_trailing_quote (s : jsstring) : jsstring :=
  rev (strip_leading_quote (rev s)).

Definition spec_process_value (v : jsstring) : jsstring :=
  strip_trailing_quote
    (strip_leading_quote
       (if wrapped_in_double_quotes v then unescape_newlines v else v)).

(** A backslash directly followed by the letter n occurs in the string. *)
Fixpoint has_escaped_newline (s : jsstring) : bool :=
  match s with
  | [] => false
  | a :: s' =>
      match s' with
      | [] => false
      | b :: _ => (N.eqb backslash a && N.eqb letter_n b) || has_escaped_newline s'
      end
  end.

End ValueSpec.

Import ValueSpec.

(* ===================================================================== *)
(** * Formatting entries as KEY=VALUE lines *)
(* ===================================================================== *)

Module Format.

Unset Implicit Arguments.

Definition not_LF (c : char) : bool := negb (N.eqb c LF).

(** Every line feed written as a backslash followed by the letter n. *)
Definition escape_newlines (v : jsstring) : jsstring :=
  flat_map (fun c => if N.eqb c LF then [backslash; letter_n] else [c]) v.

(** Modelled from the spec: the repository has no function that writes
    entries back to a file; the specification formats the emitted entries
    as KEY=VALUE lines, up to quoting, and parses them again.  The value is
    written between quotes, which the parser takes off: between single
    quotes when it holds no line feed, and otherwise between double quotes
    with every line feed written as a backslash followed by n. *)
Definition quote_value (v : jsstring) : jsstring :=
  if forallb not_LF v then [squote] ++ v ++ [squote]
  else [dquote] ++ escape_newlines v ++ [dquote].

(** Modelled from the spec: an entry formatted back as a KEY=VALUE line,
    the value between quotes. *)
Definition format_entry (e : Environment) : jsstring :=
  name e ++ [equals] ++ quote_value (value e).

Fixpoint join_lines (ls : list jsstring) : jsstring :=
  match ls with
  | [] => []
  | l :: ls' =>
      match ls' with
      | [] => l
      | _ :: _ => l ++ [LF] ++ join_lines ls'
      end
  end.

(** Modelled from the spec: the text of an entry list, one line per
    entry, the lines joined by line feeds. *)
Definition format_env (es : list Environment) : jsstring :=
  join_lines (map format_entry es).

Definition valid_key (k : jsstring) : Prop :=
  k <> [] /\ forallb is_key_char k = true.

(** What a value read from a file is made of: no line terminator but the
    line feeds that the unescaping puts in. *)
Definition value_char (c : char) : bool := is_dot c || N.eqb c LF.

(** An entry as the parser emits it from a file: a key of the grammar and
    a value of such characters; a value that holds a line feed has been
    unescaped, so no backslash in it is followed by the letter n. *)
Definition good_entry (kv : jsstring * jsstring) : Prop :=
  valid_key (fst kv) /\ forallb value_char (snd kv) = true
  /\ (forallb not_LF (snd kv) = true \/ has_escaped_newline (snd kv) = false).

Definition format_pair (kv : jsstring * jsstring) : jsstring :=
  fst kv ++ [equals] ++ quote_value (snd kv).

Definition entry_of (kv : jsstring * jsstring) : Environment :=
  mkEnv (fst kv) (snd kv).

End Format.

Import Format.

(* ===================================================================== *)
(** * Reading the events of an update cycle *)
(* ===================================================================== *)

Module Cycle.

Unset Implicit Arguments.

(** The world after an await, and after a call of [config.update]. *)
Definition after_await (w : World) : World := snd (fst (await_host w)).

Definition after_update (latency : nat) (v : option jsstring) (w : World) : World :=
  snd (fst (config_update latency v w)).

(** The user value written at once. *)
Definition set_global (v : option jsstring) (w : World) : World :=
  with_config (config_update_global v (config w)) (pendingWrites w) w.

(** Two worlds that differ in the setting and its pending writes only. *)
Definition same_session (w w' : World) : Prop :=
  insiderUpdateTimer w' = insiderUpdateTimer w /\ timers w' = timers w
  /\ nextHandle w' = nextHandle w /\ buildInfoCache w' = buildInfoCache w.

(** What the loop around the download does to the outside. *)
Definition loop_event (url : jsstring) (e : Event) : Prop :=
  (exists n ok, e = EvDownload url n ok) \/ (exists v, e = EvConfigUpdate v)
  \/ e = EvTelemetry (lit "installVsix")
                     [(lit "error", VString (lit "Success with proxySupport off"));
                      (lit "success", VString (lit "true"))].

(** The fallback can be tried: the setting in effect is not off and the
    user value was not off. *)
Definition fallback_available (w : World) : bool :=
  negb (string_eqb (config_get (config w)) off)
  && differs (globalValue (config w)) (Some off).

Definition proxyOffSuccess : Event :=
  EvTelemetry (lit "installVsix")
              [(lit "error", VString (lit "Success with proxySupport off"));
               (lit "success", VString (lit "true"))].

(** The message of an error, when it is a string. *)
Definition string_message (error : Value) : option jsstring :=
  match read_message error with
  | Some (VString msg) => Some msg
  | _ => None
  end.

Definition scrub (msg : jsstring) : jsstring :=
  if has_path_separator msg then lit "Potential PII hidden" else msg.

Definition failure_telemetry (msg : jsstring) : Event :=
  EvTelemetry (lit "installVsix")
              [(lit "error", VString (scrub msg)); (lit "success", VString (lit "false"))].

(** What the catch handler of [applyUpdate] does with an error whose
    message is the string [msg]. *)
Definition catch_events (msg : jsstring) : list Event :=
  [EvConsoleError (cppInstallVsixStr ++ msg); failure_telemetry msg].

(** What the catch handler does with any value, and how the promise that
    [catch] returns is settled. *)
Definition catch_trace (error : Value) : list Event :=
  match read_message error with
  | None => []
  | Some m =>
      EvConsoleError (cppInstallVsixStr ++ ToString m)
      :: match m with VString msg => [failure_telemetry msg] | _ => [] end
  end.

Definition catch_result (ext : Externals) (error : Value) : Settlement :=
  match read_message error with
  | None => RejectedWith (typeError ext (lit "message"))
  | Some (VString _) => Fulfilled
  | Some _ => RejectedWith (typeError ext (lit "indexOf"))
  end.

Definition success_events (b : BuildInfo) : list Event :=
  [EvPromptReload
     (lit "The C/C++ Extension has been updated to version " ++ buildName b
      ++ lit ". Please reload the window for the changes to take effect.");
   EvTelemetry (lit "installVsix") [(lit "success", VString (lit "true"))];
   EvResolve].

Definition clear_timer (w : World) : World := snd (fst (clearInterval_insider w)).

Definition is_download (e : Event) : bool :=
  match e with EvDownload _ _ _ => true | _ => false end.

Definition is_config_update (e : Event) : bool :=
  match e with EvConfigUpdate _ => true | _ => false end.

(** The code asks for the setting to be changed to off. *)
Definition is_fallback_change (e : Event) : bool :=
  match e with EvConfigUpdate (Some v) => string_eqb v off | _ => false end.

(** The promise of the cycle is settled: the outcome is reported. *)
Definition is_report (e : Event) : bool :=
  match e with EvResolve | EvReject _ => true | _ => false end.

Fixpoint until_report (tr : list Event) : list Event :=
  match tr with
  | [] => []
  | e :: tr' => if is_report e then [] else e :: until_report tr'
  end.

Fixpoint from_report (tr : list Event) : list Event :=
  match tr with
  | [] => []
  | e :: tr' => if is_report e then tr else from_report tr'
  end.

(** The setting after the changes recorded in the events, when each is
    carried out at once. *)
Definition replay (tr : list Event) (c : Config) : Config :=
  fold_left (fun c e => match e with
                        | EvConfigUpdate v => config_update_global v c
                        | _ => c
                        end) tr c.

(** The host has carried out every write that was pending. *)
Fixpoint written (q : list PendingWrite) (c : Config) : Config :=
  match q with
  | [] => c
  | (_, v) :: q' => written q' (config_update_global v c)
  end.

(** Every write of the queue is a write of off. *)
Definition writes_off (q : list PendingWrite) : Prop :=
  Forall (fun wv => snd wv = Some off) q.

(** The host is heading for the user value off: the writes it has to do
    first end with a write of off, or the value is off already. *)
Definition heading_off (q : list PendingWrite) (c : Config) : Prop :=
  match q with
  | [] => globalValue c = Some off
  | _ :: _ => snd (last q (0, None)) = Some off
  end.

(** A bound on the awaits after which the host has done the writes. *)
Definition urgency (q : list PendingWrite) : nat := waiting q + List.length q.

(** A host that writes a setting at once: no write is pending and none
    takes an await. *)
Definition prompt (ext : Externals) (w : World) : Prop :=
  pendingWrites w = [] /\ forall n, writeLatency ext n = 0.

(** The TypeError of the examples, with the message of V8. *)
Definition example_typeError (property : jsstring) : Value :=
  mkError (lit "Cannot read property '" ++ property ++ lit "' of undefined").

(** The outside of the examples, on a host that writes settings at once,
    and on one that takes two awaits for a write. *)
Definition prompt_host (tmpFile : option jsstring) (download : nat -> bool)
           (installOutcome : Settlement) (feed : option jsstring -> FeedResult)
  : Externals :=
  mkExternals tmpFile download installOutcome feed (fun _ => 0) example_typeError.

Definition slow_host (tmpFile : option jsstring) (download : nat -> bool)
           (installOutcome : Settlement) (feed : option jsstring -> FeedResult)
  : Externals :=
  mkExternals tmpFile download installOutcome feed (fun _ => 2) example_typeError.

Definition example_externals : Externals :=
  prompt_host (Some (lit "/tmp/cpptools.vsix")) (fun n => Nat.eqb n 1) Fulfilled
              (fun _ => FeedNothing).

Definition example_world : World :=
  mkWorld (mkConfig (lit "override") None None) [] (Some 0)
          [mkTimer 0 insiderUpdateTimerInterval [Insiders]] 1 None.

Definition example_build : BuildInfo := mkBuildInfo (lit "0.27.0-insiders") (lit "u").

Definition feed_failure (m : Value) : Event :=
  EvTelemetry (lit "installVsix")
              [(lit "error", m); (lit "success", VString (lit "false"))].

Definition without_cache (w : World) : World :=
  mkWorld (config w) (pendingWrites w) (insiderUpdateTimer w) (timers w) (nextHandle w)
          None.

End Cycle.

Import Cycle.

(* ===================================================================== *)
(** * Reading the events of an install process *)
(* ===================================================================== *)

Module Process.

Unset Implicit Arguments.

Definition is_exit (ev : ProcEvent) : bool :=
  match ev with Exit _ => true | _ => false end.

Definition is_stdout (ev : ProcEvent) : bool :=
  match ev with StdoutData => true | _ => false end.

Definition is_timeout (ev : ProcEvent) : bool :=
  match ev with Timeout30s => true | _ => false end.

(** The code of the first exit event. *)
Fixpoint first_exit (evs : list ProcEvent) : option ExitCode :=
  match evs with
  | [] => None
  | Exit code :: _ => Some code
  | _ :: evs' => first_exit evs'
  end.

Definition has_stdout (evs : list ProcEvent) : bool := existsb is_stdout evs.

(** The events all happen before the 30 seconds are over. *)
Definition before_deadline (evs : list ProcEvent) : Prop :=
  forallb (fun ev => negb (is_timeout ev)) evs = true.

(** The state is settled, or its timeout is still pending. *)
Definition bounded (st : InstallState) : Prop :=
  match variant st with
  | ViaHostCommand => False
  | NoProcess => promise st <> Pending
  | ViaExitCode | ViaStdout => promise st = Pending -> timerArmed st = true
  end.

Definition example_input (v : SemVer) : InstallInput SemVer :=
  mkInput v Fulfilled (Some (lit "/usr/bin/code")) Spawned.

End Process.

Import Process.

(* ===================================================================== *)
(** * Line endings *)
(* ===================================================================== *)

Module Endings.

Unset Implicit Arguments.

(** The same text with a carriage return before every line feed. *)
Definition to_crlf (s : jsstring) : jsstring :=
  flat_map (fun c => if N.eqb c LF then [CR; LF] else [c]) s.

(** A carriage return at the end of every line but the last. *)
Fixpoint with_cr (ls : list jsstring) : list jsstring :=
  match ls with
  | [] => []
  | l :: ls' =>
      match ls' with
      | [] => [l]
      | _ :: _ => (l ++ [CR]) :: with_cr ls'
      end
  end.

(** Two lines that the parser treats alike. *)
Definition alike (a b : jsstring) : Prop :=
  line_assignment a = line_assignment b /\ unparseable a = unparseable b.

End Endings.

Import Endings.

(* ===================================================================== *)
(** * Sequences of settings changes, and what precedes an install *)
(* ===================================================================== *)

Module Channels.

Unset Implicit Arguments.

Definition is_channel (ch : jsstring) : Prop := ch = Default \/ ch = Insiders.

(** The polling timer runs, and it is the one the module variable names. *)
Definition polling (w : World) : Prop :=
  exists t, timers w = [t] /\ insiderUpdateTimer w = Some (Update.handle t).

Definition is_install (e : Event) : bool :=
  match e with EvInstall _ => true | _ => false end.

Definition is_good_download (url : jsstring) (e : Event) : bool :=
  match e with EvDownload u _ ok => string_eqb u url && ok | _ => false end.

(** The events before the first call of [installVsix]. *)
Fixpoint until_install (tr : list Event) : list Event :=
  match tr with
  | [] => []
  | e :: tr' => if is_install e then [] else e :: until_install tr'
  end.

(** ** A session after activation *)

(** What happens after activation: the update channel of the settings is
    changed, or an update cycle comes to its end.  A cycle touches the
    timers at one place only, the [clearInterval] before it reports the
    install, and reads the module variable there; so for the timers a cycle
    counts as one step, taken when it ends, whatever was started or changed
    while it was waiting. *)
Inductive Step :=
| ChannelChange (ch : jsstring)
| UpdateCycle (ext : Externals) (updateChannel : option jsstring).

Definition step (s : Step) : M unit :=
  match s with
  | ChannelChange ch => onDidChangeSettings_updateChannel (Some ch)
  | UpdateCycle ext updateChannel => checkAndApplyUpdate ext updateChannel ;;; ret tt
  end.

Fixpoint steps (ss : list Step) : M unit :=
  match ss with
  | [] => ret tt
  | s :: ss' => step s ;;; steps ss'
  end.

(** The channel after the steps. *)
Fixpoint channel_after (start : jsstring) (ss : list Step) : jsstring :=
  match ss with
  | [] => start
  | ChannelChange ch :: ss' => channel_after ch ss'
  | UpdateCycle _ _ :: ss' => channel_after start ss'
  end.

(** Every change is to the other of the two channels. *)
Fixpoint alternating_steps (prev : jsstring) (ss : list Step) : Prop :=
  match ss with
  | [] => True
  | ChannelChange ch :: ss' => is_channel ch /\ ch <> prev /\ alternating_steps ch ss'
  | UpdateCycle _ _ :: ss' => alternating_steps prev ss'
  end.

(** The handler of a settings change records its call of
    [checkAndApplyUpdate]. *)
Definition is_check (e : Event) : bool :=
  match e with EvCheckAndApplyUpdate _ => true | _ => false end.

(** The cycle reports that the update is installed. *)
Definition is_resolve (e : Event) : bool :=
  match e with EvResolve => true | _ => false end.

(** The events after the last such call: what the cycles have done since
    the channel was last changed. *)
Fixpoint since_last_change (tr : list Event) : list Event :=
  match tr with
  | [] => []
  | e :: tr' =>
      if existsb is_check tr' then since_last_change tr'
      else if is_check e then tr' else e :: tr'
  end.

(** The timers that go with the channel and with what the cycles have done
    since it was last changed: at most the timer that the module variable
    names, none on the Default channel, and on the Insiders channel that
    one until a cycle reports an install. *)
Definition timer_follows (ch : jsstring) (w : World) (tr : list Event) : Prop :=
  (timers w = [] \/ polling w)
  /\ (ch = Default -> timers w = [])
  /\ (ch = Insiders -> (polling w <-> ~ In EvResolve (since_last_change tr))).

End Channels.

Import Channels.

(* ===================================================================== *)
(** * What the listeners of an install process keep *)
(* ===================================================================== *)

Module Listeners.

Unset Implicit Arguments.

(** The line written to the process to confirm a downgrade. *)
Definition confirmation : jsstring := lit "0" ++ [LF].

Definition listeners_inv (st : InstallState) : Prop :=
  (stdin st = [] /\ sentOverride st = false
   \/ stdin st = [confirmation] /\ sentOverride st = true)
  /\ (timerArmed st = true ->
      promise st = Pending \/ promise st = RejectedWith launchError)
  /\ (killed st = true ->
      promise st = RejectedWith timeoutError \/ promise st = RejectedWith launchError)
  /\ (variant st = ViaHostCommand -> timerArmed st = false /\ killed st = false).

End Listeners.

Import Listeners.

(* ===================================================================== *)
(** * Occurrences of a text in a string *)
(* ===================================================================== *)

Module Occurrences.

Unset Implicit Arguments.

Definition occurs (needle s : jsstring) : Prop :=
  exists a b, s = a ++ needle ++ b.

(** The text that [handleCrashFileRead] logs for a file that was read. *)
Definition crash_report (data : jsstring) : jsstring :=
  match eventProperties (handleCrashFileRead None data) with
  | (_, text) :: _ => text
  | [] => []
  end.

(** The last step of the function: the text is cut to the limit. *)
Definition limited (data : jsstring) : jsstring :=
  if (8192 <? Z.of_nat (List.length data))%Z
  then String_substr data 0 (Some 8189%Z) ++ lit "..."
  else data.

Definition colon : char := 58%N.

(** The lines that are kept. *)
Definition kept (line : jsstring) : bool :=
  negb (String_includes (lit ".dylib") line) && negb (String_includes (lit "???") line).

End Occurrences.

Import Occurrences.

(* ===================================================================== *)
(** * First occurrences *)
(* ===================================================================== *)

Module Firsts.

Unset Implicit Arguments.

(** The elements of [xs] that occur neither in [seen] nor earlier in
    [xs], in their order. *)
Fixpoint keep_new {A} (eqb : A -> A -> bool) (seen xs : list A) : list A :=
  match xs with
  | [] => []
  | x :: xs' =>
      if existsb (eqb x) seen then keep_new eqb (seen ++ [x]) xs'
      else x :: keep_new eqb (seen ++ [x]) xs'
  end.

(** The lines that are looked up: the start lines of the missing-include
    diagnostics of the open documents. *)
Definition located (diagnostics : list (jsstring * list Diagnostic))
           (textDocuments : list TextDocument) (document : TextDocument) (line : nat)
  : Prop :=
  exists uri diags d,
    In (uri, diags) diagnostics
    /\ find (fun doc => string_eqb (fsPath doc) uri) textDocuments = Some document
    /\ In d diags /\ isMissingIncludeDiagnostic d = true /\ startLine d = line.

End Firsts.

Import Firsts.

(* ===================================================================== *)
(** * The tasks that are offered *)
(* ===================================================================== *)

Module Offered.

Unset Implicit Arguments.

(** The tasks that [getBuildTasks] returns. *)
Definition tasks_of (path_extname path_basename path_dirname : jsstring -> jsstring)
           (path_join : jsstring -> jsstring -> jsstring)
           (toLowerCase : jsstring -> jsstring) (isWindows returnCompilerPath : bool)
           (fileName : option jsstring) (activeClient : ActiveClient) : list Task :=
  fst (getBuildTasks path_extname path_basename path_dirname path_join toLowerCase
                     isWindows returnCompilerPath fileName activeClient).

(** Stand-ins for the functions of the host, for the examples: paths
    with slashes, and the case mapping of the ASCII letters. *)
Definition example_basename (s : jsstring) : jsstring :=
  rev (fst (span (fun c => negb (N.eqb c slash)) (rev s))).

Definition example_dirname (s : jsstring) : jsstring :=
  rev (tl (snd (span (fun c => negb (N.eqb c slash)) (rev s)))).

Definition example_extname (s : jsstring) : jsstring :=
  let (a, b) := span (fun c => negb (N.eqb c 46)) (rev (example_basename s)) in
  match b with
  | [] => []
  | dot :: _ => dot :: rev a
  end.

Definition example_join (a b : jsstring) : jsstring := a ++ [slash] ++ b.

Definition example_toLowerCase (s : jsstring) : jsstring :=
  map (fun c => if in_range 65 90 c then (c + 32)%N else c) s.

Definition example_tasks (isWindows : bool) (fileName : jsstring) (client : Client)
  : list Task :=
  tasks_of example_extname example_basename example_dirname example_join
           example_toLowerCase isWindows false (Some fileName) (ClientIs client).

Definition example_client : Client :=
  mkClient (mkCompilerPathAndArgs (Some (lit " /usr/bin/g++ ")) (lit "g++")
                                  (Some [lit "-Wall"]))
           (Some [mkKnownCompiler (lit "/usr/bin/clang++") false;
                  mkKnownCompiler (lit "/usr/bin/gcc") true;
                  mkKnownCompiler (lit "/usr/local/bin/g++") false]).

Definition example_windows_client : Client :=
  mkClient (mkCompilerPathAndArgs (Some (lit "C:/mingw/bin/g++.exe")) (lit "g++.exe") None)
           (Some [mkKnownCompiler (lit "/usr/bin/g++") false;
                  mkKnownCompiler (lit "C:/llvm/bin/clang++.exe") false]).

End Offered.

Import Offered.

(* ===================================================================== *)
(** * Reading the log of a session *)
(* ===================================================================== *)

Module Sessions.

Unset Implicit Arguments.

(** The language server is started. *)
Definition is_start (e : ActivationLog) : bool :=
  match e with
  | ActConsoleLog m => string_eqb m (lit "starting language server")
  | _ => false
  end.

Definition starts (l : list ActivationLog) : nat := List.length (filter is_start l).

(** A call that is no activation event. *)
Definition quiet (c : Call) : bool :=
  match c with
  | CallCommand => false
  | CallOnDidOpenTextDocument languageId =>
      negb (string_eqb languageId (lit "c") || string_eqb languageId (lit "cpp"))
  | CallActivate _ | CallGetClients => true
  end.

(** What one call keeps. *)
Definition step_ok (s : ActivationState) (r : Result) : Prop :=
  (tempCommands s <= 1 -> tempCommands (after r) <= 1)
  /\ (realActivationOccurred s = true ->
      realActivationOccurred (after r) = true /\ starts (logged r) = 0)
  /\ (realActivationOccurred s = false ->
      starts (logged r) = if realActivationOccurred (after r) then 1 else 0).

(** The language server runs and the stored flag has the value [v]. *)
Definition activated_with (v : bool) (s : ActivationState) : Prop :=
  realActivationOccurred s = true /\ activatedPreviously s = Some v.

End Sessions.

Import Sessions.

(* ##################################################################### *)
(** * Part III: the proofs *)
(* ##################################################################### *)

(* ===================================================================== *)
(** * Facts about strings and character classes *)
(* ===================================================================== *)

Module JSFacts.

Lemma span_app p s : fst (span p s) ++ snd (span p s) = s.
Proof.
  induction s as [|c s IH]; simpl; [reflexivity|].
  destruct (p c); [|reflexivity].
  destruct (span p s) as [a b]; simpl in *. now rewrite IH.
Qed.

Lemma span_prefix_all p s : forallb p (fst (span p s)) = true.
Proof.
  induction s as [|c s IH]; simpl; [reflexivity|].
  destruct (p c) eqn:E; [|reflexivity].
  destruct (span p s) as [a b]; simpl in *. now rewrite E.
Qed.

Lemma span_rest_stops p s : stops p (snd (span p s)).
Proof.
  induction s as [|c s IH]; simpl; [exact I|].
  destruct (p c) eqn:E; [|exact E].
  destruct (span p s) as [a b]; simpl in *. exact IH.
Qed.

Lemma span_unique p w r :
  forallb p w = true -> stops p r -> span p (w ++ r) = (w, r).
Proof.
  induction w as [|c w IH]; simpl; intros Hw Hr.
  - destruct r as [|c r]; [reflexivity|]. simpl in *. now rewrite Hr.
  - apply andb_prop in Hw as [Hc Hw]. rewrite Hc, (IH Hw Hr). reflexivity.
Qed.

Lemma span_all p s : forallb p s = true -> span p s = (s, []).
Proof.
  intros H. rewrite <- (app_nil_r s) at 1. now apply span_unique.
Qed.

Lemma key_char_not_space c : is_key_char c = true -> is_space c = false.
Proof.
  unfold is_key_char, is_word, is_space, in_range. intros H.
  repeat match goal with
         | H : _ || _ = true |- _ => apply orb_prop in H; destruct H as [H|H]
         | H : _ && _ = true |- _ => apply andb_prop in H; destruct H as [? ?]
         | H : N.leb _ _ = true |- _ => apply N.leb_le in H
         | H : N.eqb _ _ = true |- _ => apply N.eqb_eq in H
         end;
  repeat match goal with
         | |- _ || _ = false => apply orb_false_intro
         | |- _ && _ = false => apply andb_false_iff
         | |- N.eqb _ _ = false => apply N.eqb_neq; lia
         end;
  try (right; apply N.leb_gt; lia); try (left; apply N.leb_gt; lia).
Qed.

Lemma key_char_not_equals c : is_key_char c = true -> N.eqb equals c = false.
Proof.
  intros H. apply N.eqb_neq. intros <-. vm_compute in H. discriminate.
Qed.

Lemma space_not_equals c : is_space c = true -> N.eqb equals c = false.
Proof.
  intros H. apply N.eqb_neq. intros <-. vm_compute in H. discriminate.
Qed.

Lemma space_not_hash c : is_space c = true -> N.eqb hash c = false.
Proof.
  intros H. apply N.eqb_neq. intros <-. vm_compute in H. discriminate.
Qed.

Lemma space_not_key_char c : is_space c = true -> is_key_char c = false.
Proof.
  intros H. destruct (is_key_char c) eqn:E; [|reflexivity].
  apply key_char_not_space in E. congruence.
Qed.

Lemma line_terminator_is_space c : is_line_terminator c = true -> is_space c = true.
Proof.
  unfold is_line_terminator. intros H.
  repeat (apply orb_prop in H; destruct H as [H|H]);
    apply N.eqb_eq in H; subst c; reflexivity.
Qed.

Lemma string_eqb_eq a b : string_eqb a b = true <-> a = b.
Proof.
  revert b. induction a as [|x a IH]; destruct b as [|y b]; simpl;
    try (split; [discriminate|discriminate]); [tauto|].
  rewrite andb_true_iff, N.eqb_eq, IH. split.
  - intros [-> ->]. reflexivity.
  - intros H. injection H. auto.
Qed.

Lemma string_eqb_refl a : string_eqb a a = true.
Proof. now apply string_eqb_eq. Qed.

Lemma string_eqb_neq a b : string_eqb a b = false <-> a <> b.
Proof.
  rewrite <- string_eqb_eq. destruct (string_eqb a b); split; congruence.
Qed.

End JSFacts.

Import JSFacts.

(* ===================================================================== *)
(** * Facts about the matcher *)
(* ===================================================================== *)

Module RegexFacts.

Lemma clear_no_groups x : clear_captures [] x = x.
Proof.
  destruct x as [e s cs]. unfold clear_captures. simpl. f_equal.
  induction cs as [|kv cs IH]; simpl; [reflexivity|]. now rewrite IH.
Qed.

Lemma CharacterSetMatcher_cons p e a s cs c :
  CharacterSetMatcher p (mkState e (a :: s) cs) c
  = if p a then c (mkState (S e) s cs) else None.
Proof. reflexivity. Qed.

Lemma CharacterSetMatcher_nil p e cs c :
  CharacterSetMatcher p (mkState e [] cs) c = None.
Proof. reflexivity. Qed.

(** A greedy repetition of a character class runs to the end of the longest
    prefix in the class, provided the continuation, when it fails there,
    also fails at every earlier end of the run. *)
Lemma RepeatMatcher_class p c cs r :
  forall w e fuel,
    forallb p w = true -> stops p r -> List.length w < fuel ->
    (c (mkState (e + List.length w) r cs) = None ->
     forall w1 a w2, w = w1 ++ a :: w2 ->
       c (mkState (e + List.length w1) (a :: w2 ++ r) cs) = None) ->
    RepeatMatcher fuel (CharacterSetMatcher p) 0 None [] (mkState e (w ++ r) cs) c
    = c (mkState (e + List.length w) r cs).
Proof.
  induction w as [|a w IH]; intros e fuel Hw Hr Hfuel Hback;
    (destruct fuel as [|fuel]; [simpl in Hfuel; lia|]);
    cbn [RepeatMatcher Nat.eqb negb andb]; rewrite clear_no_groups;
    cbn [app List.length].
  - rewrite Nat.add_0_r. destruct r as [|b r].
    + rewrite CharacterSetMatcher_nil. reflexivity.
    + rewrite CharacterSetMatcher_cons. simpl in Hr. rewrite Hr. reflexivity.
  - simpl in Hw. apply andb_prop in Hw as [Ha Hw].
    rewrite CharacterSetMatcher_cons, Ha. cbn [endIndex].
    replace (Nat.eqb (S e) e) with false by (symmetry; apply Nat.eqb_neq; lia).
    cbn [option_map Nat.pred].
    rewrite (IH (S e) fuel Hw Hr); [|simpl in Hfuel; lia|].
    + replace (S e + List.length w) with (e + S (List.length w)) by lia.
      destruct (c (mkState (e + S (List.length w)) r cs)) eqn:E; [reflexivity|].
      specialize (Hback E [] a w eq_refl). simpl in Hback.
      rewrite Nat.add_0_r in Hback. now rewrite Hback.
    + replace (S e + List.length w) with (e + S (List.length w)) by lia.
      intros E w1 b w2 Heq.
      specialize (Hback E (a :: w1) b w2). simpl in Hback.
      replace (S e + List.length w1) with (e + S (List.length w1)) by lia.
      apply Hback. now rewrite Heq.
Qed.

(** The same for [+]: the first character is mandatory. *)
Lemma RepeatMatcher_class_plus p c cs e s fuel :
  RepeatMatcher (S fuel) (CharacterSetMatcher p) 1 None [] (mkState e s cs) c
  = match s with
    | [] => None
    | a :: s' =>
        if p a
        then RepeatMatcher fuel (CharacterSetMatcher p) 0 None [] (mkState (S e) s' cs) c
        else None
    end.
Proof.
  cbn [RepeatMatcher Nat.eqb negb andb]. rewrite clear_no_groups.
  destruct s as [|a s']; [reflexivity|].
  rewrite CharacterSetMatcher_cons. destruct (p a); reflexivity.
Qed.

Lemma compile_Seq r1 r2 x c :
  compile (Seq r1 r2) x c = compile r1 x (fun y => compile r2 y c).
Proof. reflexivity. Qed.

Lemma compile_Group n r x c :
  compile (Group n r) x c
  = compile r x (fun y =>
      c (set_capture n (firstn (endIndex y - endIndex x) (remaining x)) y)).
Proof. reflexivity. Qed.

Lemma compile_Star_class p x c :
  compile (Star (CharSet p)) x c
  = RepeatMatcher (S (S (List.length (remaining x)))) (CharacterSetMatcher p)
                  0 None [] x c.
Proof. reflexivity. Qed.

Lemma compile_Plus_class p e s cs c :
  compile (Plus (CharSet p)) (mkState e s cs) c
  = match s with
    | [] => None
    | a :: s' =>
        if p a
        then RepeatMatcher (S (S (List.length s))) (CharacterSetMatcher p)
                           0 None [] (mkState (S e) s' cs) c
        else None
    end.
Proof.
  cbn [compile groups_of]. unfold repeat_fuel. cbn [remaining Nat.add].
  apply RepeatMatcher_class_plus.
Qed.

(** [r?]: one iteration of [r] that consumes input, or none. *)
Lemma compile_Opt r x c :
  compile (Opt r) x c
  = match compile r (clear_captures (groups_of r) x)
            (fun y => if Nat.eqb (endIndex y) (endIndex x) then None else c y) with
    | Some z => Some z
    | None => c x
    end.
Proof. reflexivity. Qed.

Lemma compile_Lit a e s cs c :
  compile (Lit a) (mkState e s cs) c
  = match s with
    | [] => None
    | b :: s' => if N.eqb a b then c (mkState (S e) s' cs) else None
    end.
Proof. reflexivity. Qed.

Lemma compile_AssertEnd e s cs c :
  compile AssertEnd (mkState e s cs) c
  = match s with [] => c (mkState e s cs) | _ :: _ => None end.
Proof. reflexivity. Qed.

Lemma compile_AssertStart s cs c :
  compile AssertStart (mkState 0 s cs) c = c (mkState 0 s cs).
Proof. reflexivity. Qed.

Lemma compile_Disj r1 r2 x c :
  compile (Disj r1 r2) x c
  = match compile r1 x c with Some z => Some z | None => compile r2 x c end.
Proof. reflexivity. Qed.

(** A pattern that starts with [^] can only match at index 0. *)
Lemma exec_anchored r s :
  exec_from (Seq AssertStart r) 0 s = match_at (Seq AssertStart r) 0 s.
Proof.
  assert (H : forall s idx, exec_from (Seq AssertStart r) (S idx) s = None).
  { clear s. induction s as [|c s IH]; intros idx; simpl; unfold match_at; simpl.
    - reflexivity.
    - apply IH. }
  destruct s as [|c s]; simpl.
  - destruct (match_at _ 0 []); reflexivity.
  - destruct (match_at _ 0 (c :: s)); [reflexivity|apply H].
Qed.

End RegexFacts.

Import RegexFacts.

(* ===================================================================== *)
(** * What the patterns of the parser match *)
(* ===================================================================== *)

Module Patterns.

Lemma lineRegex_unfold : lineRegex = Seq AssertStart (Seq (Star (CharSet is_space)) keyR).
Proof. reflexivity. Qed.

Ltac split_span p s w r Hw Hr :=
  let Hs := fresh "Hs" in
  pose proof (span_app p s) as Hs;
  pose proof (span_prefix_all p s) as Hw;
  pose proof (span_rest_stops p s) as Hr;
  destruct (span p s) as [w r]; cbn [fst snd] in Hs, Hw, Hr; subst s.

Lemma forallb_run p w r :
  forallb p w = true -> stops p r ->
  forallb p (w ++ r) = match r with [] => true | _ :: _ => false end.
Proof.
  intros Hw Hr. rewrite forallb_app, Hw. destruct r as [|b r]; [reflexivity|].
  simpl in *. now rewrite Hr.
Qed.

(** Blanks to the end of the line. *)
Lemma tail_match e s cs :
  option_map captures (compile tailR (mkState e s cs) (fun y => Some y))
  = if forallb is_space s then Some cs else None.
Proof.
  split_span is_space s w r Hw Hr.
  unfold tailR. rewrite compile_Seq, compile_Star_class.
  rewrite RepeatMatcher_class;
    [ | assumption | assumption | simpl; rewrite length_app; lia
      | intros _ w1 a w2 _; reflexivity ].
  rewrite (forallb_run _ _ _ Hw Hr). destruct r; reflexivity.
Qed.

Lemma tail_none e s cs :
  forallb is_space s = false ->
  compile tailR (mkState e s cs) (fun y => Some y) = None.
Proof.
  intros H. pose proof (tail_match e s cs) as T. rewrite H in T.
  destruct (compile tailR _ _); [discriminate|reflexivity].
Qed.

Lemma tail_inv e s cs :
  compile tailR (mkState e s cs) (fun y => Some y) = None ->
  forallb is_space s = false.
Proof.
  intros H. pose proof (tail_match e s cs) as T. rewrite H in T.
  destruct (forallb is_space s); [discriminate|reflexivity].
Qed.

(** The optional value and the blanks after it. *)
Lemma value_match e s cs :
  clear_captures [2] (mkState e s cs) = mkState e s cs ->
  option_map captures (compile valueR (mkState e s cs) (fun y => Some y))
  = let (v, t) := span is_dot s in
    if forallb is_space t then Some (with_value v cs) else None.
Proof.
  intros Hclear.
  pose proof (span_app is_dot s) as Hs.
  pose proof (span_prefix_all is_dot s) as Hv.
  pose proof (span_rest_stops is_dot s) as Ht.
  destruct (span is_dot s) as [v t]. cbn [fst snd] in Hs, Hv, Ht. subst s.
  unfold valueR. rewrite compile_Seq, compile_Opt. cbn [groups_of app].
  rewrite Hclear, compile_Group, compile_Star_class. cbn [remaining endIndex].
  rewrite RepeatMatcher_class;
    [ | assumption | assumption | rewrite length_app; lia | ].
  - destruct v as [|a v].
    + (* the group matched nothing: the iteration is rejected *)
      cbn [List.length set_capture endIndex]. rewrite Nat.add_0_r, Nat.eqb_refl.
      cbn [app]. rewrite tail_match. reflexivity.
    + cbn [set_capture endIndex remaining captures].
      replace (Nat.eqb (e + List.length (a :: v)) e) with false
        by (symmetry; apply Nat.eqb_neq; simpl; lia).
      replace (e + List.length (a :: v) - e) with (List.length (a :: v)) by lia.
      rewrite firstn_app, Nat.sub_diag, firstn_all, firstn_O, app_nil_r.
      pose proof (tail_match (e + List.length (a :: v)) t ((2, a :: v) :: cs)) as T.
      destruct (compile tailR _ _) as [z|] eqn:E.
      * exact T.
      * apply tail_inv in E. rewrite E.
        rewrite tail_none; [reflexivity|].
        rewrite forallb_app, E. apply andb_false_r.
  - intros Hmax w1 a w2 Hv12.
    cbn [set_capture endIndex remaining captures] in *.
    destruct w1 as [|b w1].
    + cbn [List.length]. rewrite Nat.add_0_r, Nat.eqb_refl. reflexivity.
    + replace (Nat.eqb (e + List.length (b :: w1)) e) with false
        by (symmetry; apply Nat.eqb_neq; simpl; lia).
      replace (Nat.eqb (e + List.length v) e) with false in Hmax
        by (symmetry; apply Nat.eqb_neq; subst v; simpl; lia).
      apply tail_inv in Hmax. apply tail_none. cbn [remaining] in *.
      cbn [forallb]. rewrite forallb_app, Hmax. now rewrite !andb_false_r.
Qed.

Lemma value_none e s cs :
  clear_captures [2] (mkState e s cs) = mkState e s cs ->
  forallb is_space (snd (span is_dot s)) = false ->
  compile valueR (mkState e s cs) (fun y => Some y) = None.
Proof.
  intros Hc H. pose proof (value_match Hc) as V.
  destruct (span is_dot s) as [v t]. simpl in H. rewrite H in V.
  destruct (compile valueR _ _); [discriminate|reflexivity].
Qed.

Lemma value_inv e s cs :
  clear_captures [2] (mkState e s cs) = mkState e s cs ->
  compile valueR (mkState e s cs) (fun y => Some y) = None ->
  forallb is_space (snd (span is_dot s)) = false.
Proof.
  intros Hc H. pose proof (value_match Hc) as V. rewrite H in V.
  destruct (span is_dot s) as [v t]. simpl.
  destruct (forallb is_space t); [discriminate|reflexivity].
Qed.

(** Starting the value earlier, inside the blanks before it, cannot make
    the rest of the line blank. *)
Lemma dot_rest_blank_prefix w r :
  forallb is_space (snd (span is_dot r)) = false ->
  forallb is_space (snd (span is_dot (w ++ r))) = false.
Proof.
  intros H. induction w as [|a w IH]; [exact H|].
  cbn [app span]. destruct (is_dot a).
  - destruct (span is_dot (w ++ r)) as [v t]. exact IH.
  - cbn [snd forallb]. rewrite forallb_app.
    rewrite <- (span_app is_dot r), (forallb_app is_space (fst _)), H.
    now rewrite !andb_false_r.
Qed.

Lemma in_run p (w w1 w2 : jsstring) a :
  forallb p w = true -> w = w1 ++ a :: w2 -> p a = true.
Proof.
  intros H ->. rewrite forallb_app in H. apply andb_prop in H as [_ H].
  simpl in H. now apply andb_prop in H as [H _].
Qed.

(** The blanks after the equals sign, and the value. *)
Lemma afterEq_match e s cs :
  clean cs ->
  option_map captures (compile afterEqR (mkState e s cs) (fun y => Some y))
  = option_map (fun v => with_value v cs) (scan_value s).
Proof.
  intros Hc. split_span is_space s w r Hw Hr.
  unfold scan_value. rewrite (span_unique _ _ _ Hw Hr). cbn [snd].
  unfold afterEqR. rewrite compile_Seq, compile_Star_class.
  rewrite RepeatMatcher_class;
    [ | assumption | assumption | simpl; rewrite length_app; lia | ].
  - rewrite (value_match (Hc _ _)).
    destruct (span is_dot r) as [v t]. destruct (forallb is_space t); reflexivity.
  - intros Hmax w1 a w2 _. apply (value_inv (Hc _ _)) in Hmax.
    apply (value_none (Hc _ _)).
    change (a :: w2 ++ r) with ((a :: w2) ++ r). now apply dot_rest_blank_prefix.
Qed.

Lemma scan_assign_not_blank a s :
  is_space a = false -> N.eqb equals a = false -> scan_assign (a :: s) = None.
Proof.
  intros Hs He. unfold scan_assign. cbn [span]. rewrite Hs. cbn [snd].
  now rewrite He.
Qed.

(** The blanks after the key, the equals sign, and what follows it. *)
Lemma assign_match e s cs :
  clean cs ->
  option_map captures (compile assignR (mkState e s cs) (fun y => Some y))
  = option_map (fun v => with_value v cs) (scan_assign s).
Proof.
  intros Hc. split_span is_space s w r Hw Hr.
  unfold scan_assign. rewrite (span_unique _ _ _ Hw Hr). cbn [snd].
  unfold assignR. rewrite compile_Seq, compile_Star_class.
  rewrite RepeatMatcher_class;
    [ | assumption | assumption | simpl; rewrite length_app; lia | ].
  - rewrite compile_Seq, compile_Lit. destruct r as [|c r]; [reflexivity|].
    destruct (N.eqb equals c); [|reflexivity]. now apply afterEq_match.
  - intros _ w1 a w2 Hw12. rewrite compile_Seq, compile_Lit.
    rewrite (space_not_equals a); [reflexivity|]. eapply in_run; eauto.
Qed.

Lemma assign_none e s cs :
  clean cs -> scan_assign s = None ->
  compile assignR (mkState e s cs) (fun y => Some y) = None.
Proof.
  intros Hc H. pose proof (assign_match e s Hc) as A. rewrite H in A.
  destruct (compile assignR _ _); [discriminate|reflexivity].
Qed.

Lemma clean_nil : clean [].
Proof. intros e s. reflexivity. Qed.

Lemma clean_key k : clean [(1, k)].
Proof. intros e s. reflexivity. Qed.

(** The key, captured as group 1, and the assignment after it. *)
Lemma key_match e s :
  option_map captures (compile keyR (mkState e s []) (fun y => Some y))
  = let (key, r) := span is_key_char s in
    match key with
    | [] => None
    | _ :: _ => option_map (fun v => with_value v [(1, key)]) (scan_assign r)
    end.
Proof.
  unfold keyR. rewrite compile_Seq, compile_Group, compile_Plus_class.
  destruct s as [|a s]; [reflexivity|]. cbn [span].
  destruct (is_key_char a) eqn:Ha; [|reflexivity].
  split_span is_key_char s w r Hw Hr.
  rewrite RepeatMatcher_class;
    [ | assumption | assumption | simpl; rewrite length_app; lia | ];
    cbn [set_capture endIndex remaining captures].
  - replace (S e + List.length w - e) with (List.length (a :: w))
      by (cbn [List.length]; lia).
    change (a :: w ++ r) with ((a :: w) ++ r).
    rewrite firstn_app, Nat.sub_diag, firstn_all, firstn_O, app_nil_r.
    apply assign_match, clean_key.
  - intros _ w1 b w2 Hw12. apply assign_none.
    + intros e' s'. reflexivity.
    + assert (Hb : is_key_char b = true) by (eapply in_run; eauto).
      apply scan_assign_not_blank;
        [now apply key_char_not_space | now apply key_char_not_equals].
Qed.

Lemma key_none e s :
  fst (span is_key_char s) = [] ->
  compile keyR (mkState e s []) (fun y => Some y) = None.
Proof.
  intros H. pose proof (key_match e s) as K.
  destruct (span is_key_char s) as [key r]. simpl in H. subst key.
  destruct (compile keyR _ _); [discriminate|reflexivity].
Qed.

(** The whole line pattern, tried at index 0. *)
Lemma line_match_at line :
  option_map captures (match_at lineRegex 0 line)
  = option_map (fun kv => with_value (snd kv) [(1, fst kv)]) (scan_line line).
Proof.
  unfold match_at. rewrite lineRegex_unfold, compile_Seq.
  rewrite compile_AssertStart, compile_Seq, compile_Star_class.
  split_span is_space line w r Hw Hr.
  unfold scan_line. rewrite (span_unique _ _ _ Hw Hr). cbn [snd].
  rewrite RepeatMatcher_class;
    [ | assumption | assumption | simpl; rewrite length_app; lia | ].
  - rewrite key_match. destruct (span is_key_char r) as [key r'].
    destruct key; [reflexivity|]. destruct (scan_assign r'); reflexivity.
  - intros _ w1 a w2 Hw12. apply key_none. cbn [span].
    rewrite (space_not_key_char a); [reflexivity|]. eapply in_run; eauto.
Qed.

(** [line.match(lineRegex)]: null exactly when the scan fails; otherwise
    [r[1]] is the key and [r[2] || ""] the value the scan finds. *)
Theorem lineRegex_match line :
  option_map (fun r => (or_empty (lookup_capture 1 r), or_empty (lookup_capture 2 r)))
             (String_match lineRegex line)
  = scan_line line.
Proof.
  unfold String_match. rewrite lineRegex_unfold, exec_anchored, <- lineRegex_unfold.
  pose proof (line_match_at line) as H.
  destruct (match_at lineRegex 0 line) as [z|]; destruct (scan_line line) as [[k v]|];
    simpl in *; try discriminate; [|reflexivity].
  injection H as ->. destruct v; reflexivity.
Qed.

(** [comments.test(line)] *)
Theorem comments_test line :
  RegExp_test comments line = scan_comment line.
Proof.
  unfold RegExp_test.
  change comments
    with (Seq AssertStart (Seq (Star (CharSet is_space))
                               (Group 1 (Disj (Lit hash) AssertEnd)))).
  rewrite exec_anchored. unfold match_at.
  rewrite compile_Seq, compile_AssertStart, compile_Seq, compile_Star_class.
  split_span is_space line w r Hw Hr.
  unfold scan_comment. rewrite (span_unique _ _ _ Hw Hr). cbn [snd].
  rewrite RepeatMatcher_class;
    [ | assumption | assumption | simpl; rewrite length_app; lia | ].
  - rewrite compile_Group, compile_Disj, compile_Lit, compile_AssertEnd.
    destruct r as [|c r]; [reflexivity|]. destruct (N.eqb hash c); reflexivity.
  - intros _ w1 a w2 Hw12.
    rewrite compile_Group, compile_Disj, compile_Lit, compile_AssertEnd.
    rewrite (space_not_hash a); [reflexivity|]. eapply in_run; eauto.
Qed.

(** ** The two replacements applied to a value *)

Lemma escaped_match_at idx s :
  match_at escapedNewlineRegex idx s
  = match s with
    | a :: b :: s'' =>
        if N.eqb backslash a && N.eqb letter_n b
        then Some (mkState (S (S idx)) s'' []) else None
    | _ => None
    end.
Proof.
  unfold match_at, escapedNewlineRegex. rewrite compile_Seq, compile_Lit.
  destruct s as [|a [|b s'']]; [reflexivity| |].
  - destruct (N.eqb backslash a); reflexivity.
  - destruct (N.eqb backslash a); [|reflexivity]. rewrite compile_Lit.
    destruct (N.eqb letter_n b); reflexivity.
Qed.

Lemma replace_escaped_loop s :
  forall idx,
    replace_loop escapedNewlineRegex [LF] idx 0 s = unescape_newlines s
    /\ forall a, replace_loop escapedNewlineRegex [LF] idx 0 (a :: s)
                 = unescape_newlines (a :: s).
Proof.
  induction s as [|b s IH]; intros idx.
  - split; [reflexivity|]. intros a. cbn [replace_loop]. rewrite escaped_match_at.
    reflexivity.
  - destruct (IH (S idx)) as [IH1 IH2]. split; [apply (proj2 (IH idx))|].
    intros a. cbn [replace_loop]. rewrite escaped_match_at.
    cbn [unescape_newlines]. destruct (N.eqb backslash a && N.eqb letter_n b).
    + cbn [endIndex]. replace (S (S idx) - idx) with 2 by lia.
      cbn [Nat.eqb Nat.pred app replace_loop]. f_equal.
      apply (proj1 (IH (S (S idx)))).
    + f_equal. apply IH2.
Qed.

(** [value.replace] with the escaped-newline pattern. *)
Theorem replace_escaped s :
  String_replace_global escapedNewlineRegex [LF] s = unescape_newlines s.
Proof. apply (proj1 (replace_escaped_loop s 0)). Qed.

Lemma edge_match_at idx s :
  match_at edgeQuoteRegex idx s
  = match s with
    | [] => None
    | c :: s' =>
        if is_quote c
        then match idx, s' with
             | 0, _ | _, [] => Some (mkState (S idx) s' [(1, [c])])
             | _, _ => None
             end
        else None
    end.
Proof.
  unfold match_at, edgeQuoteRegex.
  rewrite compile_Group, compile_Disj, !compile_Seq.
  destruct s as [|c s']; [destruct idx; reflexivity|].
  cbn [compile CharacterSetMatcher remaining endIndex captures].
  destruct idx as [|idx]; cbn [Nat.eqb].
  - destruct (is_quote c); [|reflexivity].
    cbn [set_capture endIndex remaining captures Nat.sub firstn]. reflexivity.
  - destruct (is_quote c); [|reflexivity]. destruct s' as [|d s']; [|reflexivity].
    cbn [set_capture endIndex remaining captures].
    replace (S (S idx) - S idx) with 1 by lia. reflexivity.
Qed.

Lemma replace_edge_inner s :
  forall idx, replace_loop edgeQuoteRegex [] (S idx) 0 s = drop_final_quote s.
Proof.
  induction s as [|c s IH]; intros idx; cbn [replace_loop];
    rewrite edge_match_at; [reflexivity|].
  cbn [drop_final_quote]. destruct s as [|d s].
  - destruct (is_quote c); [|reflexivity].
    cbn [endIndex]. replace (S (S idx) - S idx) with 1 by lia. reflexivity.
  - destruct (is_quote c); cbn [app]; f_equal; apply IH.
Qed.

(** [value.replace] with the edge-quote pattern. *)
Theorem replace_edge s :
  String_replace_global edgeQuoteRegex [] s = strip_quotes s.
Proof.
  unfold String_replace_global. destruct s as [|c s]; cbn [replace_loop];
    rewrite edge_match_at; [reflexivity|].
  cbn [strip_quotes]. destruct (is_quote c).
  - cbn [endIndex Nat.sub Nat.eqb Nat.pred app]. apply replace_edge_inner.
  - f_equal. apply replace_edge_inner.
Qed.

(** The value processing without the matcher. *)
Theorem process_value_scan v :
  process_value v
  = strip_quotes (if double_quoted v then unescape_newlines v else v).
Proof.
  unfold process_value. rewrite replace_edge.
  destruct (double_quoted v); [rewrite replace_escaped|]; reflexivity.
Qed.

End Patterns.

Import Patterns.

(* ===================================================================== *)
(** * The parser: what it emits *)
(* ===================================================================== *)

Module EnvFileFacts.

Lemma line_assignment_scan line :
  line_assignment line
  = option_map (fun kv => (fst kv, process_value (snd kv))) (scan_line line).
Proof.
  unfold line_assignment. rewrite <- lineRegex_match.
  destruct (String_match lineRegex line); reflexivity.
Qed.

Lemma unparseable_scan line :
  unparseable line
  = match scan_line line with Some _ => false | None => negb (scan_comment line) end.
Proof.
  unfold unparseable. rewrite <- lineRegex_match, comments_test.
  destruct (String_match lineRegex line); reflexivity.
Qed.

Lemma parse_line_step env errs line :
  parse_line (env, errs) line
  = (set_all (assignments [line]) env,
     errs ++ (if unparseable line then [line] else [])).
Proof.
  unfold parse_line, assignments, line_assignment, unparseable, set_all.
  cbn [flat_map]. destruct (String_match lineRegex line) as [r|].
  - cbn [fold_left fst snd app]. now rewrite app_nil_r.
  - cbn [fold_left app]. destruct (RegExp_test comments line); cbn [negb];
      [now rewrite app_nil_r|reflexivity].
Qed.

Lemma set_all_app a b m : set_all (a ++ b) m = set_all b (set_all a m).
Proof. apply fold_left_app. Qed.

Lemma assignments_cons l lines :
  assignments (l :: lines) = assignments [l] ++ assignments lines.
Proof. unfold assignments. cbn [flat_map]. now rewrite app_nil_r. Qed.

Lemma parse_lines lines : forall env errs,
  fold_left parse_line lines (env, errs)
  = (set_all (assignments lines) env, errs ++ filter unparseable lines).
Proof.
  induction lines as [|l lines IH]; intros env errs.
  - cbn. now rewrite app_nil_r.
  - cbn [fold_left]. rewrite parse_line_step, IH.
    rewrite (assignments_cons l lines), set_all_app, <- app_assoc.
    cbn [filter]. destruct (unparseable l); reflexivity.
Qed.

Lemma baseline_fold es m :
  fold_left (fun env e => Map_set (name e) (value e) env) es m
  = set_all (map (fun e => (name e, value e)) es) m.
Proof.
  revert m. induction es as [|e es IH]; intros m; [reflexivity|]. cbn. apply IH.
Qed.

Lemma append_errors_quoted errs : forall w idx len,
  idx + List.length errs = len ->
  append_errors w idx len errs = w ++ quoted_list errs.
Proof.
  induction errs as [|e errs IH]; intros w idx len Hlen; cbn [append_errors quoted_list].
  - now rewrite app_nil_r.
  - cbn [List.length] in Hlen. rewrite (IH _ (S idx) len) by lia.
    rewrite <- !app_assoc. do 4 f_equal.
    destruct errs as [|e' errs].
    + cbn [List.length] in Hlen.
      replace (Nat.eqb idx (len - 1)) with true by (symmetry; apply Nat.eqb_eq; lia).
      cbn. reflexivity.
    + cbn [List.length] in Hlen.
      replace (Nat.eqb idx (len - 1)) with false by (symmetry; apply Nat.eqb_neq; lia).
      cbn [negb]. reflexivity.
Qed.

Section Result.

Variable localize : jsstring -> jsstring -> list jsstring -> jsstring.

(** The result of the parser in one piece. *)
Lemma CreateFromContent_eq content envFile initialEnv :
  let lines := split_lines (strip_bom content) in
  let env := set_all (baseline initialEnv ++ assignments lines) [] in
  let bad := filter unparseable lines in
  CreateFromContent localize content envFile initialEnv
  = mkParsed (map (fun key => mkEnv key (Map_get key env)) (Map_keys env))
             (match bad with
              | [] => None
              | _ :: _ => Some (warning_prefix localize envFile ++ quoted_list bad)
              end).
Proof.
  cbv zeta. unfold CreateFromContent.
  assert (E : match initialEnv with
              | Some es => fold_left (fun env e => Map_set (name e) (value e) env) es []
              | None => []
              end = set_all (baseline initialEnv) []).
  { destruct initialEnv as [es|]; [apply baseline_fold|reflexivity]. }
  rewrite E, parse_lines, <- set_all_app. cbn [app]. f_equal.
  destruct (filter unparseable (split_lines (strip_bom content))) as [|b bad] eqn:B;
    [reflexivity|].
  cbn [List.length Nat.eqb negb]. f_equal.
  now apply append_errors_quoted.
Qed.

End Result.

End EnvFileFacts.

Import EnvFileFacts.

(* ===================================================================== *)
(** * The line grammar of the specification *)
(* ===================================================================== *)

Module Grammar.

Unset Implicit Arguments.

Lemma span_blank_prefix p w s :
  forallb p w = true ->
  span p (w ++ s) = (w ++ fst (span p s), snd (span p s)).
Proof.
  intros Hw. induction w as [|c w IH]; cbn [app span].
  - now destruct (span p s).
  - simpl in Hw. apply andb_prop in Hw as [Hc Hw]. rewrite Hc, (IH Hw). reflexivity.
Qed.

Lemma blanks_span_rest p s : blanks s -> blanks (snd (span p s)).
Proof.
  unfold blanks. intros H. rewrite <- (span_app p s), forallb_app in H.
  now apply andb_prop in H as [_ H].
Qed.

(** Whatever suffix of value-and-trailing-blanks the value scan starts
    from, only blanks follow the run it takes. *)
Lemma dot_rest_blank v ws4 :
  forallb is_dot v = true -> blanks ws4 ->
  forall a r, v ++ ws4 = a ++ r -> blanks (snd (span is_dot r)).
Proof.
  intros Hv Hws. induction v as [|c v IH]; intros a r E.
  - apply blanks_span_rest. cbn [app] in E. subst ws4.
    unfold blanks in *. rewrite forallb_app in Hws.
    now apply andb_prop in Hws as [_ H].
  - simpl in Hv. apply andb_prop in Hv as [Hc Hv]. destruct a as [|c' a].
    + cbn [app] in E. subst r. cbn [app span]. rewrite Hc.
      specialize (IH Hv [] (v ++ ws4) eq_refl).
      now destruct (span is_dot (v ++ ws4)).
    + cbn [app] in E. injection E as _ E. now apply (IH Hv a r).
Qed.

Lemma scan_value_total ws3 v ws4 :
  blanks ws3 -> forallb is_dot v = true -> blanks ws4 ->
  exists v', scan_value (ws3 ++ v ++ ws4) = Some v'.
Proof.
  intros H3 Hv H4. unfold scan_value.
  rewrite (span_blank_prefix is_space ws3 (v ++ ws4) H3). cbn [snd].
  pose proof (dot_rest_blank v ws4 Hv H4 _ _ (eq_sym (span_app is_space (v ++ ws4)))) as B.
  destruct (span is_dot (snd (span is_space (v ++ ws4)))) as [v' t].
  cbn [snd] in B. unfold blanks in B. rewrite B. now exists v'.
Qed.

Lemma stops_app_head p (a : jsstring) c r :
  (forall x, In x a -> p x = false) -> p c = false -> stops p (a ++ c :: r).
Proof.
  intros Ha Hc. destruct a as [|x a]; [exact Hc|]. simpl. apply Ha. now left.
Qed.

Lemma blanks_no_key ws x : blanks ws -> In x ws -> is_key_char x = false.
Proof.
  unfold blanks. rewrite forallb_forall. intros H Hx. now apply space_not_key_char, H.
Qed.

(** The line pattern matches exactly the key=value lines whose value stays
    on one line. *)
Theorem scan_line_grammar line :
  (exists kv, scan_line line = Some kv) <-> OneLineKeyValue line.
Proof.
  split.
  - intros [[k v] H]. unfold scan_line in H.
    pose proof (span_app is_space line) as E1.
    pose proof (span_prefix_all is_space line) as B1.
    destruct (span is_space line) as [ws1 r1]. cbn [fst snd] in *.
    pose proof (span_app is_key_char r1) as E2.
    pose proof (span_prefix_all is_key_char r1) as B2.
    destruct (span is_key_char r1) as [key r2]. cbn [fst snd] in *.
    destruct key as [|k0 key]; [discriminate|].
    unfold scan_assign in H.
    pose proof (span_app is_space r2) as E3.
    pose proof (span_prefix_all is_space r2) as B3.
    destruct (span is_space r2) as [ws2 r3]. cbn [fst snd] in *.
    destruct r3 as [|c r4]; [discriminate|].
    destruct (N.eqb equals c) eqn:Ec; [|discriminate].
    apply N.eqb_eq in Ec. subst c. unfold scan_value in H.
    pose proof (span_app is_space r4) as E4.
    pose proof (span_prefix_all is_space r4) as B4.
    destruct (span is_space r4) as [ws3 r5]. cbn [fst snd] in *.
    pose proof (span_app is_dot r5) as E5.
    pose proof (span_prefix_all is_dot r5) as B5.
    destruct (span is_dot r5) as [v' t]. cbn [fst snd] in *.
    destruct (forallb is_space t) eqn:Et; [|discriminate].
    exists ws1, (k0 :: key), ws2, ws3, v', t.
    subst. repeat split; try assumption. discriminate.
  - intros (ws1 & key & ws2 & ws3 & v & ws4 & -> & B1 & B2 & B3 & B4 & Hne & Hk & Hv).
    unfold scan_line.
    destruct key as [|k0 key]; [congruence|].
    assert (Hk0 : is_key_char k0 = true) by (simpl in Hk; now apply andb_prop in Hk).
    rewrite (span_unique is_space ws1 ((k0 :: key) ++ ws2 ++ [equals] ++ ws3 ++ v ++ ws4));
      [ | exact B1 | simpl; now apply key_char_not_space ].
    cbn [snd].
    rewrite (span_unique is_key_char (k0 :: key) (ws2 ++ [equals] ++ ws3 ++ v ++ ws4));
      [ | exact Hk | apply stops_app_head; [intros x; now apply blanks_no_key | reflexivity] ].
    unfold scan_assign.
    rewrite (span_unique is_space ws2 ([equals] ++ ws3 ++ v ++ ws4));
      [ | exact B2 | reflexivity ].
    cbn [snd app]. rewrite N.eqb_refl.
    destruct (scan_value_total ws3 v ws4 B3 Hv B4) as [v' ->].
    now exists (k0 :: key, v').
Qed.

(** The comments pattern matches exactly the blank and the comment lines. *)
Theorem scan_comment_grammar line :
  scan_comment line = true <-> BlankLine line \/ CommentLine line.
Proof.
  unfold scan_comment. split.
  - intros H. pose proof (span_app is_space line) as E.
    pose proof (span_prefix_all is_space line) as B.
    destruct (span is_space line) as [ws r]. cbn [fst snd] in *.
    destruct r as [|c r].
    + left. rewrite app_nil_r in E. now subst.
    + right. apply N.eqb_eq in H. subst c. now exists ws, r.
  - intros [B | (ws & rest & -> & B)].
    + now rewrite (span_all is_space line B).
    + rewrite (span_unique is_space ws (hash :: rest)); [ | exact B | reflexivity ].
      reflexivity.
Qed.

(** A key-value line is neither blank nor a comment. *)
Lemma unparseable_grammar l :
  unparseable l = true <-> ~ (OneLineKeyValue l \/ BlankLine l \/ CommentLine l).
Proof.
  rewrite unparseable_scan. split.
  - intros H [K | C].
    + apply scan_line_grammar in K as [kv K]. rewrite K in H. discriminate.
    + apply scan_comment_grammar in C. rewrite C in H.
      destruct (scan_line l); discriminate.
  - intros H. destruct (scan_line l) as [kv|] eqn:K.
    + exfalso. apply H. left. apply scan_line_grammar. now exists kv.
    + destruct (scan_comment l) eqn:C; [|reflexivity].
      exfalso. apply H. right. now apply scan_comment_grammar.
Qed.

End Grammar.

Import Grammar.

(* ===================================================================== *)
(** * The insertion-ordered map *)
(* ===================================================================== *)

Module MapFacts.

Unset Implicit Arguments.

Lemma mem_In k ks : mem k ks = true <-> In k ks.
Proof.
  unfold mem. rewrite existsb_exists. split.
  - intros (x & Hx & E). apply string_eqb_eq in E. now subst.
  - intros H. exists k. split; [assumption|apply string_eqb_refl].
Qed.

Lemma Map_set_present k v m :
  mem k (Map_keys m) = true -> Map_keys (Map_set k v m) = Map_keys m.
Proof.
  induction m as [|[k' v'] m IH]; cbn; [discriminate|].
  destruct (string_eqb k' k) eqn:E.
  - reflexivity.
  - intros H. cbn. f_equal. apply IH.
    destruct (string_eqb k k') eqn:E'; [|exact H].
    apply string_eqb_eq in E'. subst. rewrite string_eqb_refl in E. discriminate.
Qed.

Lemma Map_set_absent k v m :
  mem k (Map_keys m) = false -> Map_set k v m = m ++ [(k, v)].
Proof.
  induction m as [|[k' v'] m IH]; cbn; [reflexivity|].
  destruct (string_eqb k k') eqn:E'; [discriminate|]. cbn. intros H.
  destruct (string_eqb k' k) eqn:E.
  - apply string_eqb_eq in E. subst. rewrite string_eqb_refl in E'. discriminate.
  - f_equal. now apply IH.
Qed.

Lemma Map_get_set k v k' m :
  Map_get k' (Map_set k v m) = if string_eqb k k' then v else Map_get k' m.
Proof.
  induction m as [|[k0 v0] m IH]; cbn.
  - reflexivity.
  - destruct (string_eqb k0 k) eqn:E; cbn.
    + apply string_eqb_eq in E. subst k0.
      destruct (string_eqb k k'); reflexivity.
    + destruct (string_eqb k0 k') eqn:E0.
      * apply string_eqb_eq in E0. subst k0.
        destruct (string_eqb k k') eqn:E1; [|reflexivity].
        apply string_eqb_eq in E1. subst. rewrite string_eqb_refl in E. discriminate.
      * apply IH.
Qed.

Lemma Map_set_NoDup k v m :
  NoDup (Map_keys m) -> NoDup (Map_keys (Map_set k v m)).
Proof.
  intros H. destruct (mem k (Map_keys m)) eqn:E.
  - now rewrite Map_set_present.
  - rewrite (Map_set_absent k v m E). unfold Map_keys. rewrite map_app. cbn.
    apply NoDup_app; [exact H | constructor; [intros []|constructor] | ].
    intros x Hx [<-|[]]. apply mem_In in Hx. unfold Map_keys in E. congruence.
Qed.

Lemma set_all_NoDup assigns : forall m,
  NoDup (Map_keys m) -> NoDup (Map_keys (set_all assigns m)).
Proof.
  induction assigns as [|[k v] assigns IH]; intros m H; [exact H|].
  cbn. apply IH. now apply Map_set_NoDup.
Qed.

Lemma filter_filter {A} (f g : A -> bool) l :
  filter f (filter g l) = filter (fun x => g x && f x) l.
Proof.
  induction l as [|x l IH]; cbn; [reflexivity|].
  destruct (g x); cbn; [destruct (f x)|]; now rewrite IH.
Qed.

Lemma set_all_keys assigns : forall m,
  Map_keys (set_all assigns m)
  = Map_keys m
    ++ filter (fun k => negb (mem k (Map_keys m))) (first_seen (map fst assigns)).
Proof.
  induction assigns as [|[k v] assigns IH]; intros m.
  - cbn. now rewrite app_nil_r.
  - cbn [set_all fold_left map fst snd first_seen filter].
    change (fold_left _ assigns (Map_set k v m)) with (set_all assigns (Map_set k v m)).
    rewrite IH. destruct (mem k (Map_keys m)) eqn:E; cbn [negb].
    + rewrite (Map_set_present k v m E), filter_filter. f_equal.
      apply filter_ext_in. intros x _.
      destruct (string_eqb k x) eqn:Ex; [|reflexivity].
      apply string_eqb_eq in Ex. subst x. now rewrite E.
    + rewrite (Map_set_absent k v m E). unfold Map_keys at 1 2.
      rewrite map_app, <- app_assoc. cbn [map fst app]. do 2 f_equal.
      rewrite filter_filter. apply filter_ext_in. intros x _.
      unfold Map_keys, mem. rewrite existsb_app. cbn [map fst existsb].
      rewrite orb_false_r, negb_orb.
      replace (string_eqb x k) with (string_eqb k x); [apply andb_comm|].
      destruct (string_eqb k x) eqn:A, (string_eqb x k) eqn:B; trivial.
      * apply string_eqb_eq in A. subst. now rewrite string_eqb_refl in B.
      * apply string_eqb_eq in B. subst. now rewrite string_eqb_refl in A.
Qed.

Lemma set_all_get k assigns : forall m,
  Map_get k (set_all assigns m)
  = match last_value k assigns with Some v => v | None => Map_get k m end.
Proof.
  induction assigns as [|[k' v] assigns IH]; intros m; [reflexivity|].
  cbn [set_all fold_left fst snd last_value].
  change (fold_left _ assigns (Map_set k' v m)) with (set_all assigns (Map_set k' v m)).
  rewrite IH, Map_get_set. destruct (last_value k assigns); [reflexivity|].
  destruct (string_eqb k' k); reflexivity.
Qed.

(** Reading the map back entry by entry gives its entries. *)
Lemma Map_entries m :
  NoDup (Map_keys m) ->
  map (fun key => (key, Map_get key m)) (Map_keys m) = m.
Proof.
  induction m as [|[k v] m IH]; intros H; [reflexivity|].
  cbn in *. rewrite string_eqb_refl. f_equal.
  inversion H as [|? ? Hk Hm]; subst.
  rewrite <- (IH Hm) at 2. apply map_ext_in. intros x Hx.
  destruct (string_eqb k x) eqn:E; [|reflexivity].
  apply string_eqb_eq in E. now subst.
Qed.

End MapFacts.

Import MapFacts.

(* ===================================================================== *)
(** * Properties of [ParsedEnvironmentFile.CreateFromContent] *)
(* ===================================================================== *)

Module EnvFileSpec.

Unset Implicit Arguments.

Lemma filter_nil_iff {A} (f : A -> bool) l :
  filter f l = [] <-> forall x, In x l -> f x = false.
Proof.
  induction l as [|a l IH]; cbn.
  - split; [intros _ x []|reflexivity].
  - destruct (f a) eqn:E; split.
    + discriminate.
    + intros H. specialize (H a (or_introl eq_refl)). congruence.
    + intros H x [<-|Hx]; [assumption|]. now apply IH.
    + intros H. apply IH. intros x Hx. apply H. now right.
Qed.

Lemma filter_all {A} (l : list A) : filter (fun _ => true) l = l.
Proof. induction l as [|a l IH]; cbn; [reflexivity|now rewrite IH]. Qed.

(** A line of the one-line grammar is a line of the grammar of the
    specification. *)
Lemma one_line_is_key_value l : OneLineKeyValue l -> KeyValueLine l.
Proof.
  intros (ws1 & key & ws2 & ws3 & v & ws4 & E & B1 & B2 & B3 & B4 & Hne & Hk & _).
  now exists ws1, key, ws2, ws3, v, ws4.
Qed.

(** On a line without line terminators the two grammars are the same. *)
Lemma key_value_on_one_line l :
  forallb is_dot l = true -> KeyValueLine l -> OneLineKeyValue l.
Proof.
  intros Hl (ws1 & key & ws2 & ws3 & v & ws4 & E & B1 & B2 & B3 & B4 & Hne & Hk).
  exists ws1, key, ws2, ws3, v, ws4. repeat split; try assumption.
  subst l. rewrite !forallb_app in Hl.
  repeat (apply andb_prop in Hl as [? Hl]). assumption.
Qed.

(** C1, as amended: the warning is null exactly when every line that is
    neither blank nor a comment is a key=value line whose value holds no
    carriage return and no U+2028 or U+2029; otherwise it is one string
    that, after the localized prefix, lists every unparseable line
    verbatim and in order, each between double quotes, separated by a comma
    and a blank, with a period at the end. *)
Theorem C1_warning_lists_unparseable_lines
        (localize : localize_t) (content envFile : jsstring)
        (initialEnv : option (list Environment)) :
  let res := CreateFromContent localize content envFile initialEnv in
  let lines := split_lines (strip_bom content) in
  let bad := filter unparseable lines in
  (Warning res = None <->
   forall l, In l lines -> OneLineKeyValue l \/ BlankLine l \/ CommentLine l)
  /\ (forall l, In l bad <->
        In l lines /\ ~ (OneLineKeyValue l \/ BlankLine l \/ CommentLine l))
  /\ Warning res
     = match bad with
       | [] => None
       | _ :: _ => Some (warning_prefix localize envFile ++ quoted_list bad)
       end.
Proof.
  cbv zeta. rewrite CreateFromContent_eq. cbn [Warning].
  split; [|split].
  - transitivity (filter unparseable (split_lines (strip_bom content)) = []).
    + destruct (filter unparseable _); split; congruence.
    + rewrite filter_nil_iff. split; intros H l Hl.
      * specialize (H l Hl).
        destruct (scan_line l) as [kv|] eqn:K.
        -- left. apply scan_line_grammar. now exists kv.
        -- right. apply scan_comment_grammar.
           rewrite unparseable_scan, K in H. now destruct (scan_comment l).
      * destruct (unparseable l) eqn:U; [|reflexivity].
        apply unparseable_grammar in U. exfalso. apply U. now apply H.
  - intros l. rewrite filter_In, unparseable_grammar. reflexivity.
  - reflexivity.
Qed.

Lemma C1_witness :
  Warning (CreateFromContent localize_default
             (lit "A=1" ++ [LF] ++ lit "oops" ++ [LF] ++ lit "# fine" ++ [LF] ++ lit "x y")
             (lit "f.env") None)
  = Some (lit "Ignoring non-parseable lines in envFile f.env: "
          ++ [dquote] ++ lit "oops" ++ [dquote] ++ lit ", "
          ++ [dquote] ++ lit "x y" ++ [dquote] ++ lit ".").
Proof.
  exact (eq_trans
           (proj2 (proj2 (C1_warning_lists_unparseable_lines
                            localize_default
                            (lit "A=1" ++ [LF] ++ lit "oops" ++ [LF] ++ lit "# fine"
                                 ++ [LF] ++ lit "x y")
                            (lit "f.env") None)))
           eq_refl).
Defined.

(** C1 fails as stated: the one line K=a, carriage return, b is a line of
    the grammar of the specification, its value being the remainder a,
    carriage return, b; it is neither blank nor a comment, and the code
    lists it in a warning. *)
Lemma C1_counterexample :
  split_lines (strip_bom (lit "K=a" ++ [CR] ++ lit "b")) = [lit "K=a" ++ [CR] ++ lit "b"]
  /\ KeyValueLine (lit "K=a" ++ [CR] ++ lit "b")
  /\ Warning (CreateFromContent localize_default (lit "K=a" ++ [CR] ++ lit "b")
                                (lit "f.env") None)
     = Some (lit "Ignoring non-parseable lines in envFile f.env: "
             ++ [dquote] ++ lit "K=a" ++ [CR] ++ lit "b" ++ [dquote] ++ lit ".")
  /\ Env (CreateFromContent localize_default (lit "K=a" ++ [CR] ++ lit "b")
                            (lit "f.env") None) = [].
Proof.
  split; [|split; [|split]].
  - reflexivity.
  - exists [], (lit "K"), [], [], (lit "a" ++ [CR] ++ lit "b"), [].
    repeat split; try reflexivity. discriminate.
  - vm_compute. reflexivity.
  - vm_compute. reflexivity.
Qed.

(** C2: the names of the emitted entries are unique; they stand in the
    order in which they are first assigned, the baseline before the file,
    and each carries the value of its last assignment, so an overwrite
    keeps the position of the name and new names are appended in file
    order.  The baseline A=1 with the file A=2, B=3 gives A=2, B=3. *)
Theorem C2_entries_unique_and_ordered
        (localize : localize_t) (content envFile : jsstring)
        (initialEnv : option (list Environment)) :
  let res := CreateFromContent localize content envFile initialEnv in
  let assigns := baseline initialEnv ++ assignments (split_lines (strip_bom content)) in
  NoDup (map name (Env res))
  /\ Env res = map (fun k => mkEnv k (or_empty (last_value k assigns)))
                   (first_seen (map fst assigns))
  /\ Env (CreateFromContent localize (lit "A=2" ++ [LF] ++ lit "B=3") envFile
            (Some [mkEnv (lit "A") (lit "1")]))
     = [mkEnv (lit "A") (lit "2"); mkEnv (lit "B") (lit "3")].
Proof.
  cbv zeta. rewrite !CreateFromContent_eq. cbn [Env].
  split; [|split].
  - rewrite map_map. cbn [name]. rewrite map_id.
    apply set_all_NoDup. constructor.
  - rewrite set_all_keys. cbn [Map_keys map app mem existsb negb].
    rewrite filter_all. apply map_ext. intros k.
    rewrite set_all_get. now destruct (last_value k _).
  - vm_compute. reflexivity.
Qed.

(** ** The value processing *)

Lemma drop_final_quote_snoc s c :
  drop_final_quote (s ++ [c]) = if is_quote c then s else s ++ [c].
Proof.
  induction s as [|a s IH]; [reflexivity|].
  cbn [app drop_final_quote]. destruct (s ++ [c]) as [|b t] eqn:E.
  - destruct s; discriminate.
  - rewrite IH. destruct (is_quote c); reflexivity.
Qed.

Lemma drop_final_quote_trailing s : drop_final_quote s = strip_trailing_quote s.
Proof.
  unfold strip_trailing_quote.
  destruct s as [|a s] using rev_ind; [reflexivity|].
  rewrite drop_final_quote_snoc, rev_app_distr. cbn [rev app strip_leading_quote].
  destruct (is_quote a).
  - now rewrite rev_involutive.
  - cbn [rev]. now rewrite rev_involutive.
Qed.

Lemma strip_quotes_spec s :
  strip_quotes s = strip_trailing_quote (strip_leading_quote s).
Proof.
  destruct s as [|c s]; [reflexivity|]. cbn [strip_quotes strip_leading_quote].
  destruct (is_quote c) eqn:Q; [apply drop_final_quote_trailing|].
  rewrite <- drop_final_quote_trailing. cbn [drop_final_quote].
  destruct s; [now rewrite Q|reflexivity].
Qed.

Lemma unescape_wrapped v :
  (if double_quoted v then unescape_newlines v else v)
  = (if wrapped_in_double_quotes v then unescape_newlines v else v).
Proof.
  destruct v as [|c [|d v]]; [reflexivity| |reflexivity].
  cbn. now destruct (N.eqb c dquote).
Qed.

Lemma unescape_cons_other a s :
  N.eqb backslash a = false ->
  unescape_newlines (a :: s) = a :: unescape_newlines s.
Proof.
  intros H. destruct s as [|b s]; [reflexivity|].
  cbn [unescape_newlines]. now rewrite H.
Qed.

Lemma unescape_cons2 a b s :
  unescape_newlines (a :: b :: s)
  = if N.eqb backslash a && N.eqb letter_n b
    then LF :: unescape_newlines s
    else a :: unescape_newlines (b :: s).
Proof. reflexivity. Qed.

Lemma unescape_snoc_other (s : jsstring) : forall c : char,
  N.eqb letter_n c = false ->
  unescape_newlines (s ++ [c]) = unescape_newlines s ++ [c]
  /\ forall a, unescape_newlines (a :: s ++ [c]) = unescape_newlines (a :: s) ++ [c].
Proof.
  induction s as [|b s IH]; intros c Hc.
  - split; [reflexivity|]. intros a. cbn [app unescape_newlines].
    rewrite Hc, andb_false_r. reflexivity.
  - destruct (IH c Hc) as [IH1 IH2]. split; [apply IH2|].
    intros a. cbn [app]. rewrite !unescape_cons2.
    destruct (N.eqb backslash a && N.eqb letter_n b).
    + cbn [app]. now rewrite IH1.
    + cbn [app]. now rewrite IH2.
Qed.

Lemma has_escaped_cons2 a b s :
  has_escaped_newline (a :: b :: s)
  = (N.eqb backslash a && N.eqb letter_n b) || has_escaped_newline (b :: s).
Proof. reflexivity. Qed.

Lemma no_escaped_newline_left s :
  has_escaped_newline (unescape_newlines s) = false
  /\ forall a, has_escaped_newline (unescape_newlines (a :: s)) = false.
Proof.
  induction s as [|b s [IH1 IH2]]; [split; [reflexivity|intros a; reflexivity]|].
  split; [apply IH2|]. intros a. rewrite unescape_cons2.
  destruct (N.eqb backslash a && N.eqb letter_n b) eqn:E.
  - destruct (unescape_newlines s) as [|x u] eqn:U; [reflexivity|].
    rewrite has_escaped_cons2, IH1. reflexivity.
  - specialize (IH2 b). destruct (unescape_newlines (b :: s)) as [|x u] eqn:U;
      [reflexivity|].
    rewrite has_escaped_cons2, IH2, orb_false_r.
    destruct s as [|d s].
    + cbn in U. injection U as <- <-. exact E.
    + rewrite unescape_cons2 in U.
      destruct (N.eqb backslash b && N.eqb letter_n d).
      * injection U as <- _. apply andb_false_r.
      * injection U as <- _. exact E.
Qed.

Lemma wrapped_between_double_quotes inner :
  wrapped_in_double_quotes ([dquote] ++ inner ++ [dquote]) = true.
Proof.
  cbn. induction inner as [|a inner IH]; [reflexivity|].
  cbn [app last_char]. destruct (inner ++ [dquote]) eqn:E; [|exact IH].
  destruct inner; discriminate.
Qed.

Lemma process_double_quoted inner :
  process_value ([dquote] ++ inner ++ [dquote]) = unescape_newlines inner.
Proof.
  rewrite process_value_scan, unescape_wrapped, wrapped_between_double_quotes.
  cbn [app].
  rewrite unescape_cons_other by reflexivity.
  rewrite (proj1 (unescape_snoc_other inner dquote eq_refl)).
  cbn [strip_quotes]. change (is_quote dquote) with true. cbn iota.
  now rewrite drop_final_quote_snoc.
Qed.

Lemma process_single_quoted inner :
  process_value ([squote] ++ inner ++ [squote]) = inner.
Proof.
  rewrite process_value_scan. cbn [app double_quoted].
  change (N.eqb squote dquote) with false. cbn [andb strip_quotes].
  change (is_quote squote) with true. cbv iota.
  rewrite drop_final_quote_snoc. reflexivity.
Qed.

(** C3: the value is processed in two steps: when it is wrapped in a pair
    of double quotes every backslash followed by n in it becomes a line
    feed, and then, whatever the first step did, one quote character at the
    very start and one at the very end are dropped.  The line KEY= followed
    by line1, backslash, n, line2 between double quotes gives the value
    line1, line feed, line2. *)
Theorem C3_value_processing (localize : localize_t) (envFile : jsstring) :
  (forall v, process_value v = spec_process_value v)
  /\ (forall inner,
        process_value ([dquote] ++ inner ++ [dquote]) = unescape_newlines inner
        /\ has_escaped_newline (unescape_newlines inner) = false)
  /\ Env (CreateFromContent localize
            (lit "KEY=" ++ [dquote] ++ lit "line1" ++ [backslash; letter_n]
                 ++ lit "line2" ++ [dquote])
            envFile None)
     = [mkEnv (lit "KEY") (lit "line1" ++ [LF] ++ lit "line2")].
Proof.
  split; [|split].
  - intros v. rewrite process_value_scan. unfold spec_process_value.
    now rewrite strip_quotes_spec, unescape_wrapped.
  - intros inner. split; [apply process_double_quoted|apply no_escaped_newline_left].
  - rewrite CreateFromContent_eq. vm_compute. reflexivity.
Qed.

(** C9 (the code differs): blanks at the end of a matching line that are
    not line terminators are taken by the greedy value group, so the line
    K=v followed by two spaces gives the value v followed by two spaces;
    the leading blanks, the blanks around the equals sign and a final
    carriage return are not part of the key or the value. *)
Theorem C9_trailing_blanks_are_kept (localize : localize_t) (envFile : jsstring) :
  Env (CreateFromContent localize (lit "K=v  ") envFile None)
  = [mkEnv (lit "K") (lit "v  ")]
  /\ Env (CreateFromContent localize (lit "  K  =  v" ++ [CR]) envFile None)
     = [mkEnv (lit "K") (lit "v")].
Proof.
  rewrite !CreateFromContent_eq. split; vm_compute; reflexivity.
Qed.

(** C10: the leading and the trailing quote are dropped independently of
    each other: a value that starts with one quote character and ends with
    the other one loses both, a value that is a single double quote becomes
    empty, and the line K= single quote, v, double quote gives the value v. *)
Theorem C10_quotes_need_not_match
        (localize : localize_t) (envFile : jsstring) (q1 q2 : char) (mid : jsstring) :
  is_quote q1 = true -> is_quote q2 = true -> q1 <> q2 ->
  process_value ([q1] ++ mid ++ [q2]) = mid
  /\ process_value [dquote] = []
  /\ Env (CreateFromContent localize (lit "K='v" ++ [dquote]) envFile None)
     = [mkEnv (lit "K") (lit "v")].
Proof.
  intros Q1 Q2 Hne. split; [|split].
  - rewrite process_value_scan.
    assert (D : double_quoted ([q1] ++ mid ++ [q2]) = false).
    { cbn [app double_quoted].
      assert (L : last_char (q1 :: mid ++ [q2]) = Some q2).
      { clear. revert q1. induction mid as [|a mid IH]; intros q1; [reflexivity|].
        cbn [app last_char]. apply (IH a). }
      rewrite L.
      destruct (N.eqb q1 dquote) eqn:E1; [|reflexivity].
      destruct (N.eqb q2 dquote) eqn:E2; [|reflexivity].
      apply N.eqb_eq in E1, E2. congruence. }
    rewrite D. cbn [app strip_quotes]. rewrite Q1, drop_final_quote_snoc, Q2.
    reflexivity.
  - rewrite process_value_scan. reflexivity.
  - rewrite CreateFromContent_eq. vm_compute. reflexivity.
Qed.

Lemma C10_witness :
  process_value ([squote] ++ lit "v" ++ [dquote]) = lit "v"
  /\ process_value [dquote] = []
  /\ Env (CreateFromContent localize_default (lit "K='v" ++ [dquote]) (lit "f.env") None)
     = [mkEnv (lit "K") (lit "v")].
Proof.
  apply (C10_quotes_need_not_match localize_default (lit "f.env") squote dquote (lit "v")).
  - reflexivity.
  - reflexivity.
  - discriminate.
Defined.

End EnvFileSpec.

Import EnvFileSpec.

(* ===================================================================== *)
(** * Formatting the entries back and parsing them again *)
(* ===================================================================== *)

Module RoundTrip.

Unset Implicit Arguments.

(** ** What the parser emits from a file *)

Lemma scan_line_parts line k v :
  scan_line line = Some (k, v) -> valid_key k /\ forallb is_dot v = true.
Proof.
  unfold scan_line. intros H.
  pose proof (span_prefix_all is_key_char (snd (span is_space line))) as Hk.
  destruct (span is_key_char (snd (span is_space line))) as [key r]. cbn [fst] in Hk.
  destruct key as [|k0 key]; [discriminate|].
  unfold scan_assign in H. destruct (snd (span is_space r)) as [|c r4]; [discriminate|].
  destruct (N.eqb equals c); [|discriminate]. unfold scan_value in H.
  pose proof (span_prefix_all is_dot (snd (span is_space r4))) as Hv.
  destruct (span is_dot (snd (span is_space r4))) as [v' t]. cbn [fst] in Hv.
  destruct (forallb is_space t); [|discriminate].
  cbn in H. injection H as <- <-. repeat split; [discriminate|assumption|assumption].
Qed.

Lemma unescape_value_chars s :
  (forallb is_dot s = true -> forallb value_char (unescape_newlines s) = true)
  /\ forall a, forallb is_dot (a :: s) = true ->
               forallb value_char (unescape_newlines (a :: s)) = true.
Proof.
  induction s as [|b s [IH1 IH2]].
  - split; [reflexivity|]. intros a H. cbn in *. unfold value_char.
    apply andb_prop in H as [-> _]. reflexivity.
  - split; [apply IH2|]. intros a H. rewrite unescape_cons2.
    cbn [forallb] in H. apply andb_prop in H as [Ha H].
    destruct (N.eqb backslash a && N.eqb letter_n b).
    + cbn [forallb]. apply andb_prop in H as [_ H]. rewrite (IH1 H). reflexivity.
    + cbn [forallb]. rewrite (IH2 b H). unfold value_char. now rewrite Ha.
Qed.

Lemma strip_leading_Forall (P : char -> Prop) s :
  Forall P s -> Forall P (strip_leading_quote s).
Proof.
  intros H. destruct s as [|c s]; [constructor|]. cbn.
  destruct (is_quote c); [now inversion H|assumption].
Qed.

Lemma strip_quotes_Forall (P : char -> Prop) s :
  Forall P s -> Forall P (strip_quotes s).
Proof.
  intros H. rewrite strip_quotes_spec. unfold strip_trailing_quote.
  apply Forall_rev, strip_leading_Forall, Forall_rev, strip_leading_Forall, H.
Qed.

Lemma process_value_chars v :
  forallb is_dot v = true -> forallb value_char (process_value v) = true.
Proof.
  intros H. rewrite process_value_scan. apply forallb_forall, Forall_forall.
  apply strip_quotes_Forall, Forall_forall, forallb_forall.
  destruct (double_quoted v).
  - now apply (proj1 (unescape_value_chars v)).
  - apply forallb_forall. intros c Hc. unfold value_char.
    rewrite forallb_forall in H. now rewrite (H c Hc).
Qed.

(** A value with a line feed has gone through the unescaping, which
    leaves no backslash followed by n. *)
Lemma has_escaped_tail a s :
  has_escaped_newline (a :: s) = false -> has_escaped_newline s = false.
Proof.
  destruct s as [|b s]; [reflexivity|]. rewrite has_escaped_cons2.
  intros H. now apply orb_false_elim in H.
Qed.

Lemma has_escaped_prefix s : forall t,
  has_escaped_newline (s ++ t) = false -> has_escaped_newline s = false.
Proof.
  induction s as [|a s IH]; intros t H; [reflexivity|].
  destruct s as [|b s]; [reflexivity|].
  cbn [app] in H. rewrite has_escaped_cons2 in *.
  apply orb_false_elim in H as [H1 H2]. rewrite H1. cbn [orb].
  now apply (IH t).
Qed.

Lemma has_escaped_strip_quotes s :
  has_escaped_newline s = false -> has_escaped_newline (strip_quotes s) = false.
Proof.
  intros H. rewrite strip_quotes_spec, <- drop_final_quote_trailing.
  assert (H1 : has_escaped_newline (strip_leading_quote s) = false).
  { destruct s as [|c s]; [reflexivity|]. cbn [strip_leading_quote].
    destruct (is_quote c); [now apply has_escaped_tail in H|exact H]. }
  revert H1. generalize (strip_leading_quote s). clear. intros s H.
  destruct s as [|c s] using rev_ind; [reflexivity|].
  rewrite drop_final_quote_snoc. destruct (is_quote c); [|exact H].
  now apply has_escaped_prefix in H.
Qed.

Lemma dot_not_LF s : forallb is_dot s = true -> forallb not_LF s = true.
Proof.
  rewrite !forallb_forall. intros H c Hc. specialize (H c Hc).
  unfold not_LF. destruct (N.eqb c LF) eqn:E; [|reflexivity].
  apply N.eqb_eq in E. subst c. discriminate H.
Qed.

Lemma process_value_unescaped v :
  forallb is_dot v = true ->
  forallb not_LF (process_value v) = true
  \/ has_escaped_newline (process_value v) = false.
Proof.
  intros H. rewrite process_value_scan. destruct (double_quoted v).
  - right. apply has_escaped_strip_quotes, no_escaped_newline_left.
  - left. apply forallb_forall, Forall_forall, strip_quotes_Forall, Forall_forall,
      forallb_forall. now apply dot_not_LF.
Qed.

Lemma assignments_good lines : Forall good_entry (assignments lines).
Proof.
  unfold assignments. apply Forall_flat_map, Forall_forall. intros l _.
  rewrite line_assignment_scan. destruct (scan_line l) as [[k v]|] eqn:E;
    cbn [option_map]; [|constructor].
  apply scan_line_parts in E as [Hk Hv]. constructor; [|constructor].
  split; [exact Hk|split; [now apply process_value_chars|]].
  now apply process_value_unescaped.
Qed.

Lemma Map_set_Forall (P : jsstring * jsstring -> Prop) k v m :
  Forall P m -> P (k, v) -> Forall P (Map_set k v m).
Proof.
  intros Hm Hkv. induction m as [|[k0 v0] m IH]; cbn.
  - now constructor.
  - inversion Hm as [|? ? H0 Hm']; subst.
    destruct (string_eqb k0 k) eqn:E.
    + apply string_eqb_eq in E. subst k0. now constructor.
    + constructor; [assumption|now apply IH].
Qed.

Lemma set_all_Forall (P : jsstring * jsstring -> Prop) assigns : forall m,
  Forall P m -> Forall P assigns -> Forall P (set_all assigns m).
Proof.
  induction assigns as [|[k v] assigns IH]; intros m Hm Ha; [exact Hm|].
  inversion Ha; subst. cbn. apply IH; [|assumption]. now apply Map_set_Forall.
Qed.

(** The entries emitted are the entries of a map with unique, well-formed
    keys, when those of the baseline are well formed. *)
Lemma emitted_entries (localize : localize_t) content envFile initialEnv :
  Forall good_entry (baseline initialEnv) ->
  exists m,
    Env (CreateFromContent localize content envFile initialEnv)
    = map (fun kv => mkEnv (fst kv) (snd kv)) m
    /\ NoDup (Map_keys m) /\ Forall good_entry m.
Proof.
  intros Hb. rewrite CreateFromContent_eq. cbn [Env].
  set (m := set_all (baseline initialEnv
                     ++ assignments (split_lines (strip_bom content))) []).
  assert (N : NoDup (Map_keys m)) by (apply set_all_NoDup; constructor).
  exists m. split; [|split].
  - replace (map (fun kv => mkEnv (fst kv) (snd kv)) m)
      with (map (fun kv => mkEnv (fst kv) (snd kv))
                (map (fun key => (key, Map_get key m)) (Map_keys m)))
      by (now rewrite Map_entries).
    now rewrite map_map.
  - exact N.
  - apply set_all_Forall; [constructor|].
    apply Forall_app. split; [exact Hb|apply assignments_good].
Qed.

(** ** Reading a formatted line *)

Lemma key_char_not_LF c : is_key_char c = true -> not_LF c = true.
Proof.
  intros H. unfold not_LF. destruct (N.eqb c LF) eqn:E; [|reflexivity].
  apply N.eqb_eq in E. subst c. vm_compute in H. discriminate.
Qed.

Lemma key_char_not_BOM c : is_key_char c = true -> N.eqb c BOM = false.
Proof.
  intros H. destruct (N.eqb c BOM) eqn:E; [|reflexivity].
  apply N.eqb_eq in E. subst c. vm_compute in H. discriminate.
Qed.

Lemma value_dot v :
  forallb value_char v = true -> forallb not_LF v = true -> forallb is_dot v = true.
Proof.
  rewrite !forallb_forall. intros H1 H2 c Hc.
  specialize (H1 c Hc). specialize (H2 c Hc). unfold value_char, not_LF in *.
  destruct (is_dot c); [reflexivity|]. cbn in H1. rewrite H1 in H2. discriminate.
Qed.

Lemma span_none p s : stops p s -> span p s = ([], s).
Proof. intros H. exact (span_unique p [] s eq_refl H). Qed.

Lemma scan_formatted k v :
  valid_key k -> forallb is_dot v = true ->
  match v with [] => True | c :: _ => is_space c = false end ->
  scan_line (k ++ [equals] ++ v) = Some (k, v).
Proof.
  intros [Hne Hk] Hv Hhead. destruct k as [|k0 k]; [congruence|].
  assert (Hk0 : is_key_char k0 = true) by (cbn in Hk; now apply andb_prop in Hk).
  unfold scan_line.
  rewrite (span_none is_space ((k0 :: k) ++ [equals] ++ v))
    by (cbn; now apply key_char_not_space).
  cbn [snd].
  rewrite (span_unique is_key_char (k0 :: k) ([equals] ++ v));
    [ | exact Hk | reflexivity ].
  unfold scan_assign. cbn [app span]. change (is_space equals) with false.
  cbn [snd]. rewrite N.eqb_refl. unfold scan_value.
  rewrite (span_none is_space v) by (destruct v; [exact I|exact Hhead]).
  cbn [snd]. rewrite (span_all is_dot v Hv). reflexivity.
Qed.

Lemma drop_final_quote_id s :
  match last_char s with Some c => is_quote c = false | None => True end ->
  drop_final_quote s = s.
Proof.
  induction s as [|a s IH]; [reflexivity|]. cbn [last_char drop_final_quote].
  destruct s as [|b s]; [intros ->; reflexivity|].
  intros H. f_equal. now apply IH.
Qed.

(** The escaped value holds no line terminator. *)
Lemma escape_dot v :
  forallb value_char v = true -> forallb is_dot (escape_newlines v) = true.
Proof.
  induction v as [|c v IH]; [reflexivity|]. cbn [forallb]. intros H.
  apply andb_prop in H as [Hc Hv]. unfold escape_newlines. cbn [flat_map].
  fold (escape_newlines v). rewrite forallb_app, (IH Hv), andb_true_r.
  destruct (N.eqb c LF) eqn:E; [reflexivity|].
  unfold value_char in Hc. rewrite E, orb_false_r in Hc. cbn [forallb].
  now rewrite Hc.
Qed.

Lemma quote_value_dot v :
  forallb value_char v = true -> forallb is_dot (quote_value v) = true.
Proof.
  intros H. unfold quote_value. destruct (forallb not_LF v) eqn:N.
  - rewrite !forallb_app, (value_dot v H N). reflexivity.
  - rewrite !forallb_app, (escape_dot v H). reflexivity.
Qed.

Lemma quote_value_head v :
  match quote_value v with [] => True | c :: _ => is_space c = false end.
Proof. unfold quote_value. destruct (forallb not_LF v); reflexivity. Qed.

(** Unescaping gives back what was escaped, when no backslash of the value
    is followed by n. *)
Lemma unescape_escape v :
  has_escaped_newline v = false -> unescape_newlines (escape_newlines v) = v.
Proof.
  induction v as [|c v IH]; [reflexivity|]. intros H.
  pose proof (has_escaped_tail c v H) as Hv. specialize (IH Hv).
  unfold escape_newlines. cbn [flat_map]. fold (escape_newlines v).
  destruct (N.eqb c LF) eqn:E.
  - apply N.eqb_eq in E. subst c. cbn [app]. rewrite unescape_cons2.
    change (N.eqb backslash backslash && N.eqb letter_n letter_n) with true.
    cbv iota. now rewrite IH.
  - cbn [app]. destruct (escape_newlines v) as [|b s] eqn:Es.
    + destruct v as [|d v]; [reflexivity|].
      unfold escape_newlines in Es. cbn [flat_map] in Es.
      destruct (N.eqb d LF); discriminate Es.
    + rewrite unescape_cons2.
      destruct (N.eqb backslash c && N.eqb letter_n b) eqn:P.
      * exfalso. destruct v as [|d v]; [discriminate Es|].
        unfold escape_newlines in Es. cbn [flat_map] in Es.
        rewrite has_escaped_cons2 in H. apply orb_false_elim in H as [H _].
        apply andb_prop in P as [Pc Pb].
        destruct (N.eqb d LF) eqn:Ed.
        -- cbn [app] in Es. injection Es as <- _. discriminate Pb.
        -- cbn [app] in Es. injection Es as <- _. now rewrite Pc, Pb in H.
      * now rewrite IH.
Qed.

(** The parser takes the quotes off and gives the value back. *)
Lemma process_quoted v :
  forallb not_LF v = true \/ has_escaped_newline v = false ->
  process_value (quote_value v) = v.
Proof.
  intros H. unfold quote_value. destruct (forallb not_LF v) eqn:N.
  - apply process_single_quoted.
  - destruct H as [H|H]; [discriminate H|].
    rewrite process_double_quoted. now apply unescape_escape.
Qed.

Lemma split_lines_one l : forallb not_LF l = true -> split_lines l = [l].
Proof.
  induction l as [|c l IH]; [reflexivity|]. cbn [forallb split_lines].
  intros H. apply andb_prop in H as [Hc Hl]. unfold not_LF in Hc.
  rewrite negb_true_iff in Hc. rewrite Hc, (IH Hl). reflexivity.
Qed.

Lemma split_lines_app l rest :
  forallb not_LF l = true -> split_lines (l ++ LF :: rest) = l :: split_lines rest.
Proof.
  induction l as [|c l IH]; intros H.
  - cbn [app split_lines]. now rewrite N.eqb_refl.
  - cbn [forallb] in H. apply andb_prop in H as [Hc Hl]. unfold not_LF in Hc.
    rewrite negb_true_iff in Hc. cbn [app split_lines]. rewrite Hc, (IH Hl). reflexivity.
Qed.

Lemma split_join ls :
  ls <> [] -> Forall (fun l => forallb not_LF l = true) ls ->
  split_lines (join_lines ls) = ls.
Proof.
  induction ls as [|l ls IH]; [congruence|]. intros _ H.
  inversion H as [|? ? Hl Hls]; subst. cbn [join_lines].
  destruct ls as [|l' ls]; [now apply split_lines_one|].
  cbn [app]. rewrite split_lines_app by assumption. f_equal.
  apply IH; [discriminate|assumption].
Qed.

Lemma set_all_fresh l : forall m,
  NoDup (Map_keys m ++ map fst l) -> set_all l m = m ++ l.
Proof.
  induction l as [|[k v] l IH]; intros m H; [cbn; now rewrite app_nil_r|].
  cbn [set_all fold_left fst snd].
  change (fold_left _ l (Map_set k v m)) with (set_all l (Map_set k v m)).
  assert (A : mem k (Map_keys m) = false).
  { destruct (mem k (Map_keys m)) eqn:E; [|reflexivity]. apply mem_In in E.
    cbn [map fst] in H. apply NoDup_remove_2 in H. exfalso. apply H.
    apply in_or_app. now left. }
  rewrite (Map_set_absent k v m A), IH.
  - now rewrite <- app_assoc.
  - unfold Map_keys in *. rewrite map_app, <- app_assoc. exact H.
Qed.

Lemma formatted_line_no_LF kv :
  good_entry kv -> forallb not_LF (format_pair kv) = true.
Proof.
  intros [[_ Hk] [Hv _]]. unfold format_pair. rewrite !forallb_app.
  apply andb_true_intro. split.
  - apply forallb_forall. intros c Hc. apply key_char_not_LF.
    rewrite forallb_forall in Hk. now apply Hk.
  - apply andb_true_intro. split; [reflexivity|].
    now apply dot_not_LF, quote_value_dot.
Qed.

Lemma formatted_line_assignment kv :
  good_entry kv -> line_assignment (format_pair kv) = Some kv.
Proof.
  intros [Hk [Hc Hu]]. rewrite line_assignment_scan. unfold format_pair.
  rewrite scan_formatted;
    [ | exact Hk | now apply quote_value_dot | apply quote_value_head ].
  cbn [option_map fst snd]. rewrite (process_quoted _ Hu). now destruct kv.
Qed.

Lemma formatted_assignments m :
  Forall good_entry m -> assignments (map format_pair m) = m.
Proof.
  induction m as [|kv m IH]; intros H; [reflexivity|].
  inversion H as [|? ? Hkv Hm]; subst. cbn [map]. rewrite assignments_cons, (IH Hm).
  unfold assignments. cbn [flat_map]. now rewrite (formatted_line_assignment kv Hkv).
Qed.

Lemma strip_bom_key k s :
  valid_key k -> strip_bom (k ++ s) = k ++ s.
Proof.
  intros [Hne Hk]. destruct k as [|c k]; [congruence|]. cbn [app strip_bom].
  cbn in Hk. apply andb_prop in Hk as [Hc _]. now rewrite (key_char_not_BOM c Hc).
Qed.

Lemma format_env_entries m :
  format_env (map entry_of m) = join_lines (map format_pair m).
Proof. unfold format_env. now rewrite map_map. Qed.

Lemma join_lines_head l ls :
  exists s, join_lines (l :: ls) = l ++ s.
Proof.
  cbn [join_lines]. destruct ls; [exists []; now rewrite app_nil_r|eauto].
Qed.

Lemma entries_of_map m :
  NoDup (Map_keys m) ->
  map (fun key => mkEnv key (Map_get key m)) (Map_keys m) = map entry_of m.
Proof.
  intros N.
  replace (map entry_of m)
    with (map entry_of (map (fun key => (key, Map_get key m)) (Map_keys m)))
    by (now rewrite Map_entries).
  now rewrite map_map.
Qed.

(** Parsing the formatted entries of a map of such entries gives the map
    back. *)
Lemma reparse_formatted (localize : localize_t) envFile m :
  NoDup (Map_keys m) -> Forall good_entry m ->
  Env (CreateFromContent localize (format_env (map entry_of m)) envFile None)
  = map entry_of m.
Proof.
  intros N P. rewrite CreateFromContent_eq. cbn [Env baseline app].
  rewrite format_env_entries.
  destruct m as [|kv m]; [reflexivity|].
  assert (B : strip_bom (join_lines (map format_pair (kv :: m)))
              = join_lines (map format_pair (kv :: m))).
  { cbn [map]. destruct (join_lines_head (format_pair kv) (map format_pair m)) as [s ->].
    unfold format_pair. rewrite <- app_assoc. apply strip_bom_key.
    inversion P as [|? ? [Hk _] _]. exact Hk. }
  rewrite B, split_join.
  - rewrite (formatted_assignments _ P), set_all_fresh by exact N.
    cbn [app]. now apply entries_of_map.
  - discriminate.
  - apply Forall_map. revert P. apply Forall_impl. intros a.
    apply formatted_line_no_LF.
Qed.

(** C8: for every text, the entries that the parser emits, formatted back
    as KEY=VALUE lines with the value between quotes, are parsed to the
    same entries again: same names, same order, same values.  So it is
    with a baseline whose entries are such as the parser emits.  The text
    A= followed by x, backslash, n, y between double quotes gives a value
    with a line feed, which is written back as it stood in the text. *)
Theorem C8_round_trip_up_to_quoting
        (localize localize' : localize_t) (content envFile envFile' : jsstring) :
  let es := Env (CreateFromContent localize content envFile None) in
  Env (CreateFromContent localize' (format_env es) envFile' None) = es
  /\ (forall initialEnv : list Environment,
        Forall (fun e => good_entry (name e, value e)) initialEnv ->
        let merged := Env (CreateFromContent localize content envFile (Some initialEnv)) in
        Env (CreateFromContent localize' (format_env merged) envFile' None) = merged)
  /\ (let quoted := lit "A=" ++ [dquote] ++ lit "x" ++ [backslash; letter_n] ++ lit "y"
                       ++ [dquote] in
      Env (CreateFromContent localize quoted envFile None)
      = [mkEnv (lit "A") (lit "x" ++ [LF] ++ lit "y")]
      /\ format_env (Env (CreateFromContent localize quoted envFile None)) = quoted)
  /\ format_env (Env (CreateFromContent localize (lit " B = it's # so  ") envFile None))
     = lit "B='it's # so  '".
Proof.
  cbv zeta. split; [|split; [|split; [split|]]].
  - destruct (emitted_entries localize content envFile None) as (m & E & N & G);
      [constructor|].
    rewrite E. now apply (reparse_formatted localize' envFile' m).
  - intros initialEnv Hb.
    destruct (emitted_entries localize content envFile (Some initialEnv))
      as (m & E & N & G); [cbn [baseline]; now apply Forall_map|].
    rewrite E. now apply (reparse_formatted localize' envFile' m).
  - rewrite CreateFromContent_eq. vm_compute. reflexivity.
  - rewrite CreateFromContent_eq. vm_compute. reflexivity.
  - rewrite CreateFromContent_eq. vm_compute. reflexivity.
Qed.

End RoundTrip.

Import RoundTrip.

(* ===================================================================== *)
(** * The update cycle: download, fallback and report *)
(* ===================================================================== *)

Module UpdateFacts.

Unset Implicit Arguments.

#[local] Arguments lit : simpl never.
#[local] Arguments err : simpl never.
#[local] Arguments differs : simpl never.
#[local] Arguments config_get : simpl never.
#[local] Arguments string_eqb : simpl never.

Lemma differs_refl g : differs g g = false.
Proof.
  destruct g as [x|]; [|reflexivity]. unfold differs. now rewrite string_eqb_refl.
Qed.

(** ** The steps of a cycle *)

Lemma await_host_run w : await_host w = (tt, after_await w, []).
Proof.
  unfold after_await, await_host.
  now destruct (carry_out (one_await (pendingWrites w)) (config w)) as [q c].
Qed.

Lemma config_update_run latency v w :
  config_update latency v w = (tt, after_update latency v w, [EvConfigUpdate v]).
Proof.
  unfold after_update, config_update.
  now destruct (carry_out (pendingWrites w ++ [(latency, v)]) (config w)) as [q c].
Qed.

Lemma same_session_refl w : same_session w w.
Proof. repeat split. Qed.

Lemma same_session_trans w1 w2 w3 :
  same_session w1 w2 -> same_session w2 w3 -> same_session w1 w3.
Proof.
  intros (A1 & A2 & A3 & A4) (B1 & B2 & B3 & B4). repeat split; congruence.
Qed.

Lemma after_await_session w : same_session w (after_await w).
Proof.
  unfold after_await, await_host.
  destruct (carry_out (one_await (pendingWrites w)) (config w)) as [q c].
  repeat split.
Qed.

Lemma after_update_session latency v w : same_session w (after_update latency v w).
Proof.
  unfold after_update, config_update.
  destruct (carry_out (pendingWrites w ++ [(latency, v)]) (config w)) as [q c].
  repeat split.
Qed.

(** One round of the loop. *)
Lemma download_loop_round ext url o fuel attempt w :
  download_loop ext url o (S fuel) attempt w
  = let w1 := after_await w in
    let d := EvDownload url attempt (download ext attempt) in
    let latency := writeLatency ext attempt in
    if download ext attempt then
      if differs o (globalValue (config w1))
      then (Break, after_update latency o w1, [d; EvConfigUpdate o; proxyOffSuccess])
      else (Break, w1, [d])
    else if differs o (globalValue (config w1))
    then (Return (err "Failed to download VSIX package with proxySupport off"),
          after_update latency o w1, [d; EvConfigUpdate o])
    else if negb (string_eqb (config_get (config w1)) off) && differs o (Some off)
    then
      let r := download_loop ext url o fuel (S attempt)
                             (after_update latency (Some off) w1) in
      (result r, world r, d :: EvConfigUpdate (Some off) :: events r)
    else (Return (err "Failed to download VSIX package"), w1, [d]).
Proof.
  cbn [download_loop]. unfold bind at 1. rewrite await_host_run.
  unfold bind at 1. unfold emit at 1. cbv zeta.
  destruct (download ext attempt).
  - unfold bind at 1. unfold inspect_global at 1.
    destruct (differs o (globalValue (config (after_await w)))).
    + unfold bind at 1 2. rewrite config_update_run. reflexivity.
    + reflexivity.
  - unfold bind at 1. unfold inspect_global at 1.
    destruct (differs o (globalValue (config (after_await w)))).
    + unfold bind at 1. rewrite config_update_run. reflexivity.
    + unfold bind at 1. unfold get_effective at 1.
      destruct (negb (string_eqb (config_get (config (after_await w))) off)
                && differs o (Some off)).
      * unfold bind at 1. rewrite config_update_run.
        now destruct (download_loop ext url o fuel (S attempt) _) as [[r w'] t].
      * reflexivity.
Qed.

Lemma download_loop_session ext url o fuel : forall attempt w,
  same_session w (world (download_loop ext url o fuel attempt w)).
Proof.
  induction fuel as [|fuel IH]; intros attempt w; [apply same_session_refl|].
  rewrite download_loop_round. cbv zeta.
  pose proof (after_await_session w) as A.
  destruct (download ext attempt).
  - destruct (differs o _); [|exact A].
    exact (same_session_trans _ _ _ A (after_update_session _ _ _)).
  - destruct (differs o _).
    + exact (same_session_trans _ _ _ A (after_update_session _ _ _)).
    + destruct (_ && _); [|exact A].
      cbn [world fst snd].
      exact (same_session_trans _ _ _
               (same_session_trans _ _ _ A (after_update_session _ _ _)) (IH _ _)).
Qed.

Lemma download_loop_events ext url o fuel : forall attempt w,
  Forall (loop_event url) (events (download_loop ext url o fuel attempt w)).
Proof.
  assert (D : forall n ok, loop_event url (EvDownload url n ok))
    by (intros n ok; left; now exists n, ok).
  assert (U : forall v, loop_event url (EvConfigUpdate v))
    by (intros v; right; left; now exists v).
  assert (P : loop_event url proxyOffSuccess) by (right; right; reflexivity).
  induction fuel as [|fuel IH]; intros attempt w; [constructor|].
  rewrite download_loop_round. cbv zeta.
  destruct (download ext attempt).
  - destruct (differs o _); cbn [events snd];
      repeat (apply Forall_cons; [solve [auto]|]); apply Forall_nil.
  - destruct (differs o _);
      [cbn [events snd]; repeat (apply Forall_cons; [solve [auto]|]); apply Forall_nil|].
    destruct (_ && _);
      [|cbn [events snd]; repeat (apply Forall_cons; [solve [auto]|]); apply Forall_nil].
    cbn [events snd]. apply Forall_cons; [auto|]. apply Forall_cons; [auto|]. apply IH.
Qed.

(** The loop is left by [break] only after a download that succeeded. *)
Lemma download_loop_break ext url o fuel : forall attempt w,
  result (download_loop ext url o fuel attempt w) = Break ->
  exists n, In (EvDownload url n true) (events (download_loop ext url o fuel attempt w)).
Proof.
  induction fuel as [|fuel IH]; intros attempt w; [discriminate|].
  rewrite download_loop_round. cbv zeta.
  destruct (download ext attempt) eqn:D.
  - intros _. exists attempt. destruct (differs o _); now left.
  - destruct (differs o _); [discriminate|].
    destruct (_ && _); [|discriminate].
    cbn [result events fst snd]. intros H. destruct (IH _ _ H) as [n Hn].
    exists n. right. right. exact Hn.
Qed.

Lemma download_loop_return ext url o fuel e : forall attempt w,
  result (download_loop ext url o fuel attempt w) = Return e ->
  e = err "Failed to download VSIX package with proxySupport off"
  \/ e = err "Failed to download VSIX package".
Proof.
  induction fuel as [|fuel IH]; intros attempt w; [discriminate|].
  rewrite download_loop_round. cbv zeta.
  destruct (download ext attempt).
  - destruct (differs o _); discriminate.
  - destruct (differs o _); [intros H; injection H as <-; now left|].
    destruct (_ && _); [|intros H; injection H as <-; now right].
    cbn [result fst]. apply IH.
Qed.

(** ** The loop is left *)

Lemma waiting_app q1 q2 : waiting (q1 ++ q2) = waiting q1 + waiting q2.
Proof.
  induction q1 as [|[n v] q1 IH]; [reflexivity|]. cbn [app waiting fold_right fst] in *.
  unfold waiting in *. rewrite IH. lia.
Qed.

Lemma urgency_app q1 q2 : urgency (q1 ++ q2) = urgency q1 + urgency q2.
Proof. unfold urgency. rewrite waiting_app, length_app. lia. Qed.

Lemma urgency_cons n v q : urgency ((n, v) :: q) = S (n + urgency q).
Proof. unfold urgency, waiting. cbn [fold_right fst List.length]. lia. Qed.

Lemma carry_out_offs r : forall c,
  writes_off r -> globalValue c = Some off ->
  writes_off (fst (carry_out r c)) /\ globalValue (snd (carry_out r c)) = Some off.
Proof.
  induction r as [|[n v] r IH]; intros c Hr Hc; [now split|].
  inversion Hr as [|? ? Hv Hr']; subst. cbn [snd] in Hv. subst v.
  destruct n as [|n]; [|now split].
  cbn [carry_out]. now apply IH.
Qed.

(** Carrying out writes keeps the host heading for off. *)
Lemma carry_out_heading q : forall r c,
  writes_off r -> heading_off q c ->
  exists Q R,
    fst (carry_out (q ++ r) c) = Q ++ R /\ writes_off R
    /\ heading_off Q (snd (carry_out (q ++ r) c))
    /\ urgency Q <= urgency q
    /\ (forall v q1, q = (0, v) :: q1 -> urgency Q < urgency q).
Proof.
  induction q as [|[n v] q IH]; intros r c Hr Hq.
  - cbn [app]. cbn [heading_off] in Hq.
    destruct (carry_out_offs r c Hr Hq) as [H1 H2].
    exists [], (fst (carry_out r c)). cbn [app heading_off].
    split; [reflexivity|split; [exact H1|split; [exact H2|split; [lia|]]]].
    intros v q1 E. discriminate E.
  - destruct n as [|n].
    + cbn [app carry_out].
      assert (Hq1 : heading_off q (config_update_global v c)).
      { destruct q as [|x q]; [exact Hq|]. exact Hq. }
      destruct (IH r (config_update_global v c) Hr Hq1) as (Q & R & E & HR & HQ & Hu & _).
      exists Q, R. rewrite urgency_cons.
      split; [exact E|split; [exact HR|split; [exact HQ|split; [lia|]]]].
      intros v' q1 _. lia.
    + exists ((S n, v) :: q), r. cbn [app carry_out fst snd].
      split; [reflexivity|split; [exact Hr|split; [exact Hq|split; [apply Nat.le_refl|]]]].
      intros v' q1 E. discriminate E.
Qed.

Lemma heading_off_wait n v q c :
  heading_off ((S n, v) :: q) c -> heading_off ((n, v) :: q) c.
Proof. destruct q as [|x q]; intros H; exact H. Qed.

(** An await brings the host nearer to off. *)
Lemma await_heading w q r :
  pendingWrites w = q ++ r -> writes_off r -> heading_off q (config w) ->
  exists Q R,
    pendingWrites (after_await w) = Q ++ R /\ writes_off R
    /\ heading_off Q (config (after_await w))
    /\ (q = [] -> Q = []) /\ (q <> [] -> urgency Q < urgency q).
Proof.
  intros E Hr Hq.
  assert (P : pendingWrites (after_await w)
              = fst (carry_out (one_await (pendingWrites w)) (config w))
              /\ config (after_await w)
                 = snd (carry_out (one_await (pendingWrites w)) (config w))).
  { unfold after_await, await_host.
    now destruct (carry_out (one_await (pendingWrites w)) (config w)) as [q' c']. }
  destruct P as [P1 P2]. rewrite P1, P2, E. clear P1 P2.
  destruct q as [|[n v] q].
  - cbn [app].
    assert (Hr' : writes_off (one_await r)).
    { destruct r as [|[[|n] v] r]; try exact Hr.
      inversion Hr; subst. now constructor. }
    destruct (carry_out_offs (one_await r) (config w) Hr' Hq) as [H1 H2].
    exists [], (fst (carry_out (one_await r) (config w))). cbn [app heading_off].
    split; [reflexivity|split; [exact H1|split; [exact H2|split; [reflexivity|]]]].
    intros H. now elim H.
  - destruct n as [|n].
    + cbn [app one_await].
      destruct (carry_out_heading ((0, v) :: q) r (config w) Hr Hq)
        as (Q & R & E1 & HR & HQ & _ & Hlt).
      exists Q, R.
      split; [exact E1|split; [exact HR|split; [exact HQ|split; [discriminate|]]]].
      intros _. exact (Hlt v q eq_refl).
    + cbn [app one_await].
      destruct (carry_out_heading ((n, v) :: q) r (config w) Hr
                  (heading_off_wait n v q (config w) Hq))
        as (Q & R & E1 & HR & HQ & Hu & _).
      exists Q, R.
      split; [exact E1|split; [exact HR|split; [exact HQ|split; [discriminate|]]]].
      intros _. rewrite !urgency_cons in *. lia.
Qed.

Lemma after_update_parts latency v w :
  pendingWrites (after_update latency v w)
  = fst (carry_out (pendingWrites w ++ [(latency, v)]) (config w))
  /\ config (after_update latency v w)
     = snd (carry_out (pendingWrites w ++ [(latency, v)]) (config w)).
Proof.
  unfold after_update, config_update.
  now destruct (carry_out (pendingWrites w ++ [(latency, v)]) (config w)) as [q' c'].
Qed.

Lemma writes_off_snoc r latency : writes_off r -> writes_off (r ++ [(latency, Some off)]).
Proof.
  intros H. apply Forall_app. split; [exact H|]. now constructor.
Qed.

(** Once the host is heading for off, the loop is left before the fuel
    is used up. *)
Lemma download_loop_leaves ext url o :
  differs o (Some off) = true ->
  forall fuel attempt w q r,
    pendingWrites w = q ++ r -> writes_off r -> heading_off q (config w) ->
    urgency q < fuel ->
    result (download_loop ext url o fuel attempt w) <> OutOfFuel.
Proof.
  intros Ho. induction fuel as [|fuel IH]; intros attempt w q r E Hr Hq Hu; [lia|].
  rewrite download_loop_round. cbv zeta.
  destruct (await_heading w q r E Hr Hq) as (Q & R & E1 & HR & HQ & Hnil & Hlt).
  destruct (download ext attempt).
  - destruct (differs o (globalValue (config (after_await w))));
      cbn [result fst]; discriminate.
  - destruct (differs o (globalValue (config (after_await w)))) eqn:D; [cbn [result fst]; discriminate|].
    destruct (_ && _); [|cbn [result fst]; discriminate].
    cbn [result fst].
    destruct q as [|x q].
    { rewrite (Hnil eq_refl) in HQ. cbn [heading_off] in HQ.
      rewrite HQ, Ho in D. discriminate D. }
    assert (Hlt' : urgency Q < urgency (x :: q)) by (apply Hlt; discriminate).
    destruct (after_update_parts (writeLatency ext attempt) (Some off) (after_await w))
      as [P1 P2].
    rewrite E1, <- app_assoc in P1, P2.
    destruct (carry_out_heading Q (R ++ [(writeLatency ext attempt, Some off)])
                (config (after_await w)) (writes_off_snoc R _ HR) HQ)
      as (Q2 & R2 & E2 & HR2 & HQ2 & Hu2 & _).
    apply (IH (S attempt) _ Q2 R2).
    + now rewrite P1.
    + exact HR2.
    + now rewrite P2.
    + lia.
Qed.

Lemma await_urgency w : urgency (pendingWrites (after_await w)) <= urgency (pendingWrites w).
Proof.
  assert (C : forall q c, urgency (fst (carry_out q c)) <= urgency q).
  { induction q as [|[[|n] v] q IH]; intros c; cbn [carry_out fst]; [lia| |lia].
    rewrite urgency_cons. specialize (IH (config_update_global v c)). lia. }
  assert (P : pendingWrites (after_await w)
              = fst (carry_out (one_await (pendingWrites w)) (config w))).
  { unfold after_await, await_host.
    now destruct (carry_out (one_await (pendingWrites w)) (config w)) as [q' c']. }
  rewrite P. specialize (C (one_await (pendingWrites w)) (config w)).
  destruct (pendingWrites w) as [|[[|n] v] q]; cbn [one_await] in *;
    rewrite ?urgency_cons in *; lia.
Qed.

(** The [while (true)] loop is left: the fuel that [loop_bound] gives is
    never used up. *)
Lemma download_loop_terminates ext url o w :
  result (download_loop ext url o (result (loop_bound ext w)) 0 w) <> OutOfFuel.
Proof.
  unfold loop_bound. cbn [result fst].
  change (3 + waiting (pendingWrites w) + List.length (pendingWrites w) + writeLatency ext 0)
    with (S (2 + waiting (pendingWrites w) + List.length (pendingWrites w)
             + writeLatency ext 0)).
  rewrite download_loop_round. cbv zeta.
  destruct (download ext 0).
  - destruct (differs o (globalValue (config (after_await w))));
      cbn [result fst]; discriminate.
  - destruct (differs o (globalValue (config (after_await w))));
      [cbn [result fst]; discriminate|].
    destruct (negb (string_eqb (config_get (config (after_await w))) off)
              && differs o (Some off)) eqn:T; [|cbn [result fst]; discriminate].
    apply andb_prop in T as [_ Ho]. cbn [result fst].
    destruct (after_update_parts (writeLatency ext 0) (Some off) (after_await w))
      as [P1 P2].
    assert (Hh : heading_off (pendingWrites (after_await w) ++ [(writeLatency ext 0, Some off)])
                             (config (after_await w))).
    { unfold heading_off.
      destruct (pendingWrites (after_await w) ++ [(writeLatency ext 0, Some off)])
        as [|x l] eqn:El; [destruct (pendingWrites (after_await w)); discriminate El|].
      rewrite <- El, last_last. reflexivity. }
    destruct (carry_out_heading _ [] (config (after_await w)) (Forall_nil _) Hh)
      as (Q & R & E & HR & HQ & Hu & _).
    rewrite app_nil_r in E, HQ.
    apply (download_loop_leaves ext url o Ho _ 1 _ Q R).
    + now rewrite P1.
    + exact HR.
    + now rewrite P2.
    + rewrite urgency_app, urgency_cons in Hu.
      pose proof (await_urgency w) as A. unfold urgency in A, Hu |- *.
      change (waiting []) with 0 in Hu. cbn [List.length] in Hu. lia.
Qed.

(** ** The catch handler *)

Lemma applyUpdate_catch_run ext error w :
  applyUpdate_catch ext error w = (catch_result ext error, w, catch_trace error).
Proof.
  unfold applyUpdate_catch, catch_result, catch_trace.
  destruct (read_message error) as [m|]; [|reflexivity].
  now destruct m as [| |b0|msg|printed properties].
Qed.

Lemma read_message_error (e : Error) : read_message e = Some (VString (message e)).
Proof. reflexivity. Qed.

Lemma read_message_error_string (e : Error) : string_message e = Some (message e).
Proof. reflexivity. Qed.

Lemma catch_result_error ext (e : Error) : catch_result ext e = Fulfilled.
Proof. reflexivity. Qed.

Lemma catch_trace_error (e : Error) : catch_trace e = catch_events (message e).
Proof. reflexivity. Qed.

Lemma catch_result_string ext error msg :
  string_message error = Some msg -> catch_result ext error = Fulfilled.
Proof.
  unfold string_message, catch_result.
  destruct (read_message error) as [[| |b0|m|printed properties]|]; try discriminate.
  reflexivity.
Qed.

Lemma catch_trace_string error msg :
  string_message error = Some msg -> catch_trace error = catch_events msg.
Proof.
  unfold string_message, catch_trace.
  destruct (read_message error) as [[| |b0|m|printed properties]|]; try discriminate.
  intros H. now injection H as ->.
Qed.

Lemma catch_result_rejects ext error x :
  catch_result ext error = RejectedWith x -> string_message error = None.
Proof.
  unfold string_message, catch_result.
  destruct (read_message error) as [[| |b0|m|printed properties]|]; try reflexivity.
  discriminate.
Qed.

Lemma catch_result_other ext error :
  string_message error = None -> exists x, catch_result ext error = RejectedWith x.
Proof.
  unfold string_message, catch_result.
  destruct (read_message error) as [[| |b0|m|printed properties]|]; try discriminate;
    intros _; eauto.
Qed.

Lemma loop_bound_run ext w : loop_bound ext w = (result (loop_bound ext w), w, []).
Proof. reflexivity. Qed.

(** [applyUpdate] in one piece, given what the download loop did. *)
Lemma applyUpdate_run ext b w :
  applyUpdate ext b w
  = let w0 := after_await w in
    match tmpFile ext with
    | None =>
        (Fulfilled, w0,
         EvReject (err "Failed to create vsix file")
         :: catch_events (lit "Failed to create vsix file"))
    | Some vsixPath =>
        let r := download_loop ext (downloadUrl b) (globalValue (config w0))
                               (result (loop_bound ext w0)) 0 w0 in
        match result r with
        | Return e => (Fulfilled, world r, events r ++ EvReject e :: catch_events (message e))
        | OutOfFuel => (Pending, world r, events r)
        | Break =>
            let w2 := after_await (world r) in
            match installOutcome ext with
            | RejectedWith v =>
                (catch_result ext v, w2,
                 events r ++ EvInstall vsixPath :: EvReject v :: catch_trace v)
            | Pending => (Pending, w2, events r ++ [EvInstall vsixPath])
            | Fulfilled =>
                (Fulfilled, clear_timer w2,
                 events r ++ EvInstall vsixPath :: success_events b)
            end
        end
    end.
Proof.
  unfold applyUpdate, applyUpdate_executor. cbv zeta.
  unfold bind at 1 2. rewrite await_host_run.
  destruct (tmpFile ext) as [vsixPath|].
  - unfold bind at 1 2 3. unfold inspect_global at 1.
    rewrite (loop_bound_run ext (after_await w)).
    remember (result (loop_bound ext (after_await w))) as fuel eqn:Hfuel. clear Hfuel.
    change (result (fuel, after_await w, @nil Event)) with fuel. cbv beta iota zeta.
    destruct (download_loop ext (downloadUrl b) (globalValue (config (after_await w)))
                fuel 0 (after_await w))
      as [[r w1] t1].
    cbn [result world events fst snd].
    destruct r as [|e|].
    + unfold bind at 1 2. unfold emit at 1. rewrite await_host_run.
      destruct (installOutcome ext) as [| |v].
      * cbn. rewrite <- ?app_assoc, ?app_nil_r. reflexivity.
      * cbn. rewrite <- ?app_assoc, ?app_nil_r. reflexivity.
      * unfold reject, bind, emit, ret. rewrite applyUpdate_catch_run.
        cbn [app]. rewrite <- ?app_assoc, ?app_nil_r. reflexivity.
    + unfold reject, bind, emit, ret. rewrite applyUpdate_catch_run.
      rewrite catch_result_error, catch_trace_error.
      cbn [app]. rewrite <- ?app_assoc, ?app_nil_r. reflexivity.
    + cbn. now rewrite ?app_nil_r.
  - unfold reject, bind, emit, ret. rewrite applyUpdate_catch_run. reflexivity.
Qed.

Lemma without_cache_await w : after_await (without_cache w) = without_cache (after_await w).
Proof.
  unfold after_await, await_host, without_cache. cbn [pendingWrites config].
  now destruct (carry_out (one_await (pendingWrites w)) (config w)) as [q c].
Qed.

Lemma checkAndApplyUpdate_run ext ch w :
  checkAndApplyUpdate ext ch w
  = match buildInfoCache w with
    | Some b => applyUpdate ext b (without_cache w)
    | None =>
        let w0 := after_await (without_cache w) in
        match getTargetBuildInfo ext ch with
        | FeedBuild b => applyUpdate ext b w0
        | FeedNothing => (Fulfilled, w0, [])
        | FeedError e =>
            match read_message e with
            | Some m => (Fulfilled, w0, [feed_failure m])
            | None => (RejectedWith (typeError ext (lit "message")), w0, [])
            end
        end
    end.
Proof.
  unfold checkAndApplyUpdate.
  unfold bind at 1 2. unfold take_buildInfoCache at 1.
  fold (without_cache w).
  destruct (buildInfoCache w) as [b|].
  - cbn [ret app]. now destruct (applyUpdate ext b _) as [[p w'] t].
  - unfold bind at 1. rewrite await_host_run. cbv zeta.
    destruct (getTargetBuildInfo ext ch) as [b| |e].
    + cbn [ret app]. now destruct (applyUpdate ext b _) as [[p w'] t].
    + reflexivity.
    + destruct (read_message e) as [m|]; reflexivity.
Qed.

(** ** A host that writes at once *)

Lemma prompt_await w : pendingWrites w = [] -> after_await w = w.
Proof.
  intros H. unfold after_await, await_host. rewrite H. cbn.
  destruct w as [c q i t n b]. cbn in *. now subst q.
Qed.

Lemma prompt_update v w :
  pendingWrites w = [] -> after_update 0 v w = set_global v w.
Proof.
  intros H. unfold after_update, config_update, set_global. rewrite H. reflexivity.
Qed.

Lemma set_global_pending v w : pendingWrites (set_global v w) = pendingWrites w.
Proof. reflexivity. Qed.

(** The loop on such a host, round by round; more fuel than two rounds
    changes nothing. *)
Lemma download_loop_run ext url w fuel :
  prompt ext w ->
  download_loop ext url (globalValue (config w)) (S (S fuel)) 0 w
  = if download ext 0 then (Break, w, [EvDownload url 0 true])
    else if fallback_available w then
      let g := globalValue (config w) in
      let w' := set_global g (set_global (Some off) w) in
      if download ext 1 then
        (Break, w',
         [EvDownload url 0 false; EvConfigUpdate (Some off);
          EvDownload url 1 true; EvConfigUpdate g; proxyOffSuccess])
      else
        (Return (err "Failed to download VSIX package with proxySupport off"), w',
         [EvDownload url 0 false; EvConfigUpdate (Some off);
          EvDownload url 1 false; EvConfigUpdate g])
    else (Return (err "Failed to download VSIX package"), w, [EvDownload url 0 false]).
Proof.
  intros [Hp Hl]. unfold fallback_available.
  rewrite download_loop_round. cbv zeta. rewrite (prompt_await w Hp), differs_refl, Hl.
  destruct (download ext 0); [reflexivity|].
  destruct (negb (string_eqb (config_get (config w)) off)
            && differs (globalValue (config w)) (Some off)) eqn:F; [|reflexivity].
  apply andb_prop in F as [_ F].
  rewrite (prompt_update (Some off) w Hp).
  rewrite download_loop_round. cbv zeta.
  rewrite (prompt_await (set_global (Some off) w)) by exact Hp.
  rewrite Hl, (prompt_update _ (set_global (Some off) w)) by exact Hp.
  cbn [set_global with_config config globalValue config_update_global].
  rewrite F. now destruct (download ext 1).
Qed.

Lemma config_restored c :
  config_update_global (globalValue c) (config_update_global (Some off) c) = c.
Proof. now destruct c. Qed.

Lemma config_same c : config_update_global (globalValue c) c = c.
Proof. now destruct c. Qed.

Lemma not_fallback_change g :
  differs g (Some off) = true -> is_fallback_change (EvConfigUpdate g) = false.
Proof.
  destruct g as [v|]; [|reflexivity]. unfold differs, is_fallback_change.
  now rewrite negb_true_iff.
Qed.

End UpdateFacts.

Import UpdateFacts.

(* ===================================================================== *)
(** * Properties of the update cycle *)
(* ===================================================================== *)

Module UpdateSpec.

Unset Implicit Arguments.

#[local] Arguments lit : simpl never.
#[local] Arguments err : simpl never.
#[local] Arguments differs : simpl never.
#[local] Arguments config_get : simpl never.
#[local] Arguments string_eqb : simpl never.

(** C4 (the code differs): the calls of [config.update] are not awaited,
    so the retry starts, and the outcome is reported, before the host has
    written the setting.  On a host that takes two awaits for a write, with
    two failing downloads before a good one, the loop still reads the
    original value after the second failure: it asks for off a second time
    and downloads a third time, and when success is reported the user
    value is off; the host restores it later.  When every download fails
    there, the cycle is rejected after three downloads with the user value
    still off.  On a host that has written the setting by the end of the
    next await, two failing downloads give one change to off and its
    reversal, but the cycle is rejected while the user value is still
    off: nothing is awaited between the reversal and the rejection. *)
Theorem C4_setting_writes_are_not_awaited :
  let path := lit "/tmp/cpptools.vsix" in
  let third := applyUpdate (slow_host (Some path) (fun n => Nat.eqb n 2) Fulfilled
                                      (fun _ => FeedNothing))
                           example_build example_world in
  let never := applyUpdate (slow_host (Some path) (fun _ => false) Fulfilled
                                      (fun _ => FeedNothing))
                           example_build example_world in
  let soon := applyUpdate (mkExternals (Some path) (fun _ => false) Fulfilled
                                       (fun _ => FeedNothing) (fun _ => 1)
                                       example_typeError)
                          example_build example_world in
  (result third = Fulfilled
   /\ events third
      = [EvDownload (lit "u") 0 false; EvConfigUpdate (Some off);
         EvDownload (lit "u") 1 false; EvConfigUpdate (Some off);
         EvDownload (lit "u") 2 true; EvConfigUpdate None; proxyOffSuccess;
         EvInstall path] ++ success_events example_build
   /\ List.length (filter is_download (events third)) = 3
   /\ List.length (filter is_fallback_change (events third)) = 2
   /\ globalValue (config (world third)) = Some off
   /\ pendingWrites (world third) = [(1, Some off); (2, None)]
   /\ written (pendingWrites (world third)) (config (world third))
      = config example_world)
  /\ (result never = Fulfilled
      /\ events never
         = [EvDownload (lit "u") 0 false; EvConfigUpdate (Some off);
            EvDownload (lit "u") 1 false; EvConfigUpdate (Some off);
            EvDownload (lit "u") 2 false; EvConfigUpdate None;
            EvReject (err "Failed to download VSIX package with proxySupport off")]
           ++ catch_events (lit "Failed to download VSIX package with proxySupport off")
      /\ globalValue (config (world never)) = Some off)
  /\ (events soon
      = [EvDownload (lit "u") 0 false; EvConfigUpdate (Some off);
         EvDownload (lit "u") 1 false; EvConfigUpdate None;
         EvReject (err "Failed to download VSIX package with proxySupport off")]
        ++ catch_events (lit "Failed to download VSIX package with proxySupport off")
      /\ globalValue (config (world soon)) = Some off
      /\ pendingWrites (world soon) = [(1, None)]).
Proof.
  cbv zeta. split; [|split].
  - split; [vm_compute; reflexivity|]. split; [vm_compute; reflexivity|].
    split; [vm_compute; reflexivity|]. split; [vm_compute; reflexivity|].
    split; [vm_compute; reflexivity|]. split; vm_compute; reflexivity.
  - split; [vm_compute; reflexivity|]. split; vm_compute; reflexivity.
  - split; [vm_compute; reflexivity|]. split; vm_compute; reflexivity.
Qed.

Lemma applyUpdate_rejected ext b w x :
  result (applyUpdate ext b w) = RejectedWith x ->
  exists v,
    installOutcome ext = RejectedWith v /\ string_message v = None
    /\ In (EvReject v) (events (applyUpdate ext b w)).
Proof.
  rewrite applyUpdate_run. cbv zeta.
  destruct (tmpFile ext) as [vsixPath|]; [|discriminate].
  destruct (result (download_loop _ _ _ _ _ _)) as [|e|]; [|discriminate|discriminate].
  destruct (installOutcome ext) as [| |v]; [discriminate|discriminate|].
  cbn [result events fst snd]. intros H. exists v.
  split; [reflexivity|split; [now apply (catch_result_rejects ext v x)|]].
  apply in_or_app. right. right. now left.
Qed.

(** C6 (the code differs): the catch handlers read the message of what
    they caught and [applyUpdate] calls [indexOf] on it, so a rejection
    with a value that has no string for a message makes the handler throw:
    the promises of [applyUpdate] and [checkAndApplyUpdate] are rejected.
    When [installVsix] rejects with a string, the handler writes undefined
    to the console and throws, and nothing reaches the telemetry; when the
    feed rejects with undefined, [checkAndApplyUpdate] is rejected.  These
    are the only rejections: with an error that has a string for a message
    the handler logs it and the promise is fulfilled. *)
Theorem C6_catch_handlers_can_throw :
  (let canceled := prompt_host (Some (lit "/tmp/cpptools.vsix")) (fun _ => true)
                               (RejectedWith (VString (lit "Canceled")))
                               (fun _ => FeedBuild example_build) in
   applyUpdate canceled example_build example_world
   = (RejectedWith (example_typeError (lit "indexOf")), example_world,
      [EvDownload (lit "u") 0 true; EvInstall (lit "/tmp/cpptools.vsix");
       EvReject (VString (lit "Canceled"));
       EvConsoleError (cppInstallVsixStr ++ lit "undefined")])
   /\ result (checkAndApplyUpdate canceled (Some Insiders) example_world)
      = RejectedWith (example_typeError (lit "indexOf")))
  /\ (let offline := prompt_host None (fun _ => false) Pending
                                 (fun _ => FeedError VUndefined) in
      checkAndApplyUpdate offline (Some Insiders) example_world
      = (RejectedWith (example_typeError (lit "message")), example_world, []))
  /\ (forall ext b w x,
        result (applyUpdate ext b w) = RejectedWith x ->
        exists v, installOutcome ext = RejectedWith v /\ string_message v = None
                  /\ In (EvReject v) (events (applyUpdate ext b w)))
  /\ (forall ext updateChannel w x,
        result (checkAndApplyUpdate ext updateChannel w) = RejectedWith x ->
        (exists v, installOutcome ext = RejectedWith v /\ string_message v = None)
        \/ (exists v, getTargetBuildInfo ext updateChannel = FeedError v
                      /\ read_message v = None))
  /\ (forall ext b w v msg,
        In (EvReject v) (events (applyUpdate ext b w)) -> string_message v = Some msg ->
        result (applyUpdate ext b w) = Fulfilled
        /\ exists pre, events (applyUpdate ext b w)
                       = pre ++ EvReject v :: catch_events msg).
Proof.
  cbv zeta. split; [|split; [|split; [|split]]].
  - split; vm_compute; reflexivity.
  - vm_compute. reflexivity.
  - exact applyUpdate_rejected.
  - intros ext ch w x. rewrite checkAndApplyUpdate_run.
    destruct (buildInfoCache w) as [b|].
    + intros H. left. destruct (applyUpdate_rejected _ _ _ _ H) as (v & H1 & H2 & _).
      now exists v.
    + cbv zeta. destruct (getTargetBuildInfo ext ch) as [b| |e] eqn:F.
      * intros H. left. destruct (applyUpdate_rejected _ _ _ _ H) as (v & H1 & H2 & _).
        now exists v.
      * discriminate.
      * destruct (read_message e) as [m|] eqn:R; [discriminate|].
        intros _. right. now exists e.
  - intros ext b w v msg. rewrite applyUpdate_run. cbv zeta.
    assert (Hloop : forall fuel attempt w', ~ In (EvReject v)
              (events (download_loop ext (downloadUrl b)
                         (globalValue (config (after_await w))) fuel attempt w'))).
    { intros fuel attempt w' Hin.
      pose proof (download_loop_events ext (downloadUrl b)
                    (globalValue (config (after_await w))) fuel attempt w') as F.
      rewrite Forall_forall in F.
      destruct (F _ Hin) as [(n & ok & E)|[(u & E)|E]]; discriminate E. }
    destruct (tmpFile ext) as [vsixPath|].
    + destruct (download_loop ext (downloadUrl b) (globalValue (config (after_await w)))
                  (result (loop_bound ext (after_await w))) 0 (after_await w))
        as [[r w1] t1] eqn:L.
      assert (Ht1 : ~ In (EvReject v) t1).
      { intros Hin. apply (Hloop (result (loop_bound ext (after_await w))) 0 (after_await w)).
        now rewrite L. }
      cbn [result world events fst snd].
      destruct r as [|e|].
      * destruct (installOutcome ext) as [| |v'];
          cbn [result events fst snd]; intros Hin Hm;
          apply in_app_or in Hin as [Hin|Hin]; try (now elim Ht1).
        -- destruct Hin as [Hin|[]]. discriminate Hin.
        -- destruct Hin as [Hin|Hin]; [discriminate Hin|].
           unfold success_events in Hin. cbn [In] in Hin.
           repeat (destruct Hin as [Hin|Hin]; try discriminate Hin). destruct Hin.
        -- destruct Hin as [Hin|Hin]; [discriminate Hin|].
           destruct Hin as [Hin|Hin].
           ++ injection Hin as ->.
              rewrite (catch_result_string ext v msg Hm), (catch_trace_string v msg Hm).
              split; [reflexivity|]. exists (t1 ++ [EvInstall vsixPath]).
              now rewrite <- app_assoc.
           ++ exfalso. unfold catch_trace in Hin.
              destruct (read_message v') as [m|]; [|destruct Hin].
              destruct Hin as [Hin|Hin]; [discriminate Hin|].
              destruct m; unfold failure_telemetry in Hin; cbn [In] in Hin;
                repeat (destruct Hin as [Hin|Hin]; try discriminate Hin); destruct Hin.
      * cbn [result events fst snd]. intros Hin Hm.
        apply in_app_or in Hin as [Hin|Hin]; [now elim Ht1|].
        destruct Hin as [Hin|Hin].
        -- injection Hin as <-. rewrite read_message_error_string in Hm.
           injection Hm as <-. split; [reflexivity|]. now exists t1.
        -- unfold catch_events, failure_telemetry in Hin. cbn [In] in Hin.
           repeat (destruct Hin as [Hin|Hin]; try discriminate Hin). destruct Hin.
      * cbn [events snd]. intros Hin. now elim Ht1.
    + cbn [result events fst snd]. intros Hin Hm. destruct Hin as [Hin|Hin].
      * injection Hin as <-. rewrite read_message_error_string in Hm.
        injection Hm as <-. split; [reflexivity|]. now exists [].
      * unfold catch_events, failure_telemetry in Hin. cbn [In] in Hin.
        repeat (destruct Hin as [Hin|Hin]; try discriminate Hin). destruct Hin.
Qed.

(** C7 (the code differs): the timer started at activation passes the
    channel to [checkAndApplyUpdate] at every tick, while the timer started
    when the setting changes to Insiders is created without the extra
    argument, so its ticks call [checkAndApplyUpdate] with an undefined
    channel. *)
Theorem C7_timer_of_settings_change_passes_no_channel (c : Config) :
  let at_startup := world (realActivation_updateChannel Insiders (initial_world c)) in
  let idle_startup := world (realActivation_updateChannel Default (initial_world c)) in
  let after_change :=
    world (onDidChangeSettings_updateChannel (Some Insiders) idle_startup) in
  timers at_startup = [mkTimer 0 insiderUpdateTimerInterval [Insiders]]
  /\ events (hour_passes at_startup) = [EvCheckAndApplyUpdate (Some Insiders)]
  /\ timers idle_startup = []
  /\ timers after_change = [mkTimer 0 insiderUpdateTimerInterval []]
  /\ events (hour_passes after_change) = [EvCheckAndApplyUpdate None].
Proof. cbv zeta. repeat split. Qed.

End UpdateSpec.

Import UpdateSpec.

(* ===================================================================== *)
(** * Properties of [installVsix] *)
(* ===================================================================== *)

Module InstallSpec.

Unset Implicit Arguments.

Lemma settle_not_pending p q : q <> Pending -> settle p q <> Pending.
Proof. destruct p; cbn; congruence. Qed.

Lemma handle_bounded st ev : bounded st -> bounded (handle st ev).
Proof.
  unfold bounded, handle. destruct st as [v p t k i s]. cbn.
  destruct v, ev; cbn; try tauto.
  - intros _ H. exfalso. revert H. apply settle_not_pending.
    destruct (is_zero code); discriminate.
  - destruct t; cbn; [|tauto]. intros _ H. exfalso. revert H.
    apply settle_not_pending. discriminate.
  - destruct s; cbn; [tauto|]. intros _ H. exfalso. revert H.
    apply settle_not_pending. discriminate.
  - destruct t; cbn; [|tauto]. intros _ H. exfalso. revert H.
    apply settle_not_pending. discriminate.
Qed.

Lemma run_bounded evs : forall st, bounded st -> bounded (run st evs).
Proof.
  induction evs as [|ev evs IH]; intros st H; [exact H|].
  cbn. apply IH. now apply handle_bounded.
Qed.

Lemma deadline_settles st : bounded st -> promise (handle st Timeout30s) <> Pending.
Proof.
  unfold bounded, handle. destruct st as [v p t k i s]. cbn.
  destruct v; cbn; try tauto.
  - destruct t; cbn.
    + intros _. apply settle_not_pending. discriminate.
    + intros H E. specialize (H E). discriminate.
  - destruct t; cbn.
    + intros _. apply settle_not_pending. discriminate.
    + intros H E. specialize (H E). discriminate.
Qed.

Lemma run_cons st ev evs : run st (ev :: evs) = run (handle st ev) evs.
Proof. reflexivity. Qed.

(** Once the exit listener has run nothing changes any more. *)
Lemma run_exit_settled evs : forall p k i s,
  p <> Pending ->
  run (mkInstall ViaExitCode p false k i s) evs = mkInstall ViaExitCode p false k i s.
Proof.
  induction evs as [|ev evs IH]; intros p k i s Hp; [reflexivity|].
  rewrite run_cons.
  replace (handle (mkInstall ViaExitCode p false k i s) ev)
    with (mkInstall ViaExitCode p false k i s); [now apply IH|].
  destruct ev; try reflexivity. unfold handle. cbn.
  destruct p; [congruence|reflexivity|reflexivity].
Qed.

Lemma run_exit_variant evs :
  before_deadline evs ->
  run (mkInstall ViaExitCode Pending true false [] false) evs
  = match first_exit evs with
    | None => mkInstall ViaExitCode Pending true false [] false
    | Some code =>
        mkInstall ViaExitCode
                  (if is_zero code then Fulfilled else RejectedWith (exitError code))
                  false false [] false
    end.
Proof.
  unfold before_deadline. induction evs as [|ev evs IH]; intros H; [reflexivity|].
  cbn [forallb] in H. apply andb_prop in H as [Hev H].
  rewrite run_cons. destruct ev; try discriminate; cbn [first_exit].
  - replace (handle (mkInstall ViaExitCode Pending true false [] false) (Exit code))
      with (mkInstall ViaExitCode
              (if is_zero code then Fulfilled else RejectedWith (exitError code))
              false false [] false)
      by (unfold handle; cbn; now destruct (is_zero code)).
    apply run_exit_settled. destruct (is_zero code); discriminate.
  - apply (IH H).
  - apply (IH H).
Qed.

(** Once the data listener has answered nothing changes any more. *)
Lemma run_stdout_settled evs : forall p k i,
  run (mkInstall ViaStdout p false k i true) evs = mkInstall ViaStdout p false k i true.
Proof.
  induction evs as [|ev evs IH]; intros p k i; [reflexivity|].
  rewrite run_cons. destruct ev; apply (IH p k i).
Qed.

Lemma run_stdout_variant evs :
  before_deadline evs ->
  run (mkInstall ViaStdout Pending true false [] false) evs
  = if has_stdout evs
    then mkInstall ViaStdout Fulfilled false false [lit "0" ++ [LF]] true
    else mkInstall ViaStdout Pending true false [] false.
Proof.
  unfold before_deadline. induction evs as [|ev evs IH]; intros H; [reflexivity|].
  cbn [forallb] in H. apply andb_prop in H as [Hev H].
  rewrite run_cons.
  destruct ev; try discriminate; cbn [has_stdout existsb is_stdout orb].
  - apply (IH H).
  - apply run_stdout_settled.
  - apply (IH H).
Qed.

Section Spawned.

Variable PackageVersion : Type.
Variable isGreaterThan : PackageVersion -> PackageVersion -> bool.
Variable version_1_32_3 version_1_27_2 : PackageVersion.

(** C5, as amended: on a host that is not newer than 1.32.3, once the
    platform information is there, the promise of [installVsix] is settled
    when the 30 seconds are over, whatever happened before.  When the VS
    Code script was started, the variant with --force resolves exactly when
    the first exit event carries the code zero, rejects on any other code,
    and kills the process and rejects when no exit event came in time; the
    older variant answers the first output with the line 0, resolves
    without waiting for the exit, and kills the process and rejects when
    no output came in time. *)
Theorem C5_spawned_install_settles_by_deadline
        (i : InstallInput PackageVersion) (evs : list ProcEvent) :
  isGreaterThan (userVersion i) version_1_32_3 = false ->
  platformInformation i = Fulfilled ->
  let st := at_deadline
              (installVsix PackageVersion isGreaterThan version_1_32_3 version_1_27_2 i)
              evs in
  promise st <> Pending
  /\ (before_deadline evs -> vsCodeScriptPath i <> None -> spawnResult i = Spawned ->
      if isGreaterThan (userVersion i) version_1_27_2 then
        promise st = match first_exit evs with
                     | None => RejectedWith timeoutError
                     | Some code =>
                         if is_zero code then Fulfilled
                         else RejectedWith (exitError code)
                     end
        /\ killed st = match first_exit evs with None => true | Some _ => false end
        /\ stdin st = []
      else
        promise st = (if has_stdout evs then Fulfilled else RejectedWith timeoutError)
        /\ killed st = negb (has_stdout evs)
        /\ stdin st = (if has_stdout evs then [lit "0" ++ [LF]] else [])).
Proof.
  intros Hhost Hplat. cbv zeta. unfold at_deadline. split.
  - apply deadline_settles, run_bounded.
    unfold installVsix. rewrite Hhost, Hplat.
    destruct (vsCodeScriptPath i); [|cbn; discriminate].
    destruct (isGreaterThan (userVersion i) version_1_27_2), (spawnResult i);
      cbn; congruence.
  - intros Hevs Hpath Hspawn.
    unfold installVsix. rewrite Hhost, Hplat, Hspawn.
    destruct (vsCodeScriptPath i); [|congruence].
    destruct (isGreaterThan (userVersion i) version_1_27_2).
    + rewrite (run_exit_variant evs Hevs). destruct (first_exit evs) as [code|].
      * cbn. now destruct (is_zero code).
      * cbn. repeat split.
    + rewrite (run_stdout_variant evs Hevs). destruct (has_stdout evs); cbn; repeat split.
Qed.

End Spawned.

Lemma C5_witness :
  promise (at_deadline (installVsix_semver (example_input (mkSemVer 1 30 1)))
                       [StdoutData; Exit (Some 0%Z)])
  = Fulfilled
  /\ killed (at_deadline (installVsix_semver (example_input (mkSemVer 1 30 1)))
                         [StdoutData; Exit (Some 0%Z)])
     = false
  /\ stdin (at_deadline (installVsix_semver (example_input (mkSemVer 1 30 1)))
                        [StdoutData; Exit (Some 0%Z)])
     = [].
Proof.
  apply (proj2 (C5_spawned_install_settles_by_deadline SemVer semver_gt
                  (mkSemVer 1 32 3) (mkSemVer 1 27 2)
                  (example_input (mkSemVer 1 30 1)) [StdoutData; Exit (Some 0%Z)]
                  eq_refl eq_refl)).
  - reflexivity.
  - discriminate.
  - reflexivity.
Defined.

(** C5 fails as stated: on a host newer than 1.32.3 [installVsix] returns
    the promise of the host command and sets no timeout; while the host
    does not answer, the promise is still pending when the 30 seconds are
    over, whatever a process does, and nothing is killed. *)
Lemma C5_counterexample :
  let st := at_deadline (installVsix_semver (example_input (mkSemVer 1 33 0)))
                        [StdoutData; Exit (Some 0%Z)] in
  promise st = Pending /\ killed st = false /\ timerArmed st = false.
Proof. cbv zeta. repeat split. Qed.

End InstallSpec.

Import InstallSpec.

(* ===================================================================== *)
(** * The parser: marks, blanks and line endings *)
(* ===================================================================== *)

Module ParserProps.

Unset Implicit Arguments.

Lemma scan_line_blank_prefix ws l :
  blanks ws -> scan_line (ws ++ l) = scan_line l.
Proof.
  intros Hw. unfold scan_line. now rewrite (span_blank_prefix is_space ws l Hw).
Qed.

Lemma scan_comment_blank_prefix ws l :
  blanks ws -> scan_comment (ws ++ l) = scan_comment l.
Proof.
  intros Hw. unfold scan_comment. now rewrite (span_blank_prefix is_space ws l Hw).
Qed.

Lemma line_assignment_blank_prefix ws l :
  blanks ws -> line_assignment (ws ++ l) = line_assignment l.
Proof.
  intros Hw. now rewrite !line_assignment_scan, scan_line_blank_prefix.
Qed.

Lemma unparseable_blank_prefix ws l :
  blanks ws -> unparseable (ws ++ l) = unparseable l.
Proof.
  intros Hw.
  now rewrite !unparseable_scan, scan_line_blank_prefix, scan_comment_blank_prefix.
Qed.

Lemma split_lines_cons (c : char) (s : jsstring) :
  N.eqb c LF = false ->
  exists l ls, split_lines s = l :: ls /\ split_lines (c :: s) = (c :: l) :: ls.
Proof.
  intros Hc. cbn [split_lines]. rewrite Hc.
  destruct (split_lines s) as [|l ls] eqn:E.
  - destruct s as [|a s']; cbn in E; [discriminate|].
    destruct (N.eqb a LF); [discriminate|].
    destruct (split_lines s'); discriminate.
  - now exists l, ls.
Qed.

(** The result read off the lines: what [CreateFromContent_eq] gives. *)
Lemma result_of_lines (localize : localize_t) content envFile initialEnv :
  CreateFromContent localize content envFile initialEnv
  = let lines := split_lines (strip_bom content) in
    let env := set_all (baseline initialEnv ++ assignments lines) [] in
    mkParsed (map (fun key => mkEnv key (Map_get key env)) (Map_keys env))
             (match filter unparseable lines with
              | [] => None
              | _ :: _ => Some (warning_prefix localize envFile
                                  ++ quoted_list (filter unparseable lines))
              end).
Proof. apply CreateFromContent_eq. Qed.

Lemma alike_refl a : alike a a.
Proof. now split. Qed.

Lemma alike_assignments ls1 ls2 :
  Forall2 alike ls1 ls2 -> assignments ls1 = assignments ls2.
Proof.
  induction 1 as [|a b ls1 ls2 [Ha _] _ IH]; [reflexivity|].
  rewrite (assignments_cons a), (assignments_cons b), IH.
  unfold assignments at 1 3. cbn [flat_map]. now rewrite Ha.
Qed.

Lemma alike_unparseable ls1 ls2 :
  Forall2 alike ls1 ls2 ->
  List.length (filter unparseable ls1) = List.length (filter unparseable ls2).
Proof.
  induction 1 as [|a b ls1 ls2 [_ Hu] _ IH]; [reflexivity|].
  cbn [filter]. rewrite Hu. destruct (unparseable b); cbn [List.length]; now rewrite IH.
Qed.

Lemma Forall2_alike_refl ls : Forall2 alike ls ls.
Proof. induction ls; constructor; auto using alike_refl. Qed.

(** Contents whose lines are alike give the same entries, and a warning
    for the one exactly when there is a warning for the other. *)
Lemma alike_results (localize : localize_t) c1 c2 envFile initialEnv :
  Forall2 alike (split_lines (strip_bom c1)) (split_lines (strip_bom c2)) ->
  Env (CreateFromContent localize c1 envFile initialEnv)
  = Env (CreateFromContent localize c2 envFile initialEnv)
  /\ (Warning (CreateFromContent localize c1 envFile initialEnv) = None
      <-> Warning (CreateFromContent localize c2 envFile initialEnv) = None).
Proof.
  intros H. rewrite !result_of_lines. cbn [Env Warning].
  rewrite (alike_assignments _ _ H). split; [reflexivity|].
  pose proof (alike_unparseable _ _ H) as L.
  destruct (filter unparseable (split_lines (strip_bom c1)));
    destruct (filter unparseable (split_lines (strip_bom c2)));
    cbn in L; try discriminate; split; intros; try reflexivity; discriminate.
Qed.

Lemma BOM_blank : blanks [BOM].
Proof. reflexivity. Qed.

(** X1: a byte-order mark at the very start of the content is dropped
    before the lines are read.  The entries are those of the content
    without the mark, and a warning is given in exactly the same cases;
    when the content does not itself start with a second mark, the whole
    result, warning text included, is that of the content without it. *)
Theorem X1_leading_byte_order_mark_is_ignored
        (localize : localize_t) (content envFile : jsstring)
        (initialEnv : option (list Environment)) :
  let marked := CreateFromContent localize (BOM :: content) envFile initialEnv in
  let plain := CreateFromContent localize content envFile initialEnv in
  Env marked = Env plain
  /\ (Warning marked = None <-> Warning plain = None)
  /\ (hd_error content <> Some BOM -> marked = plain).
Proof.
  cbv zeta.
  assert (Hlines : Forall2 alike (split_lines (strip_bom (BOM :: content)))
                                 (split_lines (strip_bom content))).
  { change (strip_bom (BOM :: content)) with content.
    destruct content as [|c rest]; [apply Forall2_alike_refl|].
    cbn [strip_bom]. destruct (N.eqb c BOM) eqn:E; [|apply Forall2_alike_refl].
    apply N.eqb_eq in E. subst c.
    destruct (split_lines_cons BOM rest eq_refl) as (l & ls & E1 & E2).
    rewrite E1, E2. constructor; [|apply Forall2_alike_refl].
    split.
    - apply (line_assignment_blank_prefix [BOM] l BOM_blank).
    - apply (unparseable_blank_prefix [BOM] l BOM_blank). }
  destruct (alike_results localize _ _ envFile initialEnv Hlines) as [HE HW].
  repeat split; try assumption; try apply HW.
  intros Hhd. unfold CreateFromContent.
  change (strip_bom (BOM :: content)) with content.
  destruct content as [|c rest]; [reflexivity|].
  cbn [strip_bom]. destruct (N.eqb c BOM) eqn:E; [|reflexivity].
  apply N.eqb_eq in E. subst c. now elim Hhd.
Qed.

Lemma X1_witness :
  CreateFromContent localize_default (BOM :: lit "A=1") (lit "f.env") None
  = CreateFromContent localize_default (lit "A=1") (lit "f.env") None.
Proof.
  apply (X1_leading_byte_order_mark_is_ignored localize_default (lit "A=1") (lit "f.env") None).
  cbn. discriminate.
Defined.

(** ** Files that assign nothing *)

Lemma silent_line l :
  BlankLine l \/ CommentLine l -> line_assignment l = None /\ unparseable l = false.
Proof.
  intros H. apply scan_comment_grammar in H.
  assert (Hs : scan_line l = None).
  { unfold scan_comment in H. unfold scan_line.
    destruct (snd (span is_space l)) as [|c r]; [reflexivity|].
    apply N.eqb_eq in H. subst c. reflexivity. }
  rewrite line_assignment_scan, unparseable_scan, Hs, H. now split.
Qed.

Lemma silent_lines ls :
  (forall l, In l ls -> BlankLine l \/ CommentLine l) ->
  assignments ls = [] /\ filter unparseable ls = [].
Proof.
  induction ls as [|l ls IH]; intros H; [now split|].
  destruct (silent_line l (H l (or_introl eq_refl))) as [Ha Hu].
  destruct IH as [IHa IHu]; [intros; apply H; now right|].
  rewrite assignments_cons, IHa. cbn [filter]. rewrite Hu, IHu.
  unfold assignments. cbn [flat_map]. now rewrite Ha.
Qed.

Lemma baseline_entries es :
  NoDup (map name es) ->
  let env := set_all (baseline (Some es)) [] in
  map (fun key => mkEnv key (Map_get key env)) (Map_keys env) = es.
Proof.
  intros Hn. cbv zeta. cbn [baseline].
  assert (Hk : map fst (map (fun e => (name e, value e)) es) = map name es).
  { rewrite map_map. reflexivity. }
  rewrite set_all_fresh by (cbn [Map_keys map app]; now rewrite Hk).
  cbn [app]. rewrite entries_of_map by (unfold Map_keys; now rewrite Hk).
  rewrite map_map. rewrite <- (map_id es) at 2. apply map_ext. now intros [n v].
Qed.

(** X2: a file that holds only blank lines and comment lines (the empty
    file is one) adds nothing.  The result is the one of the empty
    content, there is no warning, without a baseline there are no entries,
    and a baseline whose names are distinct is given back as it is. *)
Theorem X2_blank_and_comment_lines_add_nothing
        (localize : localize_t) (content envFile : jsstring)
        (initialEnv : option (list Environment)) :
  (forall l, In l (split_lines (strip_bom content)) -> BlankLine l \/ CommentLine l) ->
  let res := CreateFromContent localize content envFile initialEnv in
  res = CreateFromContent localize [] envFile initialEnv
  /\ Warning res = None
  /\ (initialEnv = None -> Env res = [])
  /\ (forall es, initialEnv = Some es -> NoDup (map name es) -> Env res = es).
Proof.
  intros H. cbv zeta.
  destruct (silent_lines _ H) as [Ha Hu].
  assert (H0 : forall l, In l (split_lines (strip_bom [])) -> BlankLine l \/ CommentLine l).
  { intros l [<-|[]]. now left. }
  destruct (silent_lines _ H0) as [Ha0 Hu0].
  rewrite !result_of_lines. cbv zeta. rewrite Ha, Hu, Ha0, Hu0, app_nil_r.
  cbn [Env Warning]. repeat split.
  - intros ->. reflexivity.
  - intros es -> Hn. now apply baseline_entries.
Qed.

Lemma X2_witness :
  Env (CreateFromContent localize_default
         (lit "# settings" ++ [LF] ++ lit "   " ++ [LF])
         (lit "f.env") (Some [mkEnv (lit "A") (lit "1"); mkEnv (lit "B") (lit "2")]))
  = [mkEnv (lit "A") (lit "1"); mkEnv (lit "B") (lit "2")].
Proof.
  refine (proj2 (proj2 (proj2
            (X2_blank_and_comment_lines_add_nothing localize_default
               (lit "# settings" ++ [LF] ++ lit "   " ++ [LF]) (lit "f.env")
               (Some [mkEnv (lit "A") (lit "1"); mkEnv (lit "B") (lit "2")]) _)))
            _ eq_refl _).
  - intros l [<-|[<-|[<-|[]]]].
    + right. exists [], (lit " settings"). now split.
    + left. reflexivity.
    + left. reflexivity.
  - repeat constructor; cbn; intuition discriminate.
Defined.

(** ** Carriage returns before the line feeds *)

Lemma span_snoc p (s : jsstring) (c : char) :
  span p (s ++ [c])
  = match snd (span p s) with
    | [] => if p c then (s ++ [c], []) else (s, [c])
    | _ :: _ => (fst (span p s), snd (span p s) ++ [c])
    end.
Proof.
  induction s as [|a s IH]; cbn [app span].
  - cbn. now destruct (p c).
  - destruct (p a) eqn:Ea; [|reflexivity].
    rewrite IH. destruct (span p s) as [x y]. cbn [fst snd].
    destruct y; [destruct (p c)|]; reflexivity.
Qed.

Lemma span_rest_nil p s : snd (span p s) = [] -> fst (span p s) = s.
Proof.
  intros H. pose proof (span_app p s) as E. rewrite H, app_nil_r in E. exact E.
Qed.

Lemma scan_value_cr s : scan_value (s ++ [CR]) = scan_value s.
Proof.
  unfold scan_value. rewrite span_snoc.
  destruct (snd (span is_space s)) as [|c b] eqn:Eb; [reflexivity|].
  cbn [snd]. rewrite span_snoc.
  destruct (span is_dot (c :: b)) as [v t] eqn:Ev. cbn [fst snd].
  destruct t as [|d t].
  - pose proof (span_rest_nil is_dot (c :: b)) as Hv. rewrite Ev in Hv.
    cbn [fst snd] in Hv. rewrite <- (Hv eq_refl). reflexivity.
  - rewrite forallb_app. cbn [forallb]. now rewrite !andb_true_r.
Qed.

Lemma scan_assign_cr s : scan_assign (s ++ [CR]) = scan_assign s.
Proof.
  unfold scan_assign. rewrite span_snoc.
  destruct (snd (span is_space s)) as [|c b] eqn:Eb; [reflexivity|].
  cbn [snd app]. destruct (N.eqb equals c); [apply scan_value_cr|reflexivity].
Qed.

Lemma scan_line_cr l : scan_line (l ++ [CR]) = scan_line l.
Proof.
  unfold scan_line. rewrite span_snoc.
  destruct (snd (span is_space l)) as [|c b] eqn:Eb; [reflexivity|].
  cbn [snd]. rewrite span_snoc.
  destruct (span is_key_char (c :: b)) as [k t] eqn:Ek. cbn [fst snd].
  destruct t as [|d t].
  - pose proof (span_rest_nil is_key_char (c :: b)) as Hk. rewrite Ek in Hk.
    cbn [fst snd] in Hk. rewrite (Hk eq_refl). reflexivity.
  - destruct k; [reflexivity|].
    change ((d :: t) ++ [CR]) with ((d :: t) ++ [CR]). now rewrite scan_assign_cr.
Qed.

Lemma scan_comment_cr l : scan_comment (l ++ [CR]) = scan_comment l.
Proof.
  unfold scan_comment. rewrite span_snoc.
  now destruct (snd (span is_space l)).
Qed.

Lemma alike_cr l : alike (l ++ [CR]) l.
Proof.
  split.
  - now rewrite !line_assignment_scan, scan_line_cr.
  - now rewrite !unparseable_scan, scan_line_cr, scan_comment_cr.
Qed.

Lemma with_cr_alike ls : Forall2 alike (with_cr ls) ls.
Proof.
  induction ls as [|l ls IH]; [constructor|].
  cbn [with_cr]. destruct ls as [|l' ls'].
  - constructor; [apply alike_refl|constructor].
  - constructor; [apply alike_cr|exact IH].
Qed.

Lemma split_lines_not_nil s : split_lines s <> [].
Proof.
  destruct s as [|c s]; cbn; [discriminate|].
  destruct (N.eqb c LF); [discriminate|]. destruct (split_lines s); discriminate.
Qed.

Lemma split_lines_crlf s : split_lines (to_crlf s) = with_cr (split_lines s).
Proof.
  induction s as [|c s IH]; [reflexivity|].
  unfold to_crlf in *. cbn [flat_map].
  destruct (N.eqb c LF) eqn:Ec.
  - cbn [app]. change (split_lines (CR :: LF :: ?x)) with (split_lines (CR :: LF :: x)).
    cbn [split_lines]. rewrite Ec.
    change (N.eqb CR LF) with false. change (N.eqb LF LF) with true.
    cbv iota. rewrite IH.
    pose proof (split_lines_not_nil s) as Hn.
    cbn [with_cr]. destruct (split_lines s); [now elim Hn|reflexivity].
  - cbn [app split_lines]. rewrite Ec, IH.
    destruct (split_lines s) as [|l ls] eqn:El; [now elim (split_lines_not_nil s)|].
    cbn [with_cr]. destruct ls; reflexivity.
Qed.

Lemma strip_bom_crlf s : strip_bom (to_crlf s) = to_crlf (strip_bom s).
Proof.
  destruct s as [|c s]; [reflexivity|].
  unfold to_crlf. cbn [strip_bom].
  destruct (N.eqb c BOM) eqn:Eb.
  - apply N.eqb_eq in Eb. subst c. reflexivity.
  - cbn [flat_map]. destruct (N.eqb c LF) eqn:El; cbn [app strip_bom];
      [reflexivity|]. now rewrite Eb.
Qed.

(** X3: carriage returns before the line feeds do not matter.  The text
    with CR LF line endings gives the same entries as the text with LF
    line endings, and a warning in exactly the same cases. *)
Theorem X3_crlf_line_endings_give_the_same_entries
        (localize : localize_t) (content envFile : jsstring)
        (initialEnv : option (list Environment)) :
  Env (CreateFromContent localize (to_crlf content) envFile initialEnv)
  = Env (CreateFromContent localize content envFile initialEnv)
  /\ (Warning (CreateFromContent localize (to_crlf content) envFile initialEnv) = None
      <-> Warning (CreateFromContent localize content envFile initialEnv) = None).
Proof.
  apply alike_results.
  rewrite strip_bom_crlf, split_lines_crlf. apply with_cr_alike.
Qed.

(** ** What an entry read from a file is made of *)

(** X4: without a baseline, every entry has a name that is not empty and
    made of word characters, dots and hyphens only, and a value without a
    carriage return and without the separators U+2028 and U+2029. *)
Theorem X4_entries_of_a_file_are_well_formed
        (localize : localize_t) (content envFile : jsstring) (e : Environment) :
  In e (Env (CreateFromContent localize content envFile None)) ->
  name e <> []
  /\ forallb is_key_char (name e) = true
  /\ forall c, In c (value e) -> c <> CR /\ c <> 8232%N /\ c <> 8233%N.
Proof.
  intros He.
  destruct (emitted_entries localize content envFile None) as (m & Em & _ & Hg);
    [constructor|].
  rewrite Em in He. apply in_map_iff in He. destruct He as (kv & <- & Hin).
  rewrite Forall_forall in Hg. destruct (Hg kv Hin) as [[Hk1 Hk2] [Hv _]].
  cbn [name value]. repeat split; try assumption;
    rewrite forallb_forall in Hv; specialize (Hv c H);
    intros ->; discriminate Hv.
Qed.

Lemma X4_witness :
  lit "A.b-c" <> []
  /\ forallb is_key_char (lit "A.b-c") = true
  /\ forall c, In c (lit "x y") -> c <> CR /\ c <> 8232%N /\ c <> 8233%N.
Proof.
  apply (X4_entries_of_a_file_are_well_formed localize_default
           (lit " A.b-c = 'x y'" ++ [CR; LF] ++ lit "oops") (lit "f.env")
           (mkEnv (lit "A.b-c") (lit "x y"))).
  vm_compute. left. reflexivity.
Defined.

(** ** The line of an assignment *)



(** ** Values that are taken as written *)

(** X6: escaped newlines are replaced between double quotes only.  A value
    between single quotes loses the two quotes and keeps everything else,
    and a value without a quote at either end is kept as it is; in both a
    backslash followed by the letter n stays two characters. *)
Theorem X6_values_outside_double_quotes_are_literal (inner v : jsstring) :
  process_value ([squote] ++ inner ++ [squote]) = inner
  /\ (match v with [] => True | c :: _ => is_quote c = false end ->
      match last_char v with Some c => is_quote c = false | None => True end ->
      process_value v = v).
Proof.
  split.
  - rewrite process_value_scan. cbn [app double_quoted].
    change (N.eqb squote dquote) with false. cbn [andb strip_quotes].
    change (is_quote squote) with true. cbv iota.
    rewrite drop_final_quote_snoc. reflexivity.
  - intros Hf Hl. rewrite process_value_scan.
    destruct v as [|c s]; [reflexivity|].
    assert (Hd : double_quoted (c :: s) = false).
    { unfold double_quoted. unfold is_quote in Hf. apply orb_false_elim in Hf.
      destruct Hf as [_ Hf]. now rewrite Hf. }
    rewrite Hd. cbn [strip_quotes]. rewrite Hf.
    destruct s as [|d s']; [reflexivity|].
    rewrite drop_final_quote_id; [reflexivity|exact Hl].
Qed.

Lemma X6_witness :
  process_value (lit "a" ++ [backslash; letter_n] ++ lit "b")
  = lit "a" ++ [backslash; letter_n] ++ lit "b".
Proof.
  apply (proj2 (X6_values_outside_double_quotes_are_literal [] (lit "a" ++ [backslash; letter_n] ++ lit "b")));
    reflexivity.
Defined.

End ParserProps.

Import ParserProps.

(* ===================================================================== *)
(** * The update cycle: telemetry, cache and polling timer *)
(* ===================================================================== *)

Module UpdateProps.

Unset Implicit Arguments.

#[local] Arguments lit : simpl never.
#[local] Arguments err : simpl never.
#[local] Arguments differs : simpl never.
#[local] Arguments config_get : simpl never.
#[local] Arguments string_eqb : simpl never.

(** ** The cycle, case by case *)

(** The ways in which a cycle ends, with the events [t1] of the loop around
    the download and the world [w1] it leaves. *)
Lemma applyUpdate_cases ext b w :
  let r := applyUpdate ext b w in
  (tmpFile ext = None
   /\ r = (Fulfilled, after_await w,
           EvReject (err "Failed to create vsix file")
           :: catch_events (lit "Failed to create vsix file")))
  \/ exists vsixPath t1 w1,
       tmpFile ext = Some vsixPath
       /\ Forall (loop_event (downloadUrl b)) t1
       /\ same_session w w1
       /\ ((exists e : Error,
              r = (Fulfilled, w1, t1 ++ EvReject e :: catch_events (message e)))
           \/ ((exists n, In (EvDownload (downloadUrl b) n true) t1)
               /\ ((installOutcome ext = Pending
                    /\ r = (Pending, w1, t1 ++ [EvInstall vsixPath]))
                   \/ (installOutcome ext = Fulfilled
                       /\ r = (Fulfilled, clear_timer w1,
                               t1 ++ EvInstall vsixPath :: success_events b))
                   \/ (exists v, installOutcome ext = RejectedWith v
                                 /\ r = (catch_result ext v, w1,
                                         t1 ++ EvInstall vsixPath :: EvReject v
                                            :: catch_trace v))))).
Proof.
  cbv zeta. rewrite applyUpdate_run. cbv zeta.
  destruct (tmpFile ext) as [vsixPath|]; [right|left; now split].
  pose proof (download_loop_terminates ext (downloadUrl b)
                (globalValue (config (after_await w))) (after_await w)) as Hfuel.
  pose proof (download_loop_session ext (downloadUrl b)
                (globalValue (config (after_await w)))
                (result (loop_bound ext (after_await w))) 0 (after_await w)) as Hs.
  pose proof (download_loop_events ext (downloadUrl b)
                (globalValue (config (after_await w)))
                (result (loop_bound ext (after_await w))) 0 (after_await w)) as He.
  pose proof (download_loop_break ext (downloadUrl b)
                (globalValue (config (after_await w)))
                (result (loop_bound ext (after_await w))) 0 (after_await w)) as Hb.
  destruct (download_loop ext (downloadUrl b) (globalValue (config (after_await w)))
              (result (loop_bound ext (after_await w))) 0 (after_await w))
    as [[r w1] t1].
  cbn [result world events fst snd] in *.
  assert (S1 : same_session w w1).
  { apply (same_session_trans w (after_await w) w1); [apply after_await_session|exact Hs]. }
  destruct r as [|e|]; [| |now elim Hfuel].
  - exists vsixPath, t1, (after_await w1).
    split; [reflexivity|split; [exact He|split]].
    { apply (same_session_trans w w1 _ S1), after_await_session. }
    right. split; [now apply Hb|].
    destruct (installOutcome ext) as [| |v].
    + left. now split.
    + right. left. now split.
    + right. right. exists v. now split.
  - exists vsixPath, t1, w1. split; [reflexivity|split; [exact He|split; [exact S1|]]].
    left. now exists e.
Qed.

Ltac cycle_ends ext b w :=
  let Tmp := fresh "Tmp" in let Er := fresh "Er" in
  let Hloop := fresh "Hloop" in let Hs := fresh "Hs" in let Hgood := fresh "Hgood" in
  let I := fresh "I" in
  destruct (applyUpdate_cases ext b w)
    as [[Tmp Er]
       |(vsixPath & t1 & w1 & Tmp & Hloop & Hs
         & [[failure Er]|[Hgood [[I Er]|[[I Er]|(thrown & I & Er)]]]])];
  rewrite Er in *; cbn [result world events fst snd] in *.









(** ** What the events of a cycle hold *)

Lemma loop_filter url (f : Event -> bool) t1 :
  Forall (loop_event url) t1 ->
  (forall n ok, f (EvDownload url n ok) = false) ->
  (forall v, f (EvConfigUpdate v) = false) ->
  f proxyOffSuccess = false ->
  forall e, In e t1 -> f e = false.
Proof.
  intros F H1 H2 H3 e Hin. rewrite Forall_forall in F.
  destruct (F e Hin) as [(n & ok & ->)|[(v & ->)| ->]]; auto.
Qed.

Lemma catch_events_filter (f : Event -> bool) msg :
  (forall m, f (EvConsoleError m) = false) ->
  (forall n p, f (EvTelemetry n p) = false) ->
  forall e, In e (catch_events msg) -> f e = false.
Proof.
  intros H1 H2 e [<-|[<-|[]]]; [apply H1|apply H2].
Qed.

Lemma catch_trace_filter (f : Event -> bool) error :
  (forall m, f (EvConsoleError m) = false) ->
  (forall n p, f (EvTelemetry n p) = false) ->
  forall e, In e (catch_trace error) -> f e = false.
Proof.
  intros H1 H2 e. unfold catch_trace.
  destruct (read_message error) as [m|]; [|intros []].
  intros [<-|Hin]; [apply H1|].
  destruct m; try (now destruct Hin). destruct Hin as [<-|[]]. apply H2.
Qed.

Lemma filter_none {A} (f : A -> bool) l :
  (forall a, In a l -> f a = false) -> filter f l = [].
Proof.
  induction l as [|a l IH]; intros H; [reflexivity|].
  cbn [filter]. rewrite (H a (or_introl eq_refl)). apply IH.
  intros a' Ha. apply H. now right.
Qed.

Lemma not_in_by {A} (f : A -> bool) (a : A) l :
  (forall e, In e l -> f e = false) -> f a = true -> ~ In a l.
Proof. intros H Ha Hin. rewrite (H a Hin) in Ha. discriminate Ha. Qed.

Lemma success_events_resolve b : In EvResolve (success_events b).
Proof. unfold success_events. cbn [In]. auto. Qed.

Lemma polling_cleared w : polling w -> timers (clear_timer w) = [].
Proof.
  intros (t & Ht & Hi). unfold clear_timer, clearInterval_insider. cbn [fst snd timers].
  rewrite Hi, Ht. cbn [filter]. now rewrite Nat.eqb_refl.
Qed.

Lemma clear_timer_session w w1 :
  same_session w w1 ->
  timers (clear_timer w1) = timers (clear_timer w)
  /\ insiderUpdateTimer (clear_timer w1) = insiderUpdateTimer w
  /\ buildInfoCache (clear_timer w1) = buildInfoCache w.
Proof.
  intros (Hi & Ht & _ & Hb). unfold clear_timer, clearInterval_insider.
  cbn [fst snd timers insiderUpdateTimer buildInfoCache]. now rewrite Hi, Ht, Hb.
Qed.

(** How a cycle leaves the timers: cleared when it reports the install, as
    they were otherwise; the module variable is not assigned. *)
Lemma applyUpdate_timers ext b w :
  let r := applyUpdate ext b w in
  insiderUpdateTimer (world r) = insiderUpdateTimer w
  /\ buildInfoCache (world r) = buildInfoCache w
  /\ (forall e, In e (events r) -> is_check e = false)
  /\ (In EvResolve (events r) /\ timers (world r) = timers (clear_timer w)
      \/ ~ In EvResolve (events r) /\ timers (world r) = timers w).
Proof.
  cbv zeta.
  assert (Hc1 : forall m, is_check (EvConsoleError m) = false) by reflexivity.
  assert (Hc2 : forall n p, is_check (EvTelemetry n p) = false) by reflexivity.
  assert (Hr1 : forall m, is_resolve (EvConsoleError m) = false) by reflexivity.
  assert (Hr2 : forall n p, is_resolve (EvTelemetry n p) = false) by reflexivity.
  assert (Hl : forall (f : Event -> bool) t1,
             Forall (loop_event (downloadUrl b)) t1 ->
             (forall n ok, f (EvDownload (downloadUrl b) n ok) = false) ->
             (forall v, f (EvConfigUpdate v) = false) ->
             f proxyOffSuccess = false -> forall e, In e t1 -> f e = false).
  { intros f t1. apply loop_filter. }
  cycle_ends ext b w.
  - destruct (after_await_session w) as (Hi & Ht & _ & Hb).
    split; [exact Hi|split; [exact Hb|split]].
    + intros e [<-|Hin]; [reflexivity|]. exact (catch_events_filter is_check _ Hc1 Hc2 e Hin).
    + right. split; [|exact Ht].
      intros [E|Hin]; [discriminate E|].
      now apply (not_in_by is_resolve EvResolve _
                   (catch_events_filter is_resolve _ Hr1 Hr2)) in Hin.
  - destruct Hs as (Hi & Ht & _ & Hb).
    split; [exact Hi|split; [exact Hb|split]].
    + intros e Hin. apply in_app_or in Hin as [Hin|[<-|Hin]];
        [now apply (Hl is_check t1)|reflexivity|].
      now apply (catch_events_filter is_check _ Hc1 Hc2) in Hin.
    + right. split; [|exact Ht]. intros Hin.
      apply in_app_or in Hin as [Hin|[E|Hin]]; [|discriminate E|].
      * now apply (not_in_by is_resolve EvResolve t1 (Hl is_resolve t1 Hloop
                     (fun _ _ => eq_refl) (fun _ => eq_refl) eq_refl)) in Hin.
      * now apply (not_in_by is_resolve EvResolve _
                     (catch_events_filter is_resolve _ Hr1 Hr2)) in Hin.
  - destruct Hs as (Hi & Ht & _ & Hb).
    split; [exact Hi|split; [exact Hb|split]].
    + intros e Hin. apply in_app_or in Hin as [Hin|[<-|[]]];
        [now apply (Hl is_check t1)|reflexivity].
    + right. split; [|exact Ht]. intros Hin.
      apply in_app_or in Hin as [Hin|[E|[]]]; [|discriminate E].
      now apply (not_in_by is_resolve EvResolve t1 (Hl is_resolve t1 Hloop
                   (fun _ _ => eq_refl) (fun _ => eq_refl) eq_refl)) in Hin.
  - destruct (clear_timer_session w w1 Hs) as (Ht & Hi & Hb).
    split; [exact Hi|split; [exact Hb|split]].
    + intros e Hin. apply in_app_or in Hin as [Hin|[<-|Hin]];
        [now apply (Hl is_check t1)|reflexivity|].
      unfold success_events in Hin. cbn [In] in Hin.
      destruct Hin as [<-|[<-|[<-|[]]]]; reflexivity.
    + left. split; [|exact Ht]. apply in_or_app. right. right.
      apply success_events_resolve.
  - destruct Hs as (Hi & Ht & _ & Hb).
    split; [exact Hi|split; [exact Hb|split]].
    + intros e Hin. apply in_app_or in Hin as [Hin|[<-|[<-|Hin]]];
        [now apply (Hl is_check t1)|reflexivity|reflexivity|].
      now apply (catch_trace_filter is_check _ Hc1 Hc2) in Hin.
    + right. split; [|exact Ht]. intros Hin.
      apply in_app_or in Hin as [Hin|[E|[E|Hin]]]; [|discriminate E|discriminate E|].
      * now apply (not_in_by is_resolve EvResolve t1 (Hl is_resolve t1 Hloop
                     (fun _ _ => eq_refl) (fun _ => eq_refl) eq_refl)) in Hin.
      * now apply (not_in_by is_resolve EvResolve _
                     (catch_trace_filter is_resolve _ Hr1 Hr2)) in Hin.
Qed.

Lemma applyUpdate_cache ext b w :
  buildInfoCache (world (applyUpdate ext b w)) = buildInfoCache w.
Proof. exact (proj1 (proj2 (applyUpdate_timers ext b w))). Qed.

(** X8: an update that has been installed stops the polling.  When the
    cycle reports success, the timer that the module variable names is
    cleared, so that with one polling timer running no further check is
    started when the next hour has passed; on every other outcome the
    timers are left as they were. *)
Theorem X8_installed_update_stops_polling (ext : Externals) (b : BuildInfo) (w : World) :
  let r := applyUpdate ext b w in
  (In EvResolve (events r) ->
   timers (world r) = timers (clear_timer w)
   /\ (forall t, In t (timers (world r)) -> insiderUpdateTimer w <> Some (Update.handle t))
   /\ (polling w -> events (hour_passes (world r)) = []))
  /\ (~ In EvResolve (events r) -> timers (world r) = timers w).
Proof.
  cbv zeta.
  assert (Hclear : forall t, In t (timers (clear_timer w)) ->
                             insiderUpdateTimer w <> Some (Update.handle t)).
  { intros t. unfold clear_timer, clearInterval_insider. cbn [fst snd timers].
    destruct (insiderUpdateTimer w) as [h|]; [|discriminate].
    intros Hin. apply filter_In in Hin as [_ Hin]. intros E. injection E as ->.
    now rewrite Nat.eqb_refl in Hin. }
  destruct (applyUpdate_timers ext b w) as (_ & _ & _ & [[Hin Ht]|[Hin Ht]]).
  - split; [intros _|intros Hn; now elim Hn].
    split; [exact Ht|split].
    + intros t. rewrite Ht. apply Hclear.
    + intros Hp. unfold hour_passes. rewrite Ht, (polling_cleared w Hp). reflexivity.
  - split; [intros Hr; now elim Hin|intros _; exact Ht].
Qed.

Lemma X8_witness :
  events (hour_passes
            (world (applyUpdate
                      (prompt_host (Some (lit "/tmp/cpptools.vsix")) (fun _ => true)
                                   Fulfilled (fun _ => FeedNothing))
                      example_build example_world))) = [].
Proof.
  refine (proj2 (proj2 (proj1
            (X8_installed_update_stops_polling
               (prompt_host (Some (lit "/tmp/cpptools.vsix")) (fun _ => true)
                            Fulfilled (fun _ => FeedNothing))
               example_build example_world) _)) _).
  - vm_compute. do 4 right. left. reflexivity.
  - exists (mkTimer 0 insiderUpdateTimerInterval [Insiders]). split; reflexivity.
Defined.

Lemma until_install_app t1 e rest :
  (forall a, In a t1 -> is_install a = false) -> is_install e = true ->
  until_install (t1 ++ e :: rest) = t1.
Proof.
  intros H He. induction t1 as [|a t1 IH]; cbn [app until_install].
  - now rewrite He.
  - rewrite (H a (or_introl eq_refl)). f_equal. apply IH.
    intros a' Ha. apply H. now right.
Qed.

Lemma good_download_exists url n t1 :
  In (EvDownload url n true) t1 -> existsb (is_good_download url) t1 = true.
Proof.
  intros Hin. apply existsb_exists. exists (EvDownload url n true).
  split; [exact Hin|]. cbn [is_good_download]. now rewrite string_eqb_refl.
Qed.

(** X10: [installVsix] is called at most once in a cycle, with the path of
    the temporary file, and only after a download of the build's URL has
    succeeded. *)
Theorem X10_install_follows_a_good_download
        (ext : Externals) (b : BuildInfo) (w : World) (p : jsstring) :
  let tr := events (applyUpdate ext b w) in
  List.length (filter is_install tr) <= 1
  /\ (In (EvInstall p) tr ->
      tmpFile ext = Some p
      /\ existsb (is_good_download (downloadUrl b)) (until_install tr) = true).
Proof.
  cbv zeta.
  assert (Hi1 : forall m, is_install (EvConsoleError m) = false) by reflexivity.
  assert (Hi2 : forall n q, is_install (EvTelemetry n q) = false) by reflexivity.
  assert (Hl : forall t1, Forall (loop_event (downloadUrl b)) t1 ->
                          forall e, In e t1 -> is_install e = false).
  { intros t1 F. now apply (loop_filter (downloadUrl b) is_install t1 F). }
  cycle_ends ext b w.
  - split.
    + cbn [filter is_install]. rewrite (filter_none is_install (catch_events _)
                 (catch_events_filter is_install _ Hi1 Hi2)). cbn. lia.
    + intros [E|Hin]; [discriminate E|].
      now apply (not_in_by is_install (EvInstall p) _
                   (catch_events_filter is_install _ Hi1 Hi2)) in Hin.
  - split.
    + rewrite filter_app, (filter_none is_install t1 (Hl t1 Hloop)).
      cbn [filter is_install app].
      rewrite (filter_none is_install (catch_events _)
                 (catch_events_filter is_install _ Hi1 Hi2)). cbn. lia.
    + intros Hin. apply in_app_or in Hin as [Hin|[E|Hin]]; [|discriminate E|].
      * now apply (not_in_by is_install (EvInstall p) t1 (Hl t1 Hloop)) in Hin.
      * now apply (not_in_by is_install (EvInstall p) _
                     (catch_events_filter is_install _ Hi1 Hi2)) in Hin.
  - destruct Hgood as [n Hgood]. split.
    + rewrite filter_app, (filter_none is_install t1 (Hl t1 Hloop)). cbn. lia.
    + intros Hin. apply in_app_or in Hin as [Hin|[E|[]]].
      * now apply (not_in_by is_install (EvInstall p) t1 (Hl t1 Hloop)) in Hin.
      * injection E as <-. split; [exact Tmp|].
        rewrite (until_install_app t1 (EvInstall vsixPath) [] (Hl t1 Hloop) eq_refl).
        exact (good_download_exists _ n t1 Hgood).
  - destruct Hgood as [n Hgood]. split.
    + rewrite filter_app, (filter_none is_install t1 (Hl t1 Hloop)). cbn. lia.
    + intros Hin. apply in_app_or in Hin as [Hin|[E|Hin]].
      * now apply (not_in_by is_install (EvInstall p) t1 (Hl t1 Hloop)) in Hin.
      * injection E as <-. split; [exact Tmp|].
        rewrite (until_install_app t1 (EvInstall vsixPath) _ (Hl t1 Hloop) eq_refl).
        exact (good_download_exists _ n t1 Hgood).
      * unfold success_events in Hin. cbn [In] in Hin.
        repeat (destruct Hin as [Hin|Hin]; try discriminate Hin). destruct Hin.
  - destruct Hgood as [n Hgood]. split.
    + rewrite filter_app, (filter_none is_install t1 (Hl t1 Hloop)).
      cbn [filter is_install app].
      rewrite (filter_none is_install (catch_trace _)
                 (catch_trace_filter is_install _ Hi1 Hi2)). cbn. lia.
    + intros Hin. apply in_app_or in Hin as [Hin|[E|[E|Hin]]]; [| |discriminate E|].
      * now apply (not_in_by is_install (EvInstall p) t1 (Hl t1 Hloop)) in Hin.
      * injection E as <-. split; [exact Tmp|].
        rewrite (until_install_app t1 (EvInstall vsixPath) _ (Hl t1 Hloop) eq_refl).
        exact (good_download_exists _ n t1 Hgood).
      * now apply (not_in_by is_install (EvInstall p) _
                     (catch_trace_filter is_install _ Hi1 Hi2)) in Hin.
Qed.

Lemma X10_witness :
  tmpFile example_externals = Some (lit "/tmp/cpptools.vsix")
  /\ existsb (is_good_download (downloadUrl example_build))
             (until_install (events (applyUpdate example_externals example_build
                                                 example_world))) = true.
Proof.
  apply (X10_install_follows_a_good_download example_externals example_build
           example_world (lit "/tmp/cpptools.vsix")).
  vm_compute. do 5 right. left. reflexivity.
Defined.

(** ** The polling timer over a session *)

Lemma world_bind {A B} (m : M A) (k : A -> M B) w :
  world (bind m k w) = world (k (result (m w)) (world (m w))).
Proof.
  unfold bind, world, result. destruct (m w) as [[a w1] t1]. cbn [fst snd].
  now destruct (k a w1) as [[b' w2] t2].
Qed.

Lemma events_bind {A B} (m : M A) (k : A -> M B) w :
  events (bind m k w) = events (m w) ++ events (k (result (m w)) (world (m w))).
Proof.
  unfold bind, world, result, events. destruct (m w) as [[a w1] t1]. cbn [fst snd].
  now destruct (k a w1) as [[b' w2] t2].
Qed.

Lemma checkAndApplyUpdate_timers ext ch w :
  let r := checkAndApplyUpdate ext ch w in
  insiderUpdateTimer (world r) = insiderUpdateTimer w
  /\ (forall e, In e (events r) -> is_check e = false)
  /\ (In EvResolve (events r) /\ timers (world r) = timers (clear_timer w)
      \/ ~ In EvResolve (events r) /\ timers (world r) = timers w).
Proof.
  cbv zeta. rewrite checkAndApplyUpdate_run.
  assert (Hw : forall b w', insiderUpdateTimer w' = insiderUpdateTimer w ->
                            timers w' = timers w ->
             insiderUpdateTimer (world (applyUpdate ext b w')) = insiderUpdateTimer w
             /\ (forall e, In e (events (applyUpdate ext b w')) -> is_check e = false)
             /\ (In EvResolve (events (applyUpdate ext b w'))
                 /\ timers (world (applyUpdate ext b w')) = timers (clear_timer w)
                 \/ ~ In EvResolve (events (applyUpdate ext b w'))
                    /\ timers (world (applyUpdate ext b w')) = timers w)).
  { intros b w' Hi Ht.
    destruct (applyUpdate_timers ext b w') as (Hi' & _ & Hc & H).
    split; [now rewrite Hi'|split; [exact Hc|]].
    destruct H as [[H1 H2]|[H1 H2]]; [left|right]; (split; [exact H1|]).
    - rewrite H2. unfold clear_timer, clearInterval_insider. cbn [fst snd timers].
      now rewrite Hi, Ht.
    - now rewrite H2. }
  destruct (buildInfoCache w) as [b|]; [now apply Hw|].
  cbv zeta. destruct (after_await_session (without_cache w)) as (Hi & Ht & _).
  destruct (getTargetBuildInfo ext ch) as [b| |e]; [now apply Hw| |].
  - cbn [world events fst snd]. split; [exact Hi|split; [intros e []|]].
    right. split; [intros []|exact Ht].
  - destruct (read_message e) as [m|]; cbn [world events fst snd].
    + split; [exact Hi|split].
      * intros e' [<-|[]]. reflexivity.
      * right. split; [|exact Ht]. intros [E|[]]. discriminate E.
    + split; [exact Hi|split; [intros e' []|]].
      right. split; [intros []|exact Ht].
Qed.

Lemma existsb_none {A} (f : A -> bool) l :
  (forall a, In a l -> f a = false) -> existsb f l = false.
Proof.
  induction l as [|a l IH]; intros H; [reflexivity|].
  cbn [existsb]. rewrite (H a (or_introl eq_refl)). apply IH.
  intros a' Ha. apply H. now right.
Qed.

Lemma since_last_change_none t :
  (forall e, In e t -> is_check e = false) -> since_last_change t = t.
Proof.
  intros H. destruct t as [|e t]; [reflexivity|]. cbn [since_last_change].
  rewrite (existsb_none is_check t), (H e (or_introl eq_refl)); [reflexivity|].
  intros a Ha. apply H. now right.
Qed.

Lemma since_last_change_cycle tr t :
  (forall e, In e t -> is_check e = false) ->
  since_last_change (tr ++ t) = since_last_change tr ++ t.
Proof.
  intros H. induction tr as [|e tr IH].
  - now apply since_last_change_none.
  - cbn [app since_last_change]. rewrite existsb_app, (existsb_none is_check t H).
    rewrite orb_false_r. destruct (existsb is_check tr); [exact IH|].
    now destruct (is_check e).
Qed.

Lemma since_last_change_check tr e :
  is_check e = true -> since_last_change (tr ++ [e]) = [].
Proof.
  intros He. induction tr as [|a tr IH].
  - cbn [app since_last_change existsb]. now rewrite He.
  - cbn [app since_last_change]. rewrite existsb_app. cbn [existsb].
    rewrite He, orb_true_r. cbn [orb]. exact IH.
Qed.

Lemma polling_not_empty w : polling w -> timers w <> [].
Proof. intros (t & Ht & _). rewrite Ht. discriminate. Qed.

Lemma change_follows prev ch w tr :
  timer_follows prev w tr -> is_channel ch -> ch <> prev -> is_channel prev ->
  timer_follows ch (world (onDidChangeSettings_updateChannel (Some ch) w))
                (tr ++ events (onDidChangeSettings_updateChannel (Some ch) w)).
Proof.
  intros (Hone & Hd & Hi) [->| ->] Hne [->| ->]; try (now elim Hne).
  - assert (E : timers (world (onDidChangeSettings_updateChannel (Some Default) w)) = []).
    { change (timers (clear_timer w) = []). destruct Hone as [Ht|Hp].
      - unfold clear_timer, clearInterval_insider. cbn [fst snd timers]. rewrite Ht.
        now destruct (insiderUpdateTimer w).
      - now apply polling_cleared. }
    split; [now left|split; [intros _; exact E|intros D; discriminate D]].
  - specialize (Hd eq_refl).
    assert (P : polling (world (onDidChangeSettings_updateChannel (Some Insiders) w))).
    { destruct w as [cfg q i ts n bc]. cbn [timers] in Hd. subst ts.
      exists (mkTimer n insiderUpdateTimerInterval []). split; reflexivity. }
    split; [now right|split; [intros D; discriminate D|intros _]].
    change (events (onDidChangeSettings_updateChannel (Some Insiders) w))
      with [EvCheckAndApplyUpdate (Some Insiders)].
    rewrite since_last_change_check by reflexivity.
    split; [intros _ []|intros _; exact P].
Qed.

Lemma cycle_follows ch ext updateChannel w tr :
  timer_follows ch w tr ->
  timer_follows ch (world (checkAndApplyUpdate ext updateChannel w))
                (tr ++ events (checkAndApplyUpdate ext updateChannel w)).
Proof.
  intros (Hone & Hd & Hi).
  destruct (checkAndApplyUpdate_timers ext updateChannel w)
    as (Hv & Hc & [[Hr Ht]|[Hr Ht]]).
  - assert (E : timers (world (checkAndApplyUpdate ext updateChannel w)) = []).
    { rewrite Ht. destruct Hone as [H|H]; [|now apply polling_cleared].
      unfold clear_timer, clearInterval_insider. cbn [fst snd timers]. rewrite H.
      now destruct (insiderUpdateTimer w). }
    split; [now left|split; [intros _; exact E|intros _]].
    rewrite (since_last_change_cycle tr _ Hc). split.
    + intros P. now elim (polling_not_empty _ P).
    + intros H. elim H. apply in_or_app. now right.
  - assert (P : polling (world (checkAndApplyUpdate ext updateChannel w)) <-> polling w).
    { unfold polling. rewrite Ht, Hv. reflexivity. }
    split; [rewrite Ht, P; exact Hone|split; [intros D; rewrite Ht; now apply Hd|intros I]].
    rewrite P, (Hi I), (since_last_change_cycle tr _ Hc). split.
    + intros H Hin. apply in_app_or in Hin as [Hin|Hin]; [now elim H|now elim Hr].
    + intros H Hin. apply H. apply in_or_app. now left.
Qed.

Lemma steps_follow ss : forall ch w tr,
  is_channel ch -> alternating_steps ch ss -> timer_follows ch w tr ->
  timer_follows (channel_after ch ss) (world (steps ss w)) (tr ++ events (steps ss w)).
Proof.
  induction ss as [|[ch'|ext uc] ss IH]; intros ch w tr Hc Ha Hf.
  - cbn [steps channel_after]. unfold ret. cbn [world events fst snd].
    now rewrite app_nil_r.
  - destruct Ha as (Hc' & Hne & Ha). cbn [steps channel_after step].
    rewrite world_bind, events_bind, app_assoc.
    apply (IH ch' _ _ Hc' Ha). now apply (change_follows ch ch' w tr).
  - cbn [steps channel_after step]. rewrite world_bind, events_bind, app_assoc.
    rewrite world_bind, events_bind. unfold ret at 1 2 3.
    cbn [world events fst snd]. rewrite app_nil_r.
    apply (IH ch _ _ Hc Ha). now apply cycle_follows.
Qed.

Lemma activation_follows c start :
  is_channel start ->
  timer_follows start (world (realActivation_updateChannel start (initial_world c)))
                (events (realActivation_updateChannel start (initial_world c))).
Proof.
  intros [->| ->].
  - split; [now left|split; [reflexivity|intros D; discriminate D]].
  - assert (P : polling (world (realActivation_updateChannel Insiders (initial_world c)))).
    { exists (mkTimer 0 insiderUpdateTimerInterval [Insiders]). now split. }
    split; [now right|split; [intros D; discriminate D|intros _]].
    split; [intros _ []|intros _; exact P].
Qed.

(** X11: at most one polling timer runs.  From activation on, through
    changes of the update channel, each to the other of the two channels,
    and through update cycles, no timer runs but the one the module
    variable names; none runs on the Default channel; on the Insiders
    channel the timer runs until a cycle reports an install, which stops
    the polling until the channel is changed again; and no timer is left
    when the extension is deactivated. *)
Theorem X11_polling_follows_the_channel
        (c : Config) (start : jsstring) (ss : list Step) :
  is_channel start -> alternating_steps start ss ->
  let r := (realActivation_updateChannel start ;;; steps ss) (initial_world c) in
  let w := world r in
  (timers w = [] \/ polling w)
  /\ (channel_after start ss = Default -> timers w = [])
  /\ (channel_after start ss = Insiders ->
      (polling w <-> ~ In EvResolve (since_last_change (events r))))
  /\ timers (world (deactivate w)) = [].
Proof.
  intros Hs Ha. cbv zeta. rewrite world_bind, events_bind.
  destruct (steps_follow ss start _ _ Hs Ha (activation_follows c start Hs))
    as (Hone & Hd & Hi).
  split; [exact Hone|split; [exact Hd|split; [exact Hi|]]].
  change (timers (clear_timer
            (world (steps ss (world (realActivation_updateChannel start
                                       (initial_world c)))))) = []).
  destruct Hone as [E|P]; [|now apply polling_cleared].
  unfold clear_timer, clearInterval_insider. cbn [fst snd timers]. rewrite E.
  now destruct (insiderUpdateTimer _).
Qed.

Lemma X11_witness :
  (polling
     (world ((realActivation_updateChannel Default
              ;;; steps [ChannelChange Insiders;
                         UpdateCycle (prompt_host (Some (lit "/tmp/cpptools.vsix"))
                                                  (fun _ => true) Fulfilled
                                                  (fun _ => FeedBuild example_build))
                                     (Some Insiders)])
               (initial_world (mkConfig (lit "override") None None))))
   <-> ~ In EvResolve
           (since_last_change
              (events ((realActivation_updateChannel Default
                        ;;; steps [ChannelChange Insiders;
                                   UpdateCycle
                                     (prompt_host (Some (lit "/tmp/cpptools.vsix"))
                                                  (fun _ => true) Fulfilled
                                                  (fun _ => FeedBuild example_build))
                                     (Some Insiders)])
                         (initial_world (mkConfig (lit "override") None None))))))
  /\ In EvResolve
        (events ((realActivation_updateChannel Default
                  ;;; steps [ChannelChange Insiders;
                             UpdateCycle
                               (prompt_host (Some (lit "/tmp/cpptools.vsix"))
                                            (fun _ => true) Fulfilled
                                            (fun _ => FeedBuild example_build))
                               (Some Insiders)])
                   (initial_world (mkConfig (lit "override") None None)))).
Proof.
  split; [|vm_compute; do 6 right; left; reflexivity].
  refine (proj1 (proj2 (proj2
            (X11_polling_follows_the_channel
               (mkConfig (lit "override") None None) Default
               [ChannelChange Insiders;
                UpdateCycle (prompt_host (Some (lit "/tmp/cpptools.vsix")) (fun _ => true)
                                         Fulfilled (fun _ => FeedBuild example_build))
                            (Some Insiders)] _ _))) eq_refl).
  - left. reflexivity.
  - cbn [alternating_steps]. split; [right; reflexivity|split; [|exact I]].
    vm_compute. discriminate.
Defined.

(** ** The suggestion to switch to the Insiders channel *)

Lemma suggest_shown ext s b selection :
  PersistentState_Value true (suggestInsiders s) = true ->
  getTargetBuildInfo ext (Some Insiders) = FeedBuild b ->
  suggestInsidersChannel ext selection s
  = let shown :=
      [UiShowInformationMessage
         (lit "Insiders version " ++ buildName b
          ++ lit " is available. Would you like to switch to the Insiders channel and install this update?")
         [yes; askLater; dontShowAgain]] in
    match selection with
    | Some sel =>
        if string_eqb sel yes then
          (mkSession (set_buildInfoCache (Some b) (sessionWorld s)) (suggestInsiders s),
           shown ++ [UiUpdateSetting (lit "C_Cpp") (lit "updateChannel") Insiders])
        else if string_eqb sel dontShowAgain then
          (mkSession (sessionWorld s) (Some false), shown)
        else (s, shown)
    | None => (s, shown)
    end.
Proof.
  intros Hv Hf. unfold suggestInsidersChannel. rewrite Hv, Hf. reflexivity.
Qed.

(** X9: a suggestion that is accepted installs the build that was offered.
    After the answer Yes the build is cached and the channel setting is
    changed; the handler of that change starts the polling and calls
    [checkAndApplyUpdate], which applies the cached build whatever the feed
    answers by then, and leaves the cache empty. *)
Theorem X9_accepted_suggestion_installs_the_offered_build
        (ext ext' : Externals) (s : Session) (b : BuildInfo) :
  PersistentState_Value true (suggestInsiders s) = true ->
  getTargetBuildInfo ext (Some Insiders) = FeedBuild b ->
  timers (sessionWorld s) = [] ->
  let accepted := suggestInsidersChannel ext (Some yes) s in
  let changed := onDidChangeSettings_updateChannel (Some Insiders)
                   (sessionWorld (fst accepted)) in
  In (UiUpdateSetting (lit "C_Cpp") (lit "updateChannel") Insiders) (snd accepted)
  /\ events changed = [EvCheckAndApplyUpdate (Some Insiders)]
  /\ polling (world changed)
  /\ checkAndApplyUpdate ext' (Some Insiders) (world changed)
     = applyUpdate ext' b (without_cache (world changed))
  /\ buildInfoCache (world (checkAndApplyUpdate ext' (Some Insiders) (world changed)))
     = None.
Proof.
  intros Hv Hf Ht. cbv zeta. rewrite (suggest_shown ext s b (Some yes) Hv Hf).
  cbv zeta. change (string_eqb yes yes) with true. cbv iota. cbn [fst snd sessionWorld].
  destruct s as [[cfg q i ts n bc] flag]. cbn [sessionWorld timers] in Ht. subst ts.
  cbn [sessionWorld].
  set (w1 := world (onDidChangeSettings_updateChannel (Some Insiders)
                      (set_buildInfoCache (Some b) (mkWorld cfg q i [] n bc)))).
  assert (Hc : buildInfoCache w1 = Some b) by reflexivity.
  assert (E : checkAndApplyUpdate ext' (Some Insiders) w1
              = applyUpdate ext' b (without_cache w1)).
  { rewrite checkAndApplyUpdate_run, Hc. reflexivity. }
  split; [cbn [app In]; right; left; reflexivity|].
  split; [reflexivity|].
  split; [exists (mkTimer n insiderUpdateTimerInterval []); split; reflexivity|].
  split; [exact E|]. rewrite E, applyUpdate_cache. reflexivity.
Qed.

Lemma X9_witness :
  checkAndApplyUpdate example_externals (Some Insiders)
    (world (onDidChangeSettings_updateChannel (Some Insiders)
              (sessionWorld
                 (fst (suggestInsidersChannel
                         (prompt_host None (fun _ => false) Pending
                                      (fun _ => FeedBuild example_build))
                         (Some yes)
                         (mkSession (initial_world (mkConfig (lit "override") None None))
                                    None))))))
  = applyUpdate example_externals example_build
      (without_cache
         (world (onDidChangeSettings_updateChannel (Some Insiders)
                   (sessionWorld
                      (fst (suggestInsidersChannel
                              (prompt_host None (fun _ => false) Pending
                                           (fun _ => FeedBuild example_build))
                              (Some yes)
                              (mkSession (initial_world (mkConfig (lit "override") None None))
                                         None))))))).
Proof.
  exact (proj1 (proj2 (proj2 (proj2
           (X9_accepted_suggestion_installs_the_offered_build
              (prompt_host None (fun _ => false) Pending
                           (fun _ => FeedBuild example_build))
              example_externals
              (mkSession (initial_world (mkConfig (lit "override") None None)) None)
              example_build eq_refl eq_refl eq_refl))))).
Defined.

(** X12: the answer Don't Show Again is remembered: every later call of
    [suggestInsidersChannel] returns at once, without asking the feed and
    without a message.  Ask Me Later, any other answer and a dismissed
    message leave everything as it was, so the next call asks again. *)
Theorem X12_dont_show_again_is_remembered
        (ext ext' : Externals) (s : Session) (b : BuildInfo)
        (selection selection' : option jsstring) :
  PersistentState_Value true (suggestInsiders s) = true ->
  getTargetBuildInfo ext (Some Insiders) = FeedBuild b ->
  let refused := fst (suggestInsidersChannel ext (Some dontShowAgain) s) in
  suggestInsidersChannel ext' selection' refused = (refused, [])
  /\ sessionWorld refused = sessionWorld s
  /\ (selection <> Some yes -> selection <> Some dontShowAgain ->
      fst (suggestInsidersChannel ext selection s) = s).
Proof.
  intros Hv Hf. cbv zeta. rewrite !(suggest_shown ext s b _ Hv Hf). cbv zeta.
  change (string_eqb dontShowAgain yes) with false.
  change (string_eqb dontShowAgain dontShowAgain) with true. cbv iota. cbn [fst].
  split; [reflexivity|split; [reflexivity|]].
  intros Hy Hd. destruct selection as [sel|]; [|reflexivity].
  destruct (string_eqb sel yes) eqn:E1.
  { apply string_eqb_eq in E1. subst sel. now elim Hy. }
  destruct (string_eqb sel dontShowAgain) eqn:E2; [|reflexivity].
  apply string_eqb_eq in E2. subst sel. now elim Hd.
Qed.

Lemma X12_witness :
  suggestInsidersChannel
    (prompt_host None (fun _ => false) Pending (fun _ => FeedBuild example_build))
    (Some yes)
    (fst (suggestInsidersChannel
            (prompt_host None (fun _ => false) Pending (fun _ => FeedBuild example_build))
            (Some dontShowAgain) (mkSession example_world None)))
  = (fst (suggestInsidersChannel
            (prompt_host None (fun _ => false) Pending (fun _ => FeedBuild example_build))
            (Some dontShowAgain) (mkSession example_world None)), []).
Proof.
  exact (proj1 (X12_dont_show_again_is_remembered
                  (prompt_host None (fun _ => false) Pending
                               (fun _ => FeedBuild example_build))
                  (prompt_host None (fun _ => false) Pending
                               (fun _ => FeedBuild example_build))
                  (mkSession example_world None) example_build None (Some yes)
                  eq_refl eq_refl)).
Defined.

(** ** A host that writes the setting at once *)

Lemma fallback_available_change w :
  fallback_available w = true ->
  is_fallback_change (EvConfigUpdate (globalValue (config w))) = false.
Proof.
  unfold fallback_available. intros H. apply andb_prop in H as [_ H].
  now apply not_fallback_change.
Qed.

Lemma set_global_restored w :
  pendingWrites w = [] ->
  set_global (globalValue (config w)) (set_global (Some off) w) = w.
Proof. destruct w as [[d g ws] q i t n b]. cbn. now intros ->. Qed.

(** The cycle on such a host, outcome by outcome. *)
Lemma applyUpdate_prompt ext b w :
  prompt ext w ->
  applyUpdate ext b w
  = match tmpFile ext with
    | None =>
        (Fulfilled, w,
         EvReject (err "Failed to create vsix file")
         :: catch_events (lit "Failed to create vsix file"))
    | Some vsixPath =>
        let install t1 :=
          match installOutcome ext with
          | RejectedWith v =>
              (catch_result ext v, w, t1 ++ EvInstall vsixPath :: EvReject v :: catch_trace v)
          | Pending => (Pending, w, t1 ++ [EvInstall vsixPath])
          | Fulfilled =>
              (Fulfilled, clear_timer w, t1 ++ EvInstall vsixPath :: success_events b)
          end in
        let url := downloadUrl b in
        let g := globalValue (config w) in
        if download ext 0 then install [EvDownload url 0 true]
        else if fallback_available w then
          if download ext 1 then
            install [EvDownload url 0 false; EvConfigUpdate (Some off);
                     EvDownload url 1 true; EvConfigUpdate g; proxyOffSuccess]
          else
            (Fulfilled, w,
             [EvDownload url 0 false; EvConfigUpdate (Some off);
              EvDownload url 1 false; EvConfigUpdate g]
             ++ EvReject (err "Failed to download VSIX package with proxySupport off")
                :: catch_events
                     (lit "Failed to download VSIX package with proxySupport off"))
        else
          (Fulfilled, w,
           [EvDownload url 0 false]
           ++ EvReject (err "Failed to download VSIX package")
              :: catch_events (lit "Failed to download VSIX package"))
    end.
Proof.
  intros Hp. pose proof Hp as [Hq Hl]. rewrite applyUpdate_run. cbv zeta.
  rewrite (prompt_await w Hq).
  destruct (tmpFile ext) as [vsixPath|]; [|reflexivity].
  assert (F : result (loop_bound ext w) = S (S 1)).
  { unfold loop_bound. cbn [result fst]. rewrite Hq, Hl. reflexivity. }
  rewrite F, (download_loop_run ext (downloadUrl b) w 1 Hp).
  destruct (download ext 0).
  - cbn [result world events fst snd]. rewrite (prompt_await w Hq). reflexivity.
  - destruct (fallback_available w); [|reflexivity].
    cbv zeta. rewrite (set_global_restored w Hq).
    destruct (download ext 1); cbn [result world events fst snd];
      [rewrite (prompt_await w Hq)|]; reflexivity.
Qed.

Ltac prompt_cases ext b w Hp :=
  rewrite (applyUpdate_prompt ext b w Hp);
  destruct (tmpFile ext) as [vsixPath|] eqn:Tmp;
  [ cbv zeta; destruct (download ext 0) eqn:D0;
    [ destruct (installOutcome ext) as [| |thrown] eqn:I
    | destruct (fallback_available w) eqn:F;
      [ destruct (download ext 1) eqn:D1;
        [ destruct (installOutcome ext) as [| |thrown] eqn:I | ]
      | ] ]
  | ];
  try match goal with
      | |- context [catch_trace ?v] =>
          unfold catch_trace, catch_result; destruct (read_message v) as [[| | |?|]|]
      end.

Ltac fold_change w :=
  change (match globalValue (config w) with
          | Some v => string_eqb v off
          | None => false
          end)
    with (is_fallback_change (EvConfigUpdate (globalValue (config w)))) in *.

Ltac find_event := repeat first [left; reflexivity | right].

(** X26: what the specification says of the retry holds on a host that
    has written the setting when [config.update] returns.  There a failed
    download is tried again once, and only after the user setting
    http.proxySupport has been set to off, which is done when neither the
    setting in effect nor the user setting was off; otherwise, and when
    the second download fails too, the cycle is rejected; on every outcome
    the setting is back at its original value when the outcome is reported
    and is not changed afterwards; a failure followed by a success gives
    one change to off, its reversal, and then the report of the success. *)
Theorem X26_prompt_writes_make_the_retry_sound
        (ext : Externals) (b : BuildInfo) (w : World) :
  prompt ext w ->
  let r := applyUpdate ext b w in
  let tr := events r in
  let downloads := List.length (filter is_download tr) in
  downloads <= 2
  /\ (downloads = 2 <->
      tmpFile ext <> None /\ download ext 0 = false /\ fallback_available w = true)
  /\ List.length (filter is_fallback_change tr) = downloads - 1
  /\ (tmpFile ext <> None -> download ext 0 = false ->
      (fallback_available w = false ->
       In (EvReject (err "Failed to download VSIX package")) tr)
      /\ (fallback_available w = true -> download ext 1 = false ->
          In (EvReject (err "Failed to download VSIX package with proxySupport off")) tr))
  /\ config (world r) = config w
  /\ pendingWrites (world r) = []
  /\ replay (until_report tr) (config w) = config w
  /\ filter is_config_update (from_report tr) = []
  /\ (forall vsixPath,
        tmpFile ext = Some vsixPath -> download ext 0 = false ->
        fallback_available w = true -> download ext 1 = true ->
        installOutcome ext = Fulfilled ->
        result r = Fulfilled
        /\ tr = [EvDownload (downloadUrl b) 0 false; EvConfigUpdate (Some off);
                 EvDownload (downloadUrl b) 1 true;
                 EvConfigUpdate (globalValue (config w)); proxyOffSuccess;
                 EvInstall vsixPath] ++ success_events b).
Proof.
  intros Hp. pose proof Hp as [Hq _]. cbv zeta. prompt_cases ext b w Hp.
  all: cbn -[off]; rewrite ?string_eqb_refl; fold_change w.
  all: rewrite ?(fallback_available_change w) by assumption.
  all: cbn -[off]; rewrite ?config_restored.
  all: repeat match goal with |- _ /\ _ => split end.
  all: try reflexivity; try lia; try exact Hq.
  all: try (split; [intros; lia | intros (? & ? & ?); congruence]).
  all: try (split; [intros _; repeat split; congruence | reflexivity]).
  all: try (intros; congruence).
  all: try (intros p E; injection E as <-; intros; split; reflexivity).
  all: intros _ _; split; intros; try discriminate; find_event.
Qed.

Lemma X26_witness :
  result (applyUpdate example_externals example_build example_world) = Fulfilled
  /\ events (applyUpdate example_externals example_build example_world)
     = [EvDownload (lit "u") 0 false; EvConfigUpdate (Some off);
        EvDownload (lit "u") 1 true; EvConfigUpdate None; proxyOffSuccess;
        EvInstall (lit "/tmp/cpptools.vsix")] ++ success_events example_build.
Proof.
  exact (proj2 (proj2 (proj2 (proj2 (proj2 (proj2 (proj2 (proj2
           (X26_prompt_writes_make_the_retry_sound example_externals example_build
              example_world (conj eq_refl (fun _ => eq_refl))))))))))
           (lit "/tmp/cpptools.vsix") eq_refl eq_refl eq_refl eq_refl eq_refl).
Defined.

(** ** The loop around the download ends *)



End UpdateProps.

Import UpdateProps.

(* ===================================================================== *)
(** * The install process: what is written to it and when it is killed *)
(* ===================================================================== *)

Module InstallProps.

Unset Implicit Arguments.

Ltac keep_inv Hs Ht Hk Hv :=
  split; [exact Hs|split; [exact Ht|split; [exact Hk|exact Hv]]].

Lemma settled_stays e r : settle (RejectedWith e) r = RejectedWith e.
Proof. reflexivity. Qed.

Lemma handle_inv st ev : listeners_inv st -> listeners_inv (handle st ev).
Proof.
  unfold listeners_inv, handle. destruct st as [v p t k i s]. cbn.
  intros (Hs & Ht & Hk & Hv).
  destruct v, ev; cbn; try keep_inv Hs Ht Hk Hv.
  - (* the host command settles *)
    destruct (Hv eq_refl) as [-> ->].
    split; [exact Hs|split; [discriminate|split; [discriminate|now split]]].
  - (* exit *)
    split; [exact Hs|split; [discriminate|split; [|discriminate]]].
    intros E. destruct (Hk E) as [-> | ->]; cbn; auto.
  - (* timeout, exit variant *)
    destruct t; cbn; [|keep_inv Hs Ht Hk Hv].
    split; [exact Hs|split; [discriminate|split; [|discriminate]]].
    intros _. destruct (Ht eq_refl) as [-> | ->]; cbn; auto.
  - (* first output *)
    destruct s; cbn; [keep_inv Hs Ht Hk Hv|].
    split; [|split; [discriminate|split; [|discriminate]]].
    + right. destruct Hs as [[-> _]|[_ E]]; [now split|discriminate].
    + intros E. destruct (Hk E) as [-> | ->]; cbn; auto.
  - (* timeout, output variant *)
    destruct t; cbn; [|keep_inv Hs Ht Hk Hv].
    split; [exact Hs|split; [discriminate|split; [|discriminate]]].
    intros _. destruct (Ht eq_refl) as [-> | ->]; cbn; auto.
Qed.

Lemma run_inv evs : forall st, listeners_inv st -> listeners_inv (run st evs).
Proof.
  induction evs as [|ev evs IH]; intros st H; [exact H|].
  rewrite run_cons. apply IH. now apply handle_inv.
Qed.




Section AnyInstall.

Variable PackageVersion : Type.
Variable isGreaterThan : PackageVersion -> PackageVersion -> bool.
Variable version_1_32_3 version_1_27_2 : PackageVersion.

Lemma installVsix_inv (i : InstallInput PackageVersion) :
  listeners_inv (installVsix PackageVersion isGreaterThan version_1_32_3 version_1_27_2 i)
  /\ killed (installVsix PackageVersion isGreaterThan version_1_32_3 version_1_27_2 i)
     = false.
Proof.
  unfold installVsix, listeners_inv.
  destruct (isGreaterThan (userVersion i) version_1_32_3); [cbn; intuition discriminate|].
  destruct (platformInformation i); [cbn; intuition discriminate| |cbn; intuition discriminate].
  destruct (vsCodeScriptPath i); [|cbn; intuition discriminate].
  destruct (isGreaterThan (userVersion i) version_1_27_2), (spawnResult i);
    cbn; intuition (auto; discriminate).
Qed.

(** X13: whatever the process and the host do, the confirmation is
    written to the install process at most once, and nothing else is ever
    written to it. *)
Theorem X13_confirmation_is_written_at_most_once
        (i : InstallInput PackageVersion) (evs : list ProcEvent) :
  let st := run (installVsix PackageVersion isGreaterThan version_1_32_3 version_1_27_2 i)
                evs in
  List.length (stdin st) <= 1
  /\ forall line, In line (stdin st) -> line = lit "0" ++ [LF].
Proof.
  cbv zeta.
  destruct (run_inv evs _ (proj1 (installVsix_inv i))) as ([[-> _]|[-> _]] & _).
  - split; [cbn; lia|intros line []].
  - split; [cbn; lia|]. intros line [<-|[]]. reflexivity.
Qed.


Lemma handle_variant st ev : variant (handle st ev) = variant st.
Proof.
  unfold handle. destruct st as [v p t k i s]. cbn.
  destruct v, ev, t, s; reflexivity.
Qed.

Lemma run_without_exits evs : forall st,
  variant st <> ViaExitCode ->
  run st evs = run st (filter (fun ev => negb (is_exit ev)) evs).
Proof.
  induction evs as [|ev evs IH]; intros st Hv; [reflexivity|].
  rewrite run_cons. cbn [filter].
  assert (Hv' : variant (handle st ev) <> ViaExitCode) by now rewrite handle_variant.
  destruct ev as [code| | |]; cbn [is_exit negb]; rewrite ?run_cons; try now apply IH.
  replace (handle st (Exit code)) with st; [now apply IH|].
  unfold handle. destruct st as [v p t k i s]. cbn in *. now destruct v.
Qed.

(** X25: on a host that is not newer than 1.27.2 the exit of the install
    process is not looked at.  The outcome is the same with all exit
    events left out, and once the script that was started has printed
    anything the install counts as done, whatever follows: an exit with
    an error code or the end of the 30 seconds. *)
Theorem X25_older_variant_ignores_the_exit_code
        (i : InstallInput PackageVersion) (evs : list ProcEvent) :
  isGreaterThan (userVersion i) version_1_32_3 = false ->
  isGreaterThan (userVersion i) version_1_27_2 = false ->
  let st := installVsix PackageVersion isGreaterThan version_1_32_3 version_1_27_2 i in
  run st evs = run st (filter (fun ev => negb (is_exit ev)) evs)
  /\ (platformInformation i = Fulfilled -> vsCodeScriptPath i <> None ->
      spawnResult i = Spawned ->
      run st (StdoutData :: evs)
      = mkInstall ViaStdout Fulfilled false false [lit "0" ++ [LF]] true).
Proof.
  intros H1 H2. cbv zeta. split.
  - apply run_without_exits. unfold installVsix. rewrite H1, H2.
    destruct (platformInformation i); try discriminate.
    destruct (vsCodeScriptPath i); [|discriminate].
    destruct (spawnResult i); discriminate.
  - intros Hp Hs Hsp. unfold installVsix. rewrite H1, H2, Hp, Hsp.
    destruct (vsCodeScriptPath i); [|now elim Hs].
    rewrite run_cons. apply run_stdout_settled.
Qed.

End AnyInstall.

Lemma X25_witness :
  run (installVsix_semver (mkInput (mkSemVer 1 20 0) Fulfilled
                                   (Some (lit "/usr/bin/code")) Spawned))
      [StdoutData; Exit (Some 1%Z); Timeout30s]
  = mkInstall ViaStdout Fulfilled false false [lit "0" ++ [LF]] true.
Proof.
  exact (proj2 (X25_older_variant_ignores_the_exit_code
                  SemVer semver_gt (mkSemVer 1 32 3) (mkSemVer 1 27 2)
                  (mkInput (mkSemVer 1 20 0) Fulfilled (Some (lit "/usr/bin/code")) Spawned)
                  [Exit (Some 1%Z); Timeout30s] eq_refl eq_refl)
               eq_refl ltac:(discriminate) eq_refl).
Defined.



End InstallProps.

Import InstallProps.

(* ===================================================================== *)
(** * The crash report *)
(* ===================================================================== *)

Module CrashProps.

Unset Implicit Arguments.

#[local] Arguments lit : simpl never.
#[local] Arguments String_replace_global : simpl never.
#[local] Arguments String_includes : simpl never.
#[local] Arguments String_indexOf : simpl never.
#[local] Arguments String_match : simpl never.
#[local] Arguments split_lines : simpl never.
#[local] Arguments String_trimRight : simpl never.

Lemma substr_length s n :
  (0 <= n)%Z -> List.length (String_substr s 0 (Some n)) <= Z.to_nat n.
Proof.
  intros Hn. unfold String_substr. cbn [Z.ltb Z.compare].
  rewrite length_firstn. lia.
Qed.

Lemma limited_length data : (Z.of_nat (List.length (limited data)) <= 8192)%Z.
Proof.
  unfold limited. destruct (8192 <? Z.of_nat (List.length data))%Z eqn:E.
  - rewrite length_app. pose proof (substr_length data 8189 ltac:(lia)) as H.
    change (List.length (lit "...")) with 3. lia.
  - apply Z.ltb_ge in E. exact E.
Qed.

(** The text logged for a file that was read: one of the three marks, or
    the call stack, cleaned and cut. *)
Lemma crash_report_cases data :
  crash_report data = lit "No crash start"
  \/ crash_report data = lit "No crash end"
  \/ crash_report data = lit "No process"
  \/ exists process version stack,
       (process = process1 \/ process = process2)
       /\ crash_report data
          = limited (String_trimRight
                       (fold_left add_line
                          (split_lines (process ++ version ++ [LF] ++ stack)) [])).
Proof.
  unfold crash_report, handleCrashFileRead.
  destruct (0 <=? String_indexOf (lit "Version:") data 0)%Z.
  all: match goal with
       | |- context [String_indexOf crashStart ?d 0] =>
           destruct (String_indexOf crashStart d 0 <? 0)%Z; [now left|]
       end.
  all: match goal with
       | |- context [if ?b then logCrashTelemetry (lit "No crash end") else _] =>
           destruct b
       end; [now right; left|].
  all: destruct (String_includes process1 _);
    [do 3 right; eexists process1, _, _; split; [now left|reflexivity]|].
  all: destruct (String_includes process2 _);
    [do 3 right; eexists process2, _, _; split; [now right|reflexivity]|].
  all: now right; right; left.
Qed.

(** X15: the text logged for a crash file that was read is never longer
    than 8192 characters, and the function logs one event, MacCrash, with
    that text as its only property. *)
Theorem X15_crash_report_fits_the_limit (data : jsstring) :
  handleCrashFileRead None data
  = mkTelemetry (lit "MacCrash") [(lit "CrashingThreadCallStack", crash_report data)]
  /\ (Z.of_nat (List.length (crash_report data)) <= 8192)%Z.
Proof.
  split.
  - unfold crash_report, handleCrashFileRead.
    destruct (0 <=? String_indexOf (lit "Version:") data 0)%Z.
    all: match goal with
         | |- context [String_indexOf crashStart ?d 0] =>
             destruct (String_indexOf crashStart d 0 <? 0)%Z; [reflexivity|]
         end.
    all: match goal with
         | |- context [if ?b then logCrashTelemetry (lit "No crash end") else _] =>
             destruct b
         end; [reflexivity|].
    all: destruct (String_includes process1 _); [reflexivity|].
    all: destruct (String_includes process2 _); reflexivity.
  - destruct (crash_report_cases data) as [E|[E|[E|(p & v & st & _ & E)]]]; rewrite E.
    + vm_compute. discriminate.
    + vm_compute. discriminate.
    + vm_compute. discriminate.
    + apply limited_length.
Qed.

(** ** Occurrences *)

Lemma starts_with_iff n s : starts_with n s = true <-> exists b, s = n ++ b.
Proof.
  revert s. induction n as [|x n IH]; intros s.
  - cbn. split; [intros _; now exists s|reflexivity].
  - destruct s as [|c s]; cbn [starts_with].
    + split; [discriminate|intros (b & E); discriminate E].
    + rewrite andb_true_iff, IH, N.eqb_eq. split.
      * intros (-> & b & ->). now exists b.
      * intros (b & E). injection E as -> ->. split; [reflexivity|now exists b].
Qed.

Lemma index_from_occurs n s : forall idx,
  (exists i, index_from n s idx = Some i) <-> occurs n s.
Proof.
  induction s as [|c s IH]; intros idx.
  - cbn [index_from]. destruct (starts_with n []) eqn:E.
    + apply starts_with_iff in E as (b & E). split; [|intros _; now exists idx].
      intros _. exists [], b. exact E.
    + split; [intros (i & H); discriminate H|].
      intros (a & b & H). destruct a; [|discriminate H].
      assert (starts_with n [] = true) by (apply starts_with_iff; now exists b).
      congruence.
  - cbn [index_from]. destruct (starts_with n (c :: s)) eqn:E.
    + apply starts_with_iff in E as (b & E). split; [|intros _; now exists idx].
      intros _. exists [], b. exact E.
    + rewrite IH. split.
      * intros (a & b & ->). now exists (c :: a), b.
      * intros (a & b & H). destruct a as [|c' a].
        -- assert (starts_with n (c :: s) = true) by (apply starts_with_iff; now exists b).
           congruence.
        -- injection H as -> ->. now exists a, b.
Qed.

Lemma includes_iff n s : String_includes n s = true <-> occurs n s.
Proof.
  unfold String_includes. rewrite <- (index_from_occurs n s 0).
  destruct (index_from n s 0) as [i|]; split; try reflexivity; try discriminate.
  - intros _. now exists i.
  - intros (i & H). discriminate H.
Qed.

Lemma includes_false n s : String_includes n s = false <-> ~ occurs n s.
Proof.
  rewrite <- includes_iff. destruct (String_includes n s); split; congruence.
Qed.

Lemma occurs_part n x s y : occurs n s -> occurs n (x ++ s ++ y).
Proof.
  intros (a & b & ->). exists (x ++ a), (b ++ y). now rewrite <- !app_assoc.
Qed.

Lemma occurs_prefix n s t : occurs n s -> occurs n (s ++ t).
Proof. intros H. apply (occurs_part n [] s t H). Qed.

Lemma occurs_suffix n s t : occurs n s -> occurs n (t ++ s).
Proof.
  intros H. pose proof (occurs_part n t s [] H) as H'. now rewrite app_nil_r in H'.
Qed.

(** An occurrence does not reach across a character that the text does
    not hold. *)
Lemma occurs_sep n (c : char) (X Y : jsstring) :
  ~ In c n -> occurs n (X ++ c :: Y) -> occurs n X \/ occurs n Y.
Proof.
  intros Hc (a & b & E).
  apply app_eq_app in E as (l & [[E1 E2]|[E1 E2]]).
  - symmetry in E2. apply app_eq_app in E2 as (l' & [[E3 E4]|[E3 E4]]).
    + left. exists a, l'. now rewrite E1, E3.
    + destruct l' as [|c' l'].
      * left. exists a, []. rewrite app_nil_r in E3. subst. now rewrite app_nil_r.
      * injection E4 as <- _. elim Hc. rewrite E3. apply in_or_app. right. now left.
  - destruct l as [|c' l].
    + cbn [app] in E2. destruct n as [|x n].
      * left. exists X, []. now rewrite app_nil_r.
      * injection E2 as <- _. elim Hc. now left.
    + injection E2 as _ ->. right. now exists l, b.
Qed.

(** An occurrence in a string with something appended that does not hold
    the last character of the text lies in the string. *)
Lemma occurs_before n0 (l : char) (X Y : jsstring) :
  ~ In l Y -> occurs (n0 ++ [l]) (X ++ Y) -> occurs (n0 ++ [l]) X.
Proof.
  intros Hl (a & b & E).
  rewrite <- !app_assoc in E. rewrite app_assoc in E. cbn [app] in E.
  apply app_eq_app in E as (k & [[E1 E2]|[E1 E2]]).
  - destruct k as [|l' k].
    + cbn [app] in E2. elim Hl. rewrite <- E2. now left.
    + injection E2 as <- _. exists a, k.
      rewrite E1, <- !app_assoc. reflexivity.
  - elim Hl. rewrite E2. apply in_or_app. right. now left.
Qed.

(** ** The patterns of a literal text *)

Lemma compile_Literal p : forall e s cs c,
  compile (Literal p) (mkState e s cs) c
  = if starts_with p s
    then c (mkState (e + List.length p) (skipn (List.length p) s) cs)
    else None.
Proof.
  unfold Literal. induction p as [|a p IH]; intros e s cs c.
  - cbn. now rewrite Nat.add_0_r.
  - destruct p as [|b p'].
    + cbn [map Concat]. rewrite compile_Lit. destruct s as [|x s]; [reflexivity|].
      cbn [starts_with List.length skipn].
      destruct (N.eqb a x); [|reflexivity].
      destruct s; cbn; now rewrite Nat.add_1_r.
    + change (Concat (map Lit (a :: b :: p')))
        with (Seq (Lit a) (Concat (map Lit (b :: p')))).
      rewrite compile_Seq, compile_Lit. destruct s as [|x s]; [reflexivity|].
      change (starts_with (a :: b :: p') (x :: s))
        with (N.eqb a x && starts_with (b :: p') s).
      destruct (N.eqb a x); [|reflexivity].
      rewrite IH. cbn [andb]. destruct (starts_with (b :: p') s); [|reflexivity].
      cbn [List.length skipn]. f_equal. f_equal. lia.
Qed.

Lemma match_at_Literal p idx s :
  match_at (Literal p) idx s
  = if starts_with p s
    then Some (mkState (idx + List.length p) (skipn (List.length p) s) [])
    else None.
Proof. unfold match_at. apply compile_Literal. Qed.

Lemma replace_loop_skip r repl k : forall s idx,
  k <= List.length s ->
  replace_loop r repl idx k s = replace_loop r repl (idx + k) 0 (skipn k s).
Proof.
  induction k as [|k IH]; intros s idx Hk.
  - now rewrite Nat.add_0_r.
  - destruct s as [|c s]; [cbn in Hk; lia|].
    cbn [replace_loop skipn]. rewrite IH by (cbn in Hk; lia). f_equal. lia.
Qed.

Lemma replace_loop_here r repl idx s :
  replace_loop r repl idx 0 s
  = match match_at r idx s with
    | Some y =>
        repl ++ match s with
                | [] => []
                | ch :: s' =>
                    if Nat.eqb (endIndex y - idx) 0
                    then ch :: replace_loop r repl (S idx) 0 s'
                    else replace_loop r repl (S idx) (Nat.pred (endIndex y - idx)) s'
                end
    | None =>
        match s with
        | [] => []
        | ch :: s' => ch :: replace_loop r repl (S idx) 0 s'
        end
    end.
Proof. destruct s; reflexivity. Qed.

Lemma starts_with_length p s : starts_with p s = true -> List.length p <= List.length s.
Proof.
  intros H. apply starts_with_iff in H as (b & ->). rewrite length_app. lia.
Qed.

(** The global replacement of a literal text that is not empty. *)
Lemma replace_Literal a p repl idx s :
  replace_loop (Literal (a :: p)) repl idx 0 s
  = if starts_with (a :: p) s
    then repl ++ replace_loop (Literal (a :: p)) repl (idx + List.length (a :: p)) 0
                   (skipn (List.length (a :: p)) s)
    else match s with
         | [] => []
         | ch :: s' => ch :: replace_loop (Literal (a :: p)) repl (S idx) 0 s'
         end.
Proof.
  rewrite replace_loop_here, match_at_Literal.
  destruct (starts_with (a :: p) s) eqn:E; [|reflexivity].
  pose proof (starts_with_length _ _ E) as L.
  destruct s as [|ch s']; [cbn in L; lia|].
  cbn [endIndex]. replace (idx + List.length (a :: p) - idx) with (S (List.length p))
    by (cbn [List.length]; lia).
  cbn [Nat.eqb Nat.pred]. rewrite replace_loop_skip by (cbn in L; lia).
  cbn [List.length skipn]. do 2 f_equal. lia.
Qed.

(** A pattern that starts with the assertion of the start matches at
    index 0 only, so what the replacement returns is the end of the
    string. *)
Lemma replace_first_anchored r repl s : forall idx,
  replace_first_from (Seq AssertStart r) repl (S idx) s = s.
Proof.
  induction s as [|c s IH]; intros idx; [reflexivity|].
  cbn [replace_first_from]. change (match_at (Seq AssertStart r) (S idx) (c :: s)) with (@None MatchState).
  now rewrite IH.
Qed.

Lemma replace_first_suffix r s :
  exists k, String_replace_first (Seq AssertStart r) [] s = skipn k s.
Proof.
  unfold String_replace_first. destruct s as [|c s].
  - exists 0. cbn [replace_first_from].
    destruct (match_at (Seq AssertStart r) 0 []); [|reflexivity].
    cbn [app]. now rewrite skipn_nil.
  - cbn [replace_first_from].
    destruct (match_at (Seq AssertStart r) 0 (c :: s)) as [y|].
    + now exists (endIndex y - 0).
    + exists 0. now rewrite replace_first_anchored.
Qed.

(** ** The lines of the call stack *)

Lemma std_parts :
  lit "std::__1::" = lit "std:" ++ colon :: lit "__1::"
  /\ lit "std::" = lit "std:" ++ [colon]
  /\ lit "std::__1::" <> [].
Proof. repeat split. discriminate. Qed.

Lemma replace_std_here idx s :
  replace_loop stdRegex (lit "std::") idx 0 s
  = if starts_with (lit "std::__1::") s
    then lit "std::" ++ replace_loop stdRegex (lit "std::") (idx + 10) 0 (skipn 10 s)
    else match s with
         | [] => []
         | ch :: s' => ch :: replace_loop stdRegex (lit "std::") (S idx) 0 s'
         end.
Proof. apply (replace_Literal 115%N (lit "td::__1::")). Qed.

(** Replacing the text by the shorter one brings in no occurrence of a
    text without a colon. *)
Lemma replace_std_absent n :
  ~ In colon n ->
  forall k s, List.length s <= k ->
  forall u idx,
    occurs n (u ++ replace_loop stdRegex (lit "std::") idx 0 s) -> occurs n (u ++ s).
Proof.
  intros Hn. induction k as [|k IH]; intros s Hk u idx.
  - destruct s; [|cbn in Hk; lia]. rewrite replace_std_here.
    change (starts_with (lit "std::__1::") []) with false. now cbv iota.
  - rewrite replace_std_here. destruct (starts_with (lit "std::__1::") s) eqn:E.
    + pose proof E as E'. apply starts_with_iff in E' as (rest & ->).
      replace (skipn 10 (lit "std::__1::" ++ rest)) with rest by reflexivity.
      destruct std_parts as (P1 & P2 & _). rewrite P2, P1.
      rewrite <- !app_assoc. cbn [app]. rewrite app_assoc. intros H.
      apply occurs_sep in H; [|exact Hn]. destruct H as [H|H].
      * rewrite app_assoc. now apply occurs_prefix.
      * apply (IH rest) with (u := []) in H.
        -- cbn [app] in H. destruct H as (a & b & ->).
           exists (u ++ lit "std:" ++ colon :: lit "__1::" ++ a), b.
           rewrite <- !app_assoc. cbn [app]. now rewrite <- !app_assoc.
        -- rewrite length_app in Hk. change (List.length (lit "std::__1::")) with 10 in Hk. lia.
    + destruct s as [|c s]; [now cbv iota|].
      intros H. change (u ++ c :: ?x) with (u ++ [c] ++ x) in H. rewrite app_assoc in H.
      apply IH in H; [|cbn in Hk; lia].
      now rewrite <- app_assoc in H.
Qed.

Lemma occurs_skipn n k s : occurs n (skipn k s) -> occurs n s.
Proof.
  intros H. rewrite <- (firstn_skipn k s). now apply occurs_suffix.
Qed.

Lemma clean_line_absent n l :
  ~ In colon n -> ~ occurs n l ->
  ~ occurs n (String_replace_global stdRegex (lit "std::")
                (String_replace_first lineNumberRegex [] l)).
Proof.
  intros Hn Hl H. apply Hl.
  destruct (replace_first_suffix
              (Seq (Plus (CharSet is_digit)) (Plus (CharSet is_space))) l) as (k & E).
  change (Seq AssertStart (Seq (Plus (CharSet is_digit)) (Plus (CharSet is_space))))
    with lineNumberRegex in E.
  rewrite E in H. apply (occurs_skipn n k).
  apply (replace_std_absent n Hn _ _ (le_n _) [] 0). exact H.
Qed.

Lemma occurs_nil n : occurs n [] -> n = [].
Proof.
  intros (a & b & E). destruct a; [|discriminate E]. now destruct n.
Qed.

Lemma add_lines_absent n :
  n <> [] -> ~ In LF n -> ~ In colon n ->
  (forall l, kept l = true -> ~ occurs n l) ->
  forall lines acc,
    ~ occurs n acc -> (acc = [] \/ exists a, acc = a ++ [LF]) ->
    ~ occurs n (fold_left add_line lines acc).
Proof.
  intros Hne Hlf Hc Hkept. induction lines as [|l lines IH]; intros acc Ha Hend.
  - exact Ha.
  - cbn [fold_left]. unfold add_line at 2. fold (kept l).
    destruct (kept l) eqn:K; [|now apply IH].
    apply IH.
    + rewrite app_assoc. intros H. apply occurs_sep in H; [|exact Hlf].
      destruct H as [H|H]; [|apply occurs_nil in H; contradiction].
      destruct Hend as [->|(a & ->)].
      * cbn [app] in H. revert H. apply clean_line_absent; auto.
      * rewrite <- app_assoc in H. cbn [app] in H.
        apply occurs_sep in H; [|exact Hlf]. destruct H as [H|H].
        -- apply Ha. now apply occurs_prefix.
        -- revert H. apply clean_line_absent; auto.
    + right. eexists. rewrite app_assoc. reflexivity.
Qed.

Lemma drop_while_suffix p s : exists t, s = t ++ drop_while p s.
Proof.
  induction s as [|c s (t & IH)]; [now exists []|].
  cbn [drop_while]. destruct (p c); [|now exists []].
  exists (c :: t). cbn [app]. now rewrite <- IH.
Qed.

Lemma trimRight_prefix s : exists t, s = String_trimRight s ++ t.
Proof.
  unfold String_trimRight. destruct (drop_while_suffix is_space (rev s)) as (t & E).
  exists (rev t). rewrite <- rev_app_distr, <- E. now rewrite rev_involutive.
Qed.

Lemma substr_prefix s n : exists t, s = String_substr s 0 (Some n) ++ t.
Proof.
  unfold String_substr. cbn [Z.ltb Z.compare].
  replace (Z.to_nat (Z.min 0 (Z.of_nat (List.length s)))) with 0 by lia.
  cbn [skipn]. eexists. symmetry. apply firstn_skipn.
Qed.

Lemma limited_absent n0 (l : char) s :
  ~ In l (lit "...") -> ~ occurs (n0 ++ [l]) s -> ~ occurs (n0 ++ [l]) (limited s).
Proof.
  intros Hl Hs. unfold limited.
  destruct (8192 <? Z.of_nat (List.length s))%Z; [|exact Hs].
  intros H. apply occurs_before in H; [|exact Hl]. apply Hs.
  destruct (substr_prefix s 8189) as (t & E). rewrite E. now apply occurs_prefix.
Qed.

Lemma report_absent n0 (l : char) data :
  ~ In l (lit "...") -> ~ In LF (n0 ++ [l]) -> ~ In colon (n0 ++ [l]) ->
  (forall line, kept line = true -> ~ occurs (n0 ++ [l]) line) ->
  String_includes (n0 ++ [l]) (lit "No crash start") = false ->
  String_includes (n0 ++ [l]) (lit "No crash end") = false ->
  String_includes (n0 ++ [l]) (lit "No process") = false ->
  String_includes (n0 ++ [l]) (crash_report data) = false.
Proof.
  intros Hl Hlf Hc Hkept M1 M2 M3.
  destruct (crash_report_cases data) as [E|[E|[E|(p & v & st & _ & E)]]];
    rewrite E; try assumption.
  apply includes_false. apply limited_absent; [exact Hl|].
  intros H.
  destruct (trimRight_prefix
              (fold_left add_line (split_lines (p ++ v ++ [LF] ++ st)) [])) as (t & Et).
  assert (Hne : n0 ++ [l] <> []) by now destruct n0.
  assert (Hnil : ~ occurs (n0 ++ [l]) []).
  { intros H'. apply occurs_nil in H'. contradiction. }
  apply (add_lines_absent (n0 ++ [l]) Hne Hlf Hc Hkept
           (split_lines (p ++ v ++ [LF] ++ st)) [] Hnil (or_introl eq_refl)).
  rewrite Et. now apply occurs_prefix.
Qed.

(** X16: the lines of the call stack that name a dynamic library or an
    unknown module are left out of the report: in the text logged for a
    crash file that was read, neither .dylib nor ??? occurs. *)
Theorem X16_runtime_lines_are_left_out (data : jsstring) :
  String_includes (lit ".dylib") (crash_report data) = false
  /\ String_includes (lit "???") (crash_report data) = false.
Proof.
  split.
  - apply (report_absent (lit ".dyli") 98%N); try reflexivity.
    + vm_compute. intuition discriminate.
    + vm_compute. intuition discriminate.
    + vm_compute. intuition discriminate.
    + intros line K. apply andb_prop in K as [K _].
      apply includes_false. now apply negb_true_iff in K.
  - apply (report_absent (lit "??") 63%N); try reflexivity.
    + vm_compute. intuition discriminate.
    + vm_compute. intuition discriminate.
    + vm_compute. intuition discriminate.
    + intros line K. apply andb_prop in K as [_ K].
      apply includes_false. now apply negb_true_iff in K.
Qed.

End CrashProps.

Import CrashProps.

(* ===================================================================== *)
(** * The vcpkg suggestions *)
(* ===================================================================== *)

Module VcpkgProps.

Unset Implicit Arguments.

#[local] Arguments lit : simpl never.

(** A greedy run of a class where the rest of the pattern matches after
    the longest run. *)
Lemma star_class_longest p c cs (w r : jsstring) e z :
  forallb p w = true -> stops p r ->
  c (mkState (e + List.length w) r cs) = Some z ->
  compile (Star (CharSet p)) (mkState e (w ++ r) cs) c = Some z.
Proof.
  intros Hw Hr Hc. rewrite compile_Star_class. cbn [remaining].
  rewrite RepeatMatcher_class; try assumption.
  - rewrite length_app. lia.
  - intros E. congruence.
Qed.

Lemma includeRegex_unfold :
  includeRegex
  = Seq (Literal (lit "#include"))
      (Seq (Star (CharSet is_space))
         (Seq (CharSet is_open)
            (Seq (Group 1 (Star (CharSet (fun c0 => negb (is_close c0)))))
               (CharSet is_close)))).
Proof. reflexivity. Qed.

Lemma include_match_at idx (ws f post : jsstring) (o c : char) :
  blanks ws -> is_open o = true -> is_close c = true ->
  forallb (fun x => negb (is_close x)) f = true ->
  match_at includeRegex idx (lit "#include" ++ ws ++ [o] ++ f ++ [c] ++ post)
  = Some (mkState (idx + 8 + List.length ws + 1 + List.length f + 1) post [(1, f)]).
Proof.
  intros Hws Ho Hc Hf. unfold match_at. rewrite includeRegex_unfold.
  rewrite compile_Seq, compile_Literal.
  replace (starts_with (lit "#include") (lit "#include" ++ ws ++ [o] ++ f ++ [c] ++ post))
    with true by (symmetry; apply starts_with_iff; now eexists).
  replace (skipn (List.length (lit "#include"))
                 (lit "#include" ++ ws ++ [o] ++ f ++ [c] ++ post))
    with (ws ++ [o] ++ f ++ [c] ++ post) by reflexivity.
  change (List.length (lit "#include")) with 8.
  rewrite compile_Seq.
  apply star_class_longest; [exact Hws|cbn [app stops]| ].
  - unfold is_open in Ho. apply orb_prop in Ho as [Ho|Ho];
      apply N.eqb_eq in Ho; subst o; reflexivity.
  - rewrite compile_Seq. cbn [app].
    change (compile (CharSet is_open)) with (CharacterSetMatcher is_open).
    rewrite CharacterSetMatcher_cons, Ho.
    rewrite compile_Seq, compile_Group.
    apply star_class_longest; [exact Hf|cbn [stops]; now rewrite Hc|].
    cbn [endIndex remaining captures].
    change (compile (CharSet is_close)) with (CharacterSetMatcher is_close).
    unfold set_capture. cbn [endIndex remaining captures].
    rewrite CharacterSetMatcher_cons, Hc.
    replace (S (idx + 8 + List.length ws) + List.length f - S (idx + 8 + List.length ws))
      with (List.length f) by lia.
    rewrite firstn_app, Nat.sub_diag, firstn_all. cbn [firstn]. rewrite app_nil_r.
    do 2 f_equal. lia.
Qed.

Lemma no_match_without_hash idx (s : jsstring) :
  match s with [] => True | x :: _ => x <> hash end ->
  match_at includeRegex idx s = None.
Proof.
  intros Hs. unfold match_at. rewrite includeRegex_unfold.
  rewrite compile_Seq, compile_Literal.
  replace (starts_with (lit "#include") s) with false; [reflexivity|].
  destruct s as [|x t]; [reflexivity|].
  change (false = N.eqb hash x && starts_with (lit "include") t).
  replace (N.eqb hash x) with false; [reflexivity|].
  symmetry. apply N.eqb_neq. congruence.
Qed.

Lemma exec_here r idx s y : match_at r idx s = Some y -> exec_from r idx s = Some y.
Proof. intros H. destruct s; cbn [exec_from]; now rewrite H. Qed.

Lemma include_match (pre ws f post : jsstring) (o c : char) :
  ~ In hash pre ->
  blanks ws -> is_open o = true -> is_close c = true ->
  forallb (fun x => negb (is_close x)) f = true ->
  String_match includeRegex (pre ++ lit "#include" ++ ws ++ [o] ++ f ++ [c] ++ post)
  = Some [(1, f)].
Proof.
  intros Hpre Hws Ho Hc Hf. unfold String_match.
  assert (E : forall idx,
            exec_from includeRegex idx
                      (pre ++ lit "#include" ++ ws ++ [o] ++ f ++ [c] ++ post)
            = Some (mkState (idx + List.length pre + 8 + List.length ws + 1
                             + List.length f + 1) post [(1, f)])).
  { induction pre as [|x pre IH]; intros idx.
    - change ([] ++ ?x) with x. cbn [List.length]. rewrite Nat.add_0_r.
      apply exec_here. now apply include_match_at.
    - cbn [app exec_from List.length].
      rewrite no_match_without_hash by (intros ->; apply Hpre; now left).
      rewrite IH by (intros H; apply Hpre; now right).
      do 2 f_equal. lia. }
  now rewrite E.
Qed.

(** ** The header that is looked up *)

Lemma index_of_slash (d rest : jsstring) : forall idx,
  ~ In slash d -> index_from [slash] (d ++ slash :: rest) idx = Some (idx + List.length d).
Proof.
  induction d as [|x d IH]; intros idx Hd.
  - cbn [app index_from starts_with]. rewrite N.eqb_refl. cbn. f_equal. lia.
  - cbn [app index_from starts_with].
    replace (N.eqb slash x) with false.
    + cbn [andb]. rewrite IH by (intros H; apply Hd; now right).
      cbn [List.length]. f_equal. lia.
    + symmetry. apply N.eqb_neq. intros E. apply Hd. now left.
Qed.

Lemma index_of_no_slash (f : jsstring) : forall idx,
  ~ In slash f -> index_from [slash] f idx = None.
Proof.
  induction f as [|x f IH]; intros idx Hf; [reflexivity|].
  cbn [index_from starts_with].
  replace (N.eqb slash x) with false.
  - cbn [andb]. apply IH. intros H. apply Hf. now right.
  - symmetry. apply N.eqb_neq. intros E. apply Hf. now left.
Qed.

Lemma replace_first_slash (d rest : jsstring) :
  ~ In slash d ->
  String_replace_string [slash] [backslash] (d ++ [slash] ++ rest)
  = d ++ [backslash] ++ rest.
Proof.
  intros Hd. unfold String_replace_string. cbn [app].
  rewrite index_of_slash by exact Hd. cbn [Nat.add List.length].
  rewrite firstn_app, Nat.sub_diag, firstn_all. cbn [firstn]. rewrite app_nil_r.
  rewrite skipn_app, skipn_all2 by lia.
  replace (List.length d + 1 - List.length d) with 1 by lia. reflexivity.
Qed.

Lemma replace_no_slash (f : jsstring) :
  ~ In slash f -> String_replace_string [slash] [backslash] f = f.
Proof.
  intros Hf. unfold String_replace_string. now rewrite index_of_no_slash.
Qed.

(** X17: for a line in which the first hash starts #include, optional
    blanks and, between angle brackets or double quotes, a header name
    that holds neither a closing bracket nor a double quote, the database
    is read at the header name in which the first slash, and only the
    first, is replaced by a backslash.  The lookup gives the ports that
    the database has for that name; for a name that the database does not
    have it gives what the database object inherits under that name, which
    is no array of ports, and no ports when nothing is inherited. *)
Theorem X17_header_is_looked_up_with_its_first_slash_replaced
        (db : jsstring -> option (list jsstring)) (inherited : jsstring -> option jsstring)
        (document : TextDocument) (line : nat)
        (pre ws f post : jsstring) (o c : char) :
  nth_error (documentLines document) line
  = Some (pre ++ lit "#include" ++ ws ++ [o] ++ f ++ [c] ++ post) ->
  ~ In hash pre ->
  blanks ws -> is_open o = true -> is_close c = true ->
  forallb (fun x => negb (is_close x)) f = true ->
  exists key,
    (~ In slash f -> key = f)
    /\ (forall d rest, f = d ++ [slash] ++ rest -> ~ In slash d ->
                       key = d ++ [backslash] ++ rest)
    /\ (forall ps, db key = Some ps ->
                   lookupIncludeInVcpkg (Some db) inherited document line = Ports ps)
    /\ (forall printed, db key = None -> inherited key = Some printed ->
                        lookupIncludeInVcpkg (Some db) inherited document line
                        = NotAnArray key printed)
    /\ (db key = None -> inherited key = None ->
        lookupIncludeInVcpkg (Some db) inherited document line = Ports []).
Proof.
  intros Hl Hpre Hws Ho Hc Hf. unfold lookupIncludeInVcpkg. rewrite Hl.
  rewrite (include_match pre ws f post o c Hpre Hws Ho Hc Hf).
  cbn [lookup_capture Nat.eqb or_empty].
  exists (String_replace_string [slash] [backslash] f).
  split; [|split; [|split; [|split]]].
  - intros Hs. now apply replace_no_slash.
  - intros d rest -> Hd. now apply replace_first_slash.
  - intros ps E. unfold portsWithHeader. now rewrite E.
  - intros printed E1 E2. unfold portsWithHeader. now rewrite E1, E2.
  - intros E1 E2. unfold portsWithHeader. now rewrite E1, E2.
Qed.

Lemma X17_witness :
  exists key,
    (~ In slash (lit "boost/a/b.hpp") -> key = lit "boost/a/b.hpp")
    /\ (forall d rest, lit "boost/a/b.hpp" = d ++ [slash] ++ rest -> ~ In slash d ->
                       key = d ++ [backslash] ++ rest)
    /\ (forall ps,
          (if string_eqb key (lit "boost" ++ [backslash] ++ lit "a/b.hpp")
           then Some [lit "boost-a"] else None) = Some ps ->
          lookupIncludeInVcpkg
            (Some (fun h => if string_eqb h (lit "boost" ++ [backslash] ++ lit "a/b.hpp")
                            then Some [lit "boost-a"] else None))
            (fun _ => None)
            (mkDocument (lit "/m.cpp") [lit "  #include <boost/a/b.hpp>"]) 0
          = Ports ps)
    /\ (forall printed,
          (if string_eqb key (lit "boost" ++ [backslash] ++ lit "a/b.hpp")
           then Some [lit "boost-a"] else None) = None ->
          @None jsstring = Some printed ->
          lookupIncludeInVcpkg
            (Some (fun h => if string_eqb h (lit "boost" ++ [backslash] ++ lit "a/b.hpp")
                            then Some [lit "boost-a"] else None))
            (fun _ => None)
            (mkDocument (lit "/m.cpp") [lit "  #include <boost/a/b.hpp>"]) 0
          = NotAnArray key printed)
    /\ ((if string_eqb key (lit "boost" ++ [backslash] ++ lit "a/b.hpp")
         then Some [lit "boost-a"] else None) = None ->
        @None jsstring = None ->
        lookupIncludeInVcpkg
          (Some (fun h => if string_eqb h (lit "boost" ++ [backslash] ++ lit "a/b.hpp")
                          then Some [lit "boost-a"] else None))
          (fun _ => None)
          (mkDocument (lit "/m.cpp") [lit "  #include <boost/a/b.hpp>"]) 0
        = Ports []).
Proof.
  apply (X17_header_is_looked_up_with_its_first_slash_replaced
           (fun h => if string_eqb h (lit "boost" ++ [backslash] ++ lit "a/b.hpp")
                     then Some [lit "boost-a"] else None)
           (fun _ => None)
           (mkDocument (lit "/m.cpp") [lit "  #include <boost/a/b.hpp>"]) 0
           (lit "  ") (lit " ") (lit "boost/a/b.hpp") [] less_than greater_than).
  - reflexivity.
  - vm_compute. intuition discriminate.
  - reflexivity.
  - reflexivity.
  - reflexivity.
  - reflexivity.
Defined.

(** ** Duplicates *)

Section FirstOccurrences.

Variable A : Type.
Variable eqb : A -> A -> bool.
Hypothesis eqb_eq : forall a b, eqb a b = true <-> a = b.

Lemma existsb_In x (l : list A) : existsb (eqb x) l = true <-> In x l.
Proof.
  rewrite existsb_exists. split.
  - intros (y & Hy & E). apply eqb_eq in E. now subst.
  - intros H. exists x. split; [exact H|now apply eqb_eq].
Qed.

Lemma existsb_not_In x (l : list A) : existsb (eqb x) l = false <-> ~ In x l.
Proof.
  rewrite <- existsb_In. destruct (existsb (eqb x) l); split; congruence.
Qed.

Lemma indexOf_new x (pre rest : list A) : forall i,
  ~ In x pre ->
  Array_indexOf_from eqb x (pre ++ x :: rest) i = Some (i + List.length pre).
Proof.
  induction pre as [|y pre IH]; intros i Hx.
  - cbn. replace (eqb x x) with true by (symmetry; now apply eqb_eq). f_equal. lia.
  - cbn [app Array_indexOf_from].
    destruct (eqb y x) eqn:E.
    + apply eqb_eq in E. subst y. elim Hx. now left.
    + rewrite IH by (intros H; apply Hx; now right). cbn [List.length]. f_equal. lia.
Qed.

Lemma indexOf_seen x (pre rest : list A) : forall i,
  In x pre ->
  exists j, Array_indexOf_from eqb x (pre ++ rest) i = Some j /\ j < i + List.length pre.
Proof.
  induction pre as [|y pre IH]; intros i Hx; [destruct Hx|].
  cbn [app Array_indexOf_from List.length]. destruct (eqb y x) eqn:E.
  - exists i. split; [reflexivity|lia].
  - destruct Hx as [->|Hx].
    + assert (eqb x x = true) by now apply eqb_eq. congruence.
    + destruct (IH (S i) Hx) as (j & Hj & Hlt). exists j. split; [exact Hj|lia].
Qed.

Lemma filter_duplicates_from (full : list A) : forall xs pre,
  full = pre ++ xs ->
  filter_indexed_from
    (fun x index => match Array_indexOf eqb x full with
                    | Some foundIndex => Nat.eqb foundIndex index
                    | None => false
                    end)
    xs (List.length pre)
  = keep_new eqb pre xs.
Proof.
  induction xs as [|x xs IH]; intros pre E; [reflexivity|].
  cbn [filter_indexed_from keep_new].
  assert (E' : full = (pre ++ [x]) ++ xs) by now rewrite <- app_assoc.
  specialize (IH (pre ++ [x]) E'). rewrite length_app in IH. cbn [List.length] in IH.
  rewrite Nat.add_1_r in IH. rewrite IH.
  destruct (existsb (eqb x) pre) eqn:S.
  - apply existsb_In in S.
    destruct (indexOf_seen x pre (x :: xs) 0 S) as (j & Hj & Hlt).
    unfold Array_indexOf. rewrite E, Hj.
    replace (Nat.eqb j (List.length pre)) with false
      by (symmetry; apply Nat.eqb_neq; lia).
    reflexivity.
  - apply existsb_not_In in S.
    unfold Array_indexOf. rewrite E, (indexOf_new x pre xs 0 S).
    cbn [Nat.add]. now rewrite Nat.eqb_refl.
Qed.

Lemma filter_duplicates_keep (xs : list A) :
  filter_duplicates eqb xs = keep_new eqb [] xs.
Proof. apply (filter_duplicates_from xs xs [] eq_refl). Qed.

Lemma keep_new_In y : forall xs seen,
  In y (keep_new eqb seen xs) <-> In y xs /\ ~ In y seen.
Proof.
  induction xs as [|x xs IH]; intros seen; cbn [keep_new In]; [tauto|].
  destruct (existsb (eqb x) seen) eqn:S.
  - apply existsb_In in S. rewrite IH, in_app_iff. cbn [In]. split.
    + intros (H1 & H2). split; [now right|tauto].
    + intros ([->|H1] & H2); [contradiction|]. split; [exact H1|].
      intros [H|[->|[]]]; contradiction.
  - apply existsb_not_In in S. cbn [In]. rewrite IH, in_app_iff. cbn [In]. split.
    + intros [->|(H1 & H2)]; [split; [now left|exact S]|]. split; [now right|tauto].
    + intros ([->|H1] & H2); [now left|].
      destruct (eqb x y) eqn:E.
      * apply eqb_eq in E. now left.
      * right. split; [exact H1|]. intros [H|[->|[]]]; [contradiction|].
        assert (eqb y y = true) by now apply eqb_eq. congruence.
Qed.

Lemma keep_new_NoDup : forall xs seen, NoDup (keep_new eqb seen xs).
Proof.
  induction xs as [|x xs IH]; intros seen; cbn [keep_new]; [constructor|].
  destruct (existsb (eqb x) seen); [apply IH|].
  constructor; [|apply IH].
  rewrite keep_new_In, in_app_iff. cbn [In]. tauto.
Qed.

End FirstOccurrences.

Lemma Nat_eqb_eq a b : Nat.eqb a b = true <-> a = b.
Proof. apply Nat.eqb_eq. Qed.

(** ** The command that copies the install line *)

Lemma no_include_without_hash (s : jsstring) : forall idx,
  ~ In hash s -> exec_from includeRegex idx s = None.
Proof.
  induction s as [|x s IH]; intros idx Hs; cbn [exec_from].
  - now rewrite no_match_without_hash.
  - rewrite no_match_without_hash by (intros ->; apply Hs; now left).
    apply IH. intros H. apply Hs. now right.
Qed.

Lemma lookup_throws vcpkgDb inherited document line :
  (forall text, nth_error (documentLines document) line = Some text -> ~ In hash text) ->
  lookupIncludeInVcpkg vcpkgDb inherited document line = Throws.
Proof.
  intros H. unfold lookupIncludeInVcpkg.
  destruct (nth_error (documentLines document) line) as [text|]; [|reflexivity].
  unfold String_match. now rewrite (no_include_without_hash text 0 (H text eq_refl)).
Qed.

Lemma all_ports_throws lookups : In Throws lookups -> all_ports lookups = None.
Proof.
  induction lookups as [|l lookups IH]; intros H; [destruct H|].
  destruct l as [|ps|property printed]; [reflexivity| |];
    (destruct H as [H|H]; [discriminate H|]); cbn [all_ports]; now rewrite IH.
Qed.

Lemma locations_In diagnostics textDocuments document line :
  (exists lines,
     In (document, lines) (missingIncludeLocations diagnostics textDocuments)
     /\ In line lines)
  <-> located diagnostics textDocuments document line.
Proof.
  unfold located, missingIncludeLocations. split.
  - intros (lines & Hin & Hl). apply in_flat_map in Hin as ((uri & diags) & Hu & Hin).
    cbn [fst snd] in Hin.
    destruct (find (fun doc => string_eqb (fsPath doc) uri) textDocuments)
      as [doc|] eqn:F; [|destruct Hin].
    destruct (map startLine (filter isMissingIncludeDiagnostic diags)) as [|l ls] eqn:M;
      [destruct Hin|].
    destruct Hin as [Hin|[]]. injection Hin as -> <-.
    rewrite (filter_duplicates_keep _ Nat.eqb Nat_eqb_eq) in Hl.
    apply (keep_new_In _ Nat.eqb Nat_eqb_eq) in Hl as [Hl _].
    rewrite <- M in Hl. apply in_map_iff in Hl as (d & Hd & Hf).
    apply filter_In in Hf as [Hf1 Hf2].
    exists uri, diags, d. repeat split; assumption.
  - intros (uri & diags & d & Hu & F & Hd & Hm & <-).
    assert (Hin : In (startLine d) (map startLine (filter isMissingIncludeDiagnostic diags))).
    { apply in_map. apply filter_In. now split. }
    exists (filter_duplicates Nat.eqb
              (map startLine (filter isMissingIncludeDiagnostic diags))).
    split.
    + apply in_flat_map. exists (uri, diags). split; [exact Hu|].
      cbn [fst snd]. rewrite F.
      destruct (map startLine (filter isMissingIncludeDiagnostic diags)) as [|l ls];
        [destruct Hin|]. now left.
    + rewrite (filter_duplicates_keep _ Nat.eqb Nat_eqb_eq).
      apply (keep_new_In _ Nat.eqb Nat_eqb_eq). split; [exact Hin|intros []].
Qed.

(** X18: a diagnostic for a missing include that points at a line without
    an include directive makes the command fail.  When the line holds no
    hash, or lies beyond the end of the open document, the lookup throws
    where it was meant to return no ports, and the command run from the
    command palette is rejected: nothing is copied. *)
Theorem X18_line_without_include_fails_the_command
        (vcpkgDb : option (jsstring -> option (list jsstring)))
        (inherited : jsstring -> option jsstring)
        (ports : option (list jsstring))
        (diagnostics : list (jsstring * list Diagnostic))
        (textDocuments : list TextDocument)
        (uri : jsstring) (diags : list Diagnostic) (document : TextDocument)
        (d : Diagnostic) :
  ports = None \/ ports = Some [] ->
  In (uri, diags) diagnostics ->
  find (fun doc => string_eqb (fsPath doc) uri) textDocuments = Some document ->
  In d diags -> isMissingIncludeDiagnostic d = true ->
  (forall text, nth_error (documentLines document) (startLine d) = Some text ->
                ~ In hash text) ->
  lookupIncludeInVcpkg vcpkgDb inherited document (startLine d) = Throws
  /\ onVcpkgClipboardInstallSuggested vcpkgDb inherited ports diagnostics textDocuments
     = Rejected.
Proof.
  intros Hp Hu Hdoc Hd Hm Hline.
  pose proof (lookup_throws vcpkgDb inherited document (startLine d) Hline) as T.
  split; [exact T|].
  unfold onVcpkgClipboardInstallSuggested.
  set (locations := missingIncludeLocations diagnostics textDocuments).
  assert (Hloc : exists lines,
             In (document, lines) locations /\ In (startLine d) lines).
  { apply locations_In. exists uri, diags, d. repeat split; assumption. }
  destruct Hloc as (lines & Hl1 & Hl2).
  assert (Hthrows : In Throws
            (flat_map (fun docAndLineNumbers =>
                         map (lookupIncludeInVcpkg vcpkgDb inherited (fst docAndLineNumbers))
                             (snd docAndLineNumbers)) locations)).
  { apply in_flat_map. exists (document, lines). split; [exact Hl1|].
    cbn [fst snd]. rewrite <- T. now apply in_map. }
  rewrite (all_ports_throws _ Hthrows).
  destruct locations as [|loc locations']; [destruct Hl1|].
  destruct Hp as [->| ->]; reflexivity.
Qed.

Lemma X18_witness :
  onVcpkgClipboardInstallSuggested None (fun _ => None) None
    [(lit "/m.cpp", [mkDiagnostic (CodeNumber 1696) (Some (lit "cpptools")) 1])]
    [mkDocument (lit "/m.cpp") [lit "#include <a.h>"; lit "int x;"]]
  = Rejected.
Proof.
  refine (proj2 (X18_line_without_include_fails_the_command None (fun _ => None) None
                   [(lit "/m.cpp", [mkDiagnostic (CodeNumber 1696) (Some (lit "cpptools")) 1])]
                   [mkDocument (lit "/m.cpp") [lit "#include <a.h>"; lit "int x;"]]
                   (lit "/m.cpp")
                   [mkDiagnostic (CodeNumber 1696) (Some (lit "cpptools")) 1]
                   (mkDocument (lit "/m.cpp") [lit "#include <a.h>"; lit "int x;"])
                   (mkDiagnostic (CodeNumber 1696) (Some (lit "cpptools")) 1)
                   (or_introl eq_refl) (or_introl eq_refl) eq_refl (or_introl eq_refl)
                   eq_refl _)).
  intros text E. injection E as <-. vm_compute. intuition discriminate.
Defined.

Lemma item_eqb_eq a b : item_eqb a b = true <-> a = b.
Proof.
  destruct a as [p|p s], b as [q|q t]; cbn [item_eqb]; split; intros H;
    try discriminate H.
  - apply string_eqb_eq in H. now subst.
  - injection H as ->. apply string_eqb_refl.
  - apply andb_prop in H as [H1 H2]. apply string_eqb_eq in H1, H2. now subst.
  - injection H as -> ->. now rewrite !string_eqb_refl.
Qed.

Lemma install_command_fold ps : forall init,
  fold_left (fun cmd port => cmd ++ (lit " " ++ item_text port)) ps init
  = init ++ flat_map (fun port => lit " " ++ item_text port) ps.
Proof.
  induction ps as [|p ps IH]; intros init; cbn [fold_left flat_map].
  - now rewrite app_nil_r.
  - rewrite IH. now rewrite <- !app_assoc.
Qed.

Lemma copy_command_parts src ps telemetry installCommand :
  copy_command src ps = Copied telemetry installCommand ->
  installCommand
  = lit "vcpkg install" ++ flat_map (fun port => lit " " ++ item_text port) ps
  /\ In (lit "ports", Array_toString (map item_text ps)) telemetry.
Proof.
  intros H. unfold copy_command in H. injection H as <- <-.
  split; [apply install_command_fold|]. right. right. now left.
Qed.

(** The concatenation holds the elements of every result. *)
Lemma all_ports_In lookups : forall all it,
  all_ports lookups = Some all ->
  (In it all <-> exists l, In l lookups /\ In it (items_of l)).
Proof.
  induction lookups as [|l lookups IH]; intros all it H.
  - injection H as <-. split; [intros []|intros (l & [] & _)].
  - assert (E : exists qs, all_ports lookups = Some qs /\ all = items_of l ++ qs).
    { destruct l as [|ps|property printed]; [discriminate H| |];
        cbn [all_ports] in H; destruct (all_ports lookups) as [qs|];
        try discriminate H; injection H as <-; now exists qs. }
    destruct E as (qs & Eq & ->). rewrite in_app_iff, (IH qs it Eq). split.
    + intros [Hi|(l' & Hl & Hi)]; [exists l; split; [now left|exact Hi]|].
      exists l'. split; [now right|exact Hi].
    + intros (l' & [<-|Hl] & Hi); [now left|]. right. now exists l'.
Qed.

Lemma palette_copy (L : Type) (locations : list L) (lookups : list Lookup)
      telemetry installCommand :
  match locations with
  | [] => NothingCopied
  | _ :: _ =>
      match all_ports lookups with
      | None => Rejected
      | Some [] => NothingCopied
      | Some (p :: ps) =>
          copy_command (lit "CommandPalette") (filter_duplicates item_eqb (p :: ps))
      end
  end = Copied telemetry installCommand ->
  exists items,
    items <> []
    /\ installCommand
       = lit "vcpkg install" ++ flat_map (fun port => lit " " ++ item_text port) items
    /\ In (lit "ports", Array_toString (map item_text items)) telemetry
    /\ NoDup items
    /\ forall it, In it items <-> exists l, In l lookups /\ In it (items_of l).
Proof.
  destruct locations as [|loc locs]; [discriminate|].
  destruct (all_ports lookups) as [[|q qs]|] eqn:A; try discriminate.
  intros H. destruct (copy_command_parts _ _ _ _ H) as [H1 H2].
  exists (filter_duplicates item_eqb (q :: qs)).
  rewrite (filter_duplicates_keep _ item_eqb item_eqb_eq) in *.
  split; [cbn [keep_new existsb]; discriminate|].
  split; [exact H1|split; [exact H2|split]].
  - apply (keep_new_NoDup _ item_eqb item_eqb_eq).
  - intros it. rewrite (keep_new_In _ item_eqb item_eqb_eq).
    rewrite (all_ports_In lookups (q :: qs) it A). cbn [In]. tauto.
Qed.

(** X19: whatever is copied to the clipboard is the text vcpkg install
    followed by a blank and the text of an element, for one element at
    least, and these elements are reported to the telemetry.  The ports
    given by a code action are taken as they are.  For the command
    palette the elements are, once each, what the lookups give for the
    lines of the missing-include diagnostics of the open documents: the
    ports of the database, and for a header named like an inherited
    property the inherited value, which is no port. *)
Theorem X19_copied_install_command
        (vcpkgDb : option (jsstring -> option (list jsstring)))
        (inherited : jsstring -> option jsstring)
        (ports : option (list jsstring))
        (diagnostics : list (jsstring * list Diagnostic))
        (textDocuments : list TextDocument)
        (telemetry : list (jsstring * jsstring)) (installCommand : jsstring) :
  onVcpkgClipboardInstallSuggested vcpkgDb inherited ports diagnostics textDocuments
  = Copied telemetry installCommand ->
  exists items,
    items <> []
    /\ installCommand
       = lit "vcpkg install" ++ flat_map (fun port => lit " " ++ item_text port) items
    /\ In (lit "ports", Array_toString (map item_text items)) telemetry
    /\ (forall given, ports = Some given -> given <> [] -> items = map PortName given)
    /\ (ports = None \/ ports = Some [] ->
        NoDup items
        /\ forall it,
             In it items <->
             exists uri diags document d,
               In (uri, diags) diagnostics
               /\ find (fun doc => string_eqb (fsPath doc) uri) textDocuments
                  = Some document
               /\ In d diags /\ isMissingIncludeDiagnostic d = true
               /\ In it (items_of (lookupIncludeInVcpkg vcpkgDb inherited document
                                                        (startLine d)))).
Proof.
  unfold onVcpkgClipboardInstallSuggested.
  set (locations := missingIncludeLocations diagnostics textDocuments).
  set (lookups := flat_map _ locations).
  assert (Hlook : forall it,
            (exists l, In l lookups /\ In it (items_of l)) <->
            exists uri diags document d,
              In (uri, diags) diagnostics
              /\ find (fun doc => string_eqb (fsPath doc) uri) textDocuments
                 = Some document
              /\ In d diags /\ isMissingIncludeDiagnostic d = true
              /\ In it (items_of (lookupIncludeInVcpkg vcpkgDb inherited document
                                                       (startLine d)))).
  { intros it. split.
    - intros (l & Hl & Hi). unfold lookups in Hl.
      apply in_flat_map in Hl as ((document & lines) & Hloc & Hl).
      cbn [fst snd] in Hl. apply in_map_iff in Hl as (line & <- & Hline).
      assert (Hex : located diagnostics textDocuments document line)
        by (apply locations_In; now exists lines).
      destruct Hex as (uri & diags & d & Hu & F & Hd & Hm & <-).
      now exists uri, diags, document, d.
    - intros (uri & diags & document & d & Hu & F & Hd & Hm & Hi).
      assert (Hex : located diagnostics textDocuments document (startLine d))
        by (now exists uri, diags, d).
      apply locations_In in Hex as (lines & Hloc & Hline).
      exists (lookupIncludeInVcpkg vcpkgDb inherited document (startLine d)).
      split; [|exact Hi]. unfold lookups. apply in_flat_map.
      exists (document, lines). split; [exact Hloc|]. cbn [fst snd]. now apply in_map. }
  clearbody lookups locations.
  destruct ports as [[|p ps]|].
  - intros H.
    destruct (palette_copy _ locations lookups _ _ H) as (qs & H1 & H2 & H3 & H4 & H5).
    exists qs. split; [exact H1|split; [exact H2|split; [exact H3|split]]].
    + intros given E Hg. injection E as <-. now elim Hg.
    + intros _. split; [exact H4|]. intros it. now rewrite H5.
  - intros H. destruct (copy_command_parts _ _ _ _ H) as [H1 H2].
    exists (map PortName (p :: ps)).
    split; [discriminate|split; [exact H1|split; [exact H2|split]]].
    + intros given E _. now injection E as <-.
    + intros [E|E]; discriminate E.
  - intros H.
    destruct (palette_copy _ locations lookups _ _ H) as (qs & H1 & H2 & H3 & H4 & H5).
    exists qs. split; [exact H1|split; [exact H2|split; [exact H3|split]]].
    + intros given E. discriminate E.
    + intros _. split; [exact H4|]. intros it. now rewrite H5.
Qed.

Lemma X19_witness :
  exists items,
    items <> []
    /\ lit "vcpkg install zlib"
       = lit "vcpkg install" ++ flat_map (fun port => lit " " ++ item_text port) items
    /\ In (lit "ports", Array_toString (map item_text items))
          [(lit "source", lit "CommandPalette");
           (lit "action", lit "vcpkgClipboardInstallSuggested");
           (lit "ports", lit "zlib")]
    /\ (forall given, @None (list jsstring) = Some given -> given <> [] ->
                      items = map PortName given)
    /\ (@None (list jsstring) = None \/ @None (list jsstring) = Some [] ->
        NoDup items
        /\ forall it,
             In it items <->
             exists uri diags document d,
               In (uri, diags)
                  [(lit "/m.cpp",
                    [mkDiagnostic (CodeNumber 1696) (Some (lit "cpptools")) 0;
                     mkDiagnostic (CodeNumber 1696) (Some (lit "cpptools")) 1])]
               /\ find (fun doc => string_eqb (fsPath doc) uri)
                       [mkDocument (lit "/m.cpp")
                                   [lit "#include <zlib.h>"; lit "#include <zconf.h>"]]
                  = Some document
               /\ In d diags /\ isMissingIncludeDiagnostic d = true
               /\ In it (items_of (lookupIncludeInVcpkg
                                     (Some (fun _ => Some [lit "zlib"])) (fun _ => None)
                                     document (startLine d)))).
Proof.
  apply (X19_copied_install_command
           (Some (fun _ => Some [lit "zlib"])) (fun _ => None) None
           [(lit "/m.cpp", [mkDiagnostic (CodeNumber 1696) (Some (lit "cpptools")) 0;
                            mkDiagnostic (CodeNumber 1696) (Some (lit "cpptools")) 1])]
           [mkDocument (lit "/m.cpp") [lit "#include <zlib.h>"; lit "#include <zconf.h>"]]).
  reflexivity.
Defined.

End VcpkgProps.

Import VcpkgProps.

(* ===================================================================== *)
(** * The build tasks *)
(* ===================================================================== *)

Module TaskProps.

Unset Implicit Arguments.

#[local] Arguments lit : simpl never.
#[local] Arguments String_replace_global : simpl never.
#[local] Arguments String_trim : simpl never.
#[local] Arguments string_eqb : simpl never.
#[local] Arguments createTask : simpl never.

Section Host.

Variable path_extname path_basename path_dirname : jsstring -> jsstring.
Variable path_join : jsstring -> jsstring -> jsstring.
Variable toLowerCase : jsstring -> jsstring.
Variable isWindows : bool.

(** The steps of [getBuildTasks] up to the point where tasks are made. *)
Ltac task_cases fileName activeClient :=
  unfold tasks_of, getBuildTasks;
  destruct fileName as [name|]; [|cbn; try tauto; try discriminate];
  destruct (negb (truthy (path_extname name))) eqn:Ext;
    [cbn; try tauto; try discriminate|];
  cbn [orb];
  destruct (existsb (fun ext => string_eqb (toLowerCase (path_extname name)) ext)
                    [lit ".hpp"; lit ".hh"; lit ".hxx"; lit ".h"; lit ".inl"; []])
    eqn:Header; [cbn; try tauto; try discriminate|];
  destruct (if string_eqb (path_extname name) (lit ".C") then (true, true)
            else (existsb (fun ext => string_eqb (toLowerCase (path_extname name)) ext)
                          [lit ".cpp"; lit ".cc"; lit ".cxx"; lit ".mm"; lit ".ino"],
                  string_eqb (toLowerCase (path_extname name)) (lit ".c")))
    as [fileIsCpp fileIsC] eqn:Lang;
  destruct (negb (fileIsCpp || fileIsC)) eqn:Source;
    [cbn; try tauto; try discriminate|];
  destruct activeClient as [e|client];
    [destruct (match e with
               | Some e0 => negb (string_eqb (message e0) intelliSenseDisabledError)
               | None => true
               end); cbn; try tauto; try discriminate|].

Lemma truthy_not_nil s : negb (truthy s) = false -> s <> [].
Proof. destruct s; [discriminate|discriminate]. Qed.

Lemma existsb_eqb_In x l :
  existsb (fun ext => string_eqb x ext) l = true <-> In x l.
Proof.
  rewrite existsb_exists. split.
  - intros (y & Hy & E). apply string_eqb_eq in E. now subst.
  - intros H. exists x. split; [exact H|apply string_eqb_refl].
Qed.

(** X20: build tasks are offered for C and C++ source files only: when a
    task is returned there is an active editor whose file has an
    extension that is not one of the header extensions and is .C or, in
    lower case, one of .cpp, .cc, .cxx, .mm, .ino and .c; and the active
    client could be reached. *)
Theorem X20_tasks_are_for_source_files_only
        (returnCompilerPath : bool) (fileName : option jsstring)
        (activeClient : ActiveClient) (t : Task) :
  In t (tasks_of path_extname path_basename path_dirname path_join toLowerCase
                 isWindows returnCompilerPath fileName activeClient) ->
  exists name client,
    fileName = Some name /\ activeClient = ClientIs client
    /\ path_extname name <> []
    /\ ~ In (toLowerCase (path_extname name))
            [lit ".hpp"; lit ".hh"; lit ".hxx"; lit ".h"; lit ".inl"; []]
    /\ (path_extname name = lit ".C"
        \/ In (toLowerCase (path_extname name))
              [lit ".cpp"; lit ".cc"; lit ".cxx"; lit ".mm"; lit ".ino"; lit ".c"]).
Proof.
  task_cases fileName activeClient.
  intros _. exists name, client. split; [reflexivity|split; [reflexivity|]].
  split; [now apply truthy_not_nil|]. split.
  - intros H. apply existsb_eqb_In in H. congruence.
  - destruct (string_eqb (path_extname name) (lit ".C")) eqn:C.
    + left. now apply string_eqb_eq.
    + right. injection Lang as <- <-. apply negb_false_iff in Source.
      repeat (apply orb_prop in Source as [Source|Source]);
        try discriminate Source;
        apply string_eqb_eq in Source; rewrite Source; cbn [In]; tauto.
Qed.

(** X21: when tasks are offered, the last one is for the compiler of the
    settings, with its additional arguments: its path is the compilerPath
    of the settings as it stands when the settings name no compiler, and
    otherwise that path trimmed, with every pair of backslashes written as
    one, which on Windows does not start with a slash.  The tasks before
    it are for exactly the known compilers that fit the language of the
    file (a C compiler for .c and .C files, a C++ compiler for the C++
    extensions and .C), whose base name differs from the name of the
    compiler of the settings and whose path, on Windows, does not start
    with a slash. *)
Theorem X21_offered_compilers
        (returnCompilerPath : bool) (fileName : option jsstring)
        (activeClient : ActiveClient) :
  tasks_of path_extname path_basename path_dirname path_join toLowerCase
           isWindows returnCompilerPath fileName activeClient <> [] ->
  exists name client knowns known p user,
    fileName = Some name /\ activeClient = ClientIs client
    /\ getKnownCompilers client = Some knowns
    /\ compilerPath (getCurrentCompilerPathAndArgs client) = Some p
    /\ tasks_of path_extname path_basename path_dirname path_join toLowerCase
                isWindows returnCompilerPath fileName activeClient
       = map (fun compiler =>
                createTask path_basename path_dirname path_join isWindows
                           returnCompilerPath compiler None) known
         ++ [createTask path_basename path_dirname path_join isWindows
                        returnCompilerPath user
                        (additionalArgs (getCurrentCompilerPathAndArgs client))]
    /\ user <> []
    /\ (compilerName (getCurrentCompilerPathAndArgs client) = [] -> user = p)
    /\ (compilerName (getCurrentCompilerPathAndArgs client) <> [] ->
        user = String_replace_global doubleBackslashRegex [backslash] (String_trim p)
        /\ (isWindows = true -> starts_with [slash] (String_trim p) = false))
    /\ forall compiler,
         In compiler known <->
         exists info,
           In info knowns /\ knownPath info = compiler
           /\ path_basename compiler <> compilerName (getCurrentCompilerPathAndArgs client)
           /\ (isWindows = true -> starts_with [slash] compiler = false)
           /\ (isC info = true ->
               path_extname name = lit ".C"
               \/ toLowerCase (path_extname name) = lit ".c")
           /\ (isC info = false ->
               path_extname name = lit ".C"
               \/ In (toLowerCase (path_extname name))
                     [lit ".cpp"; lit ".cc"; lit ".cxx"; lit ".mm"; lit ".ino"]).
Proof.
  unfold tasks_of, getBuildTasks.
  destruct fileName as [name|]; [|intros H; now elim H].
  destruct (negb (truthy (path_extname name))); [intros H; now elim H|].
  destruct (_ || _); [intros H; now elim H|].
  destruct (if string_eqb (path_extname name) (lit ".C") then _ else _)
    as [fileIsCpp fileIsC] eqn:Lang.
  destruct (negb (fileIsCpp || fileIsC)); [intros H; now elim H|].
  destruct activeClient as [e|client];
    [destruct (match e with Some _ => _ | None => _ end); intros H; now elim H|].
  destruct (getCurrentCompilerPathAndArgs client) as [cp cn aa] eqn:U.
  cbn [compilerPath compilerName additionalArgs].
  destruct (getKnownCompilers client) as [knowns|] eqn:K;
    [|destruct cp as [p|]; [destruct (truthy p && truthy cn);
        [destruct (isWindows && starts_with [slash] (String_trim p))|]|];
      intros H; now elim H].
  destruct cp as [p|]; [|intros H; now elim H].
  set (known := map knownPath (filter _ knowns)).
  assert (Hknown : forall compiler,
            In compiler known <->
            exists info,
              In info knowns /\ knownPath info = compiler
              /\ path_basename compiler <> cn
              /\ (isWindows = true -> starts_with [slash] compiler = false)
              /\ (isC info = true ->
                  path_extname name = lit ".C"
                  \/ toLowerCase (path_extname name) = lit ".c")
              /\ (isC info = false ->
                  path_extname name = lit ".C"
                  \/ In (toLowerCase (path_extname name))
                        [lit ".cpp"; lit ".cc"; lit ".cxx"; lit ".mm"; lit ".ino"])).
  { intros compiler. unfold known. rewrite in_map_iff. split.
    - intros (info & <- & Hi). apply filter_In in Hi as [Hin Hi].
      apply andb_prop in Hi as [Hi Hwin]. apply andb_prop in Hi as [Hlang Hname].
      exists info. split; [exact Hin|split; [reflexivity|]].
      split; [apply string_eqb_neq; now apply negb_true_iff|].
      split.
      { intros Hw. rewrite Hw in Hwin. cbn [negb orb] in Hwin.
        now apply negb_true_iff in Hwin. }
      destruct (string_eqb (path_extname name) (lit ".C")) eqn:C.
      + apply string_eqb_eq in C. split; intros _; now left.
      + injection Lang as E1 E2. rewrite <- E1, <- E2 in Hlang.
        split; intros Hc'; rewrite Hc' in Hlang;
          cbn [negb] in Hlang;
          rewrite ?andb_false_r, ?andb_true_r, ?orb_false_r in Hlang;
          cbn [orb] in Hlang; right.
        * now apply string_eqb_eq.
        * repeat (apply orb_prop in Hlang as [Hlang|Hlang]);
            try discriminate Hlang;
            apply string_eqb_eq in Hlang; rewrite Hlang; cbn [In]; tauto.
    - intros (info & Hin & <- & Hname & Hwin & HC & HCpp).
      exists info. split; [reflexivity|]. apply filter_In. split; [exact Hin|].
      apply andb_true_intro. split; [apply andb_true_intro; split|].
      + destruct (string_eqb (path_extname name) (lit ".C")) eqn:C.
        * injection Lang as <- <-. now destruct (isC info).
        * injection Lang as <- <-. destruct (isC info).
          -- destruct (HC eq_refl) as [E|E].
             ++ rewrite E, string_eqb_refl in C. discriminate C.
             ++ rewrite E, string_eqb_refl. cbn. apply orb_true_r.
          -- destruct (HCpp eq_refl) as [E|E].
             ++ rewrite E, string_eqb_refl in C. discriminate C.
             ++ apply existsb_eqb_In in E. cbn [existsb] in E. rewrite E. reflexivity.
      + apply negb_true_iff. destruct (string_eqb (path_basename (knownPath info)) cn) eqn:E;
          [|reflexivity]. apply string_eqb_eq in E. now elim Hname.
      + destruct isWindows; [|reflexivity]. cbn [negb orb].
        apply negb_true_iff. now apply Hwin. }
  clearbody known.
  destruct (truthy p && truthy cn) eqn:T.
  - apply andb_prop in T as [Tp Tn].
    destruct (isWindows && starts_with [slash] (String_trim p)) eqn:W;
      [intros H; now elim H|].
    destruct (String_replace_global doubleBackslashRegex [backslash] (String_trim p))
      as [|c u] eqn:R; [intros H; now elim H|].
    intros _. exists name, client, knowns, known, p, (c :: u). rewrite U.
    cbn [compilerPath compilerName additionalArgs fst].
    split; [reflexivity|split; [reflexivity|split; [exact K|split; [reflexivity|]]]].
    split; [reflexivity|split; [discriminate|]].
    split; [intros ->; discriminate Tn|].
    split; [|exact Hknown].
    intros _. split; [now rewrite R|]. intros Hw. rewrite Hw in W. exact W.
  - destruct p as [|c u]; [intros H; now elim H|].
    intros _. exists name, client, knowns, known, (c :: u), (c :: u). rewrite U.
    cbn [compilerPath compilerName additionalArgs fst].
    split; [reflexivity|split; [reflexivity|split; [exact K|split; [reflexivity|]]]].
    split; [reflexivity|split; [discriminate|]].
    split; [reflexivity|].
    split; [|exact Hknown].
    intros Hn. destruct cn; [now elim Hn|discriminate T].
Qed.

Lemma single_backslash_head s :
  starts_with [slash] s = false ->
  starts_with [slash] (String_replace_global doubleBackslashRegex [backslash] s) = false.
Proof.
  intros H. unfold String_replace_global, doubleBackslashRegex.
  rewrite (replace_Literal backslash [backslash]).
  destruct (starts_with [backslash; backslash] s); [reflexivity|].
  destruct s as [|ch s']; [reflexivity|exact H].
Qed.

Lemma execution_of_task rcp compiler compilerArgs :
  executionCommand (createTask path_basename path_dirname path_join isWindows rcp
                               compiler compilerArgs) = compiler.
Proof. reflexivity. Qed.

(** X22: on Windows no task runs a compiler whose path starts with a
    slash, provided the compiler of the settings has a name: such a path
    of the settings, and every such known compiler, is passed over. *)
Theorem X22_no_slash_path_is_run_on_windows
        (returnCompilerPath : bool) (fileName : option jsstring) (client : Client)
        (t : Task) :
  isWindows = true ->
  compilerName (getCurrentCompilerPathAndArgs client) <> [] ->
  In t (tasks_of path_extname path_basename path_dirname path_join toLowerCase
                 isWindows returnCompilerPath fileName (ClientIs client)) ->
  starts_with [slash] (executionCommand t) = false.
Proof.
  intros Hw Hn. unfold tasks_of, getBuildTasks.
  destruct fileName as [name|]; [|intros []].
  destruct (negb (truthy (path_extname name))); [intros []|].
  destruct (_ || _); [intros []|].
  destruct (if string_eqb (path_extname name) (lit ".C") then _ else _)
    as [fileIsCpp fileIsC].
  destruct (negb (fileIsCpp || fileIsC)); [intros []|].
  destruct (getCurrentCompilerPathAndArgs client) as [cp cn aa].
  cbn [compilerPath compilerName additionalArgs] in *.
  destruct (getKnownCompilers client) as [knowns|];
    [|destruct cp as [p|]; [destruct (truthy p && truthy cn);
        [destruct (isWindows && starts_with [slash] (String_trim p))|]|];
      intros []].
  assert (Hknown : forall q,
            In q (map knownPath
                    (filter
                       (fun info =>
                          ((fileIsCpp && negb (isC info)) || (fileIsC && isC info))
                          && negb (string_eqb (path_basename (knownPath info)) cn)
                          && (negb isWindows || negb (starts_with [slash] (knownPath info))))
                       knowns)) ->
            starts_with [slash] q = false).
  { intros q Hq. apply in_map_iff in Hq as (info & <- & Hi).
    apply filter_In in Hi as [_ Hi]. apply andb_prop in Hi as [_ Hi].
    rewrite Hw in Hi. cbn [negb orb] in Hi. now apply negb_true_iff in Hi. }
  assert (Htasks : forall user args,
            starts_with [slash] user = false ->
            In t (map (fun compiler =>
                         createTask path_basename path_dirname path_join isWindows
                                    returnCompilerPath compiler None)
                      (map knownPath
                         (filter
                            (fun info =>
                               ((fileIsCpp && negb (isC info)) || (fileIsC && isC info))
                               && negb (string_eqb (path_basename (knownPath info)) cn)
                               && (negb isWindows
                                   || negb (starts_with [slash] (knownPath info))))
                            knowns))
                  ++ [createTask path_basename path_dirname path_join isWindows
                                 returnCompilerPath user args]) ->
            starts_with [slash] (executionCommand t) = false).
  { intros user args Hu Hin. apply in_app_or in Hin as [Hin|[<-|[]]].
    - apply in_map_iff in Hin as (q & <- & Hq). rewrite execution_of_task.
      now apply Hknown.
    - now rewrite execution_of_task. }
  destruct cp as [p|]; [|intros []].
  assert (Hcn : truthy cn = true) by (destruct cn; [now elim Hn|reflexivity]).
  rewrite Hcn, andb_true_r.
  destruct (truthy p) eqn:Tp.
  - destruct (isWindows && starts_with [slash] (String_trim p)) eqn:Sp; [intros []|].
    rewrite Hw in Sp. cbn [andb] in Sp.
    pose proof (single_backslash_head _ Sp) as Hs.
    destruct (String_replace_global doubleBackslashRegex [backslash] (String_trim p))
      as [|c u] eqn:R; [intros []|].
    cbn [fst]. apply Htasks. exact Hs.
  - destruct p; [intros []|discriminate Tp].
Qed.

End Host.

Lemma X20_witness :
  exists name client,
    Some (lit "/src/main.cpp") = Some name /\ ClientIs example_client = ClientIs client
    /\ example_extname name <> []
    /\ ~ In (example_toLowerCase (example_extname name))
            [lit ".hpp"; lit ".hh"; lit ".hxx"; lit ".h"; lit ".inl"; []]
    /\ (example_extname name = lit ".C"
        \/ In (example_toLowerCase (example_extname name))
              [lit ".cpp"; lit ".cc"; lit ".cxx"; lit ".mm"; lit ".ino"; lit ".c"]).
Proof.
  apply (X20_tasks_are_for_source_files_only
           example_extname example_basename example_dirname example_join
           example_toLowerCase false false (Some (lit "/src/main.cpp"))
           (ClientIs example_client)
           (createTask example_basename example_dirname example_join false false
                       (lit "/usr/bin/clang++") None)).
  vm_compute. left. reflexivity.
Defined.

Lemma X21_witness :
  exists name client knowns known p user,
    Some (lit "/src/main.cpp") = Some name /\ ClientIs example_client = ClientIs client
    /\ getKnownCompilers client = Some knowns
    /\ compilerPath (getCurrentCompilerPathAndArgs client) = Some p
    /\ example_tasks false (lit "/src/main.cpp") example_client
       = map (fun compiler =>
                createTask example_basename example_dirname example_join false false
                           compiler None) known
         ++ [createTask example_basename example_dirname example_join false false user
                        (additionalArgs (getCurrentCompilerPathAndArgs client))]
    /\ user <> []
    /\ (compilerName (getCurrentCompilerPathAndArgs client) = [] -> user = p)
    /\ (compilerName (getCurrentCompilerPathAndArgs client) <> [] ->
        user = String_replace_global doubleBackslashRegex [backslash] (String_trim p)
        /\ (false = true -> starts_with [slash] (String_trim p) = false))
    /\ forall compiler,
         In compiler known <->
         exists info,
           In info knowns /\ knownPath info = compiler
           /\ example_basename compiler
              <> compilerName (getCurrentCompilerPathAndArgs client)
           /\ (false = true -> starts_with [slash] compiler = false)
           /\ (isC info = true ->
               example_extname name = lit ".C"
               \/ example_toLowerCase (example_extname name) = lit ".c")
           /\ (isC info = false ->
               example_extname name = lit ".C"
               \/ In (example_toLowerCase (example_extname name))
                     [lit ".cpp"; lit ".cc"; lit ".cxx"; lit ".mm"; lit ".ino"]).
Proof.
  apply (X21_offered_compilers
           example_extname example_basename example_dirname example_join
           example_toLowerCase false false (Some (lit "/src/main.cpp"))
           (ClientIs example_client)).
  vm_compute. discriminate.
Defined.

Lemma X22_witness :
  starts_with [slash]
    (executionCommand
       (createTask example_basename example_dirname example_join true false
                   (lit "C:/llvm/bin/clang++.exe") None)) = false.
Proof.
  apply (X22_no_slash_path_is_run_on_windows
           example_extname example_basename example_dirname example_join
           example_toLowerCase true false (Some (lit "C:/src/main.cpp"))
           example_windows_client
           (createTask example_basename example_dirname example_join true false
                       (lit "C:/llvm/bin/clang++.exe") None)).
  - reflexivity.
  - discriminate.
  - vm_compute. left. reflexivity.
Defined.

End TaskProps.

Import TaskProps.

(* ===================================================================== *)
(** * Delayed activation: once, and remembered *)
(* ===================================================================== *)

Module ActivationProps.

Unset Implicit Arguments.

#[local] Arguments lit : simpl never.
#[local] Arguments string_eqb : simpl never.

Lemma starts_app a b : starts (a ++ b) = starts a + starts b.
Proof. unfold starts. now rewrite filter_app, length_app. Qed.

Lemma realActivation_cases host s :
  (intelliSenseDisabled host = true /\ realActivation host s = mkResult s [] true)
  \/ (intelliSenseDisabled host = false
      /\ exists ck l,
           realActivation host s
           = mkResult (mkActivation true (tempCommands s) (activatedPreviously s) ck
                                    (providersRegistered s)) l false
           /\ starts l = 1).
Proof.
  unfold realActivation, returned. destruct (intelliSenseDisabled host); [now left|right].
  split; [reflexivity|]. eexists _, _. split; [reflexivity|].
  destruct (PersistentState_Value true (checkForConflictingExtensions s)),
           (clangCommandAdapterActive host); reflexivity.
Qed.

Lemma step_ok_returned s : step_ok s (returned s []).
Proof.
  unfold step_ok, returned. cbn [after logged]. split; [tauto|split].
  - intros E. now split.
  - intros ->. reflexivity.
Qed.

(** A change of the state that touches neither the flag of the
    activation nor the bound on the listeners. *)
Lemma step_ok_pre s s1 r :
  realActivationOccurred s1 = realActivationOccurred s ->
  (tempCommands s <= 1 -> tempCommands s1 <= 1) ->
  step_ok s1 r -> step_ok s r.
Proof.
  unfold step_ok. intros E Ht (H1 & H2 & H3). rewrite E in *. auto.
Qed.

Lemma step_ok_then s first next :
  step_ok s first -> (forall s', step_ok s' (next s')) ->
  step_ok s (and_then first next).
Proof.
  intros Hf Hn. unfold and_then. destruct (threw first); [exact Hf|].
  specialize (Hn (after first)). unfold step_ok in *. cbn [after logged].
  destruct Hf as (F1 & F2 & F3), Hn as (N1 & N2 & N3).
  rewrite starts_app. split; [auto|split].
  - intros E. destruct (F2 E) as [E1 S1]. destruct (N2 E1) as [E2 S2].
    split; [exact E2|lia].
  - intros E. specialize (F3 E).
    destruct (realActivationOccurred (after first)) eqn:A.
    + destruct (N2 eq_refl) as [-> S2]. lia.
    + specialize (N3 eq_refl). lia.
Qed.

Lemma realActivation_ok host s :
  realActivationOccurred s = false -> step_ok s (realActivation host s).
Proof.
  intros E. unfold step_ok.
  destruct (realActivation_cases host s) as [[_ ->]|(_ & ck & l & -> & S)];
    cbn [after logged realActivationOccurred tempCommands]; rewrite E;
    (split; [auto|split; [discriminate|intros _; auto]]).
Qed.

Lemma onActivationEvent_ok host s : step_ok s (onActivationEvent host s).
Proof.
  unfold onActivationEvent. destruct (Nat.eqb (tempCommands s) 0); [apply step_ok_returned|].
  apply step_ok_then.
  - unfold step_ok, returned. cbn [after logged realActivationOccurred tempCommands].
    split; [lia|split]; [intros E; now split|intros ->; reflexivity].
  - intros s1. apply step_ok_then.
    + destruct (realActivationOccurred s1) eqn:E; cbn [negb];
        [apply step_ok_returned|now apply realActivation_ok].
    + intros s2. apply (step_ok_pre s2 (set_activatedPreviously true s2));
        [reflexivity|auto|].
      unfold step_ok, returned. cbn [after logged set_activatedPreviously
                                     realActivationOccurred tempCommands].
      split; [auto|split]; [intros E; now split|intros ->; reflexivity].
Qed.

Lemma activate_ok host b s : step_ok s (activate host b s).
Proof.
  unfold activate. destruct (realActivationOccurred s) eqn:E; [apply step_ok_returned|].
  apply step_ok_then.
  - destruct (PersistentState_Value false (activatedPreviously s));
      [|apply step_ok_returned].
    apply (step_ok_pre s (set_activatedPreviously false s)); [reflexivity|auto|].
    now apply realActivation_ok.
  - intros s1.
    set (s2 := if Nat.eqb (tempCommands s1) 0 then _ else s1).
    assert (H2 : realActivationOccurred s2 = realActivationOccurred s1
                 /\ (tempCommands s1 <= 1 -> tempCommands s2 <= 1)).
    { unfold s2. destruct (Nat.eqb (tempCommands s1) 0); cbn; auto. }
    destruct H2 as [R2 T2]. apply (step_ok_pre s1 s2 _ R2 T2).
    destruct b; [apply onActivationEvent_ok|].
    set (s3 := mkActivation _ _ _ _ (S (providersRegistered s2))).
    apply (step_ok_pre s2 s3); [reflexivity|auto|].
    destruct (configExists host); [apply onActivationEvent_ok|].
    destruct (existsb is_c_or_cpp (openLanguages host));
      [apply onActivationEvent_ok|apply step_ok_returned].
Qed.

Lemma call_ok host c s : step_ok s (call host c s).
Proof.
  destruct c as [b|languageId| |]; cbn [call].
  - apply activate_ok.
  - unfold onDidOpenTextDocument. destruct (_ || _);
      [apply onActivationEvent_ok|apply step_ok_returned].
  - apply onActivationEvent_ok.
  - unfold getClients. destruct (realActivationOccurred s) eqn:E; cbn [negb];
      [apply step_ok_returned|now apply realActivation_ok].
Qed.

Lemma session_ok calls : forall s,
  step_ok s (mkResult (fst (session calls s)) (snd (session calls s)) false).
Proof.
  induction calls as [|[host c] calls IH]; intros s; cbn [session].
  - apply step_ok_returned.
  - pose proof (call_ok host c s) as Hc. specialize (IH (after (call host c s))).
    destruct (session calls (after (call host c s))) as [s' l]. cbn [fst snd] in *.
    unfold step_ok in *. cbn [after logged] in *.
    destruct Hc as (F1 & F2 & F3), IH as (N1 & N2 & N3).
    rewrite starts_app. split; [auto|split].
    + intros E. destruct (F2 E) as [E1 S1]. destruct (N2 E1) as [E2 S2].
      split; [exact E2|lia].
    + intros E. specialize (F3 E).
      destruct (realActivationOccurred (after (call host c s))) eqn:A.
      * destruct (N2 eq_refl) as [-> S2]. lia.
      * specialize (N3 eq_refl). lia.
Qed.

(** X23: the language server is started at most once.  In every session,
    whatever is called and in whatever order, with IntelliSense disabled
    or not at any call, the body of the real activation runs once at most,
    it has run exactly when the flag of the module says so, and at most
    one listener for opened documents is held at any time. *)
Theorem X23_language_server_is_started_at_most_once
        (calls : list (HostView * Call))
        (storedActivatedPreviously storedCheck : option bool) :
  let final := fst (session calls (loaded storedActivatedPreviously storedCheck)) in
  let log := snd (session calls (loaded storedActivatedPreviously storedCheck)) in
  starts log <= 1
  /\ (starts log = 1 <-> realActivationOccurred final = true)
  /\ tempCommands final <= 1.
Proof.
  cbv zeta.
  destruct (session_ok calls (loaded storedActivatedPreviously storedCheck))
    as (H1 & _ & H3).
  cbn [after logged loaded realActivationOccurred tempCommands] in *.
  specialize (H3 eq_refl).
  destruct (realActivationOccurred (fst (session calls _))).
  - rewrite H3. split; [lia|split; [tauto|auto]].
  - rewrite H3. split; [lia|split; [split; discriminate|auto]].
Qed.

(** ** The stored flag *)

Lemma event_keeps_activated host s :
  activated_with true s -> activated_with true (after (onActivationEvent host s)).
Proof.
  destruct s as [ro tc ap ck pr]. intros [E1 E2]. cbn in E1, E2. subst ro ap.
  unfold onActivationEvent. cbn [tempCommands].
  destruct (Nat.eqb tc 0); [now split|]. now split.
Qed.

Lemma call_keeps_activated host c s :
  activated_with true s -> activated_with true (after (call host c s)).
Proof.
  intros H. destruct c as [b|languageId| |]; cbn [call].
  - unfold activate. destruct H as [E1 E2]. rewrite E1. now split.
  - unfold onDidOpenTextDocument. destruct (_ || _);
      [now apply event_keeps_activated|exact H].
  - now apply event_keeps_activated.
  - unfold getClients. destruct H as [E1 E2]. rewrite E1. now split.
Qed.

Lemma session_keeps_activated calls : forall s,
  activated_with true s -> activated_with true (fst (session calls s)).
Proof.
  induction calls as [|[host c] calls IH]; intros s H; [exact H|].
  cbn [session]. specialize (IH _ (call_keeps_activated host c s H)).
  now destruct (session calls (after (call host c s))).
Qed.

Lemma event_activates host s :
  tempCommands s <> 0 -> intelliSenseDisabled host = false ->
  activated_with true (after (onActivationEvent host s)).
Proof.
  intros Ht Hd. unfold onActivationEvent.
  replace (Nat.eqb (tempCommands s) 0) with false
    by (symmetry; now apply Nat.eqb_neq).
  unfold and_then at 1. cbn [threw returned after logged realActivationOccurred].
  destruct (realActivationOccurred s); cbn [negb].
  - now split.
  - match goal with
    | |- context [realActivation host ?x] =>
        destruct (realActivation_cases host x) as [[E _]|(_ & ck & l & -> & _)]
    end; [congruence|]. now split.
Qed.

Lemma quiet_call_keeps host c s :
  quiet c = true -> activated_with false s -> activated_with false (after (call host c s)).
Proof.
  intros Hq [E1 E2]. destruct c as [b|languageId| |]; cbn [call]; try discriminate Hq.
  - unfold activate. rewrite E1. now split.
  - unfold onDidOpenTextDocument. cbn [quiet] in Hq. apply negb_true_iff in Hq.
    rewrite Hq. now split.
  - unfold getClients. rewrite E1. now split.
Qed.

Lemma quiet_session_keeps calls : forall s,
  forallb (fun hc => quiet (snd hc)) calls = true ->
  activated_with false s -> activated_with false (fst (session calls s)).
Proof.
  induction calls as [|[host c] calls IH]; intros s Hq H; [exact H|].
  cbn [forallb snd] in Hq. apply andb_prop in Hq as [Hc Hq].
  cbn [session]. specialize (IH _ Hq (quiet_call_keeps host c s Hc H)).
  now destruct (session calls (after (call host c s))).
Qed.

Lemma auto_activation host ck :
  intelliSenseDisabled host = false -> configExists host = false ->
  existsb is_c_or_cpp (openLanguages host) = false ->
  activated_with false (after (activate host false (loaded (Some true) ck))).
Proof.
  intros Hd Hc Ho. unfold activate, loaded.
  cbn [realActivationOccurred activatedPreviously PersistentState_Value].
  match goal with
  | |- context [realActivation host ?x] =>
      destruct (realActivation_cases host x) as [[E _]|(_ & ck' & l & -> & _)]
  end; [congruence|].
  unfold and_then. cbn [threw after logged tempCommands set_activatedPreviously
                        Nat.eqb realActivationOccurred activatedPreviously
                        checkForConflictingExtensions providersRegistered].
  rewrite Hc, Ho. now split.
Qed.

(** X24: an activation event is remembered for the next session.  Once
    [onActivationEvent] has run with the listener registered and with
    IntelliSense enabled, the language server runs and the stored flag
    activatedPreviously is true, and both stay so whatever is called
    afterwards.  A session that the stored flag alone has activated, with
    no workspace configuration, no open C or C++ document and no
    activation event in it, ends with the flag stored as false, so the
    next session does not activate by itself. *)
Theorem X24_activation_is_remembered (host : HostView) (s : ActivationState)
        (storedCheck : option bool) (calls : list (HostView * Call)) :
  (tempCommands s <> 0 -> intelliSenseDisabled host = false ->
   activated_with true (fst (session calls (after (onActivationEvent host s)))))
  /\ (intelliSenseDisabled host = false -> configExists host = false ->
      existsb is_c_or_cpp (openLanguages host) = false ->
      forallb (fun hc => quiet (snd hc)) calls = true ->
      activated_with false
        (fst (session calls (after (activate host false (loaded (Some true) storedCheck)))))).
Proof.
  split.
  - intros Ht Hd. apply session_keeps_activated. now apply event_activates.
  - intros Hd Hc Ho Hq. apply quiet_session_keeps; [exact Hq|].
    now apply auto_activation.
Qed.

Lemma X24_witness :
  activated_with true
    (fst (session [(mkHostView true false false [], CallGetClients);
                   (mkHostView false false false [], CallActivate true)]
                  (after (onActivationEvent
                            (mkHostView false true false [])
                            (mkActivation false 1 None None 0))))).
Proof.
  apply (proj1 (X24_activation_is_remembered
                  (mkHostView false true false [])
                  (mkActivation false 1 None None 0) None
                  [(mkHostView true false false [], CallGetClients);
                   (mkHostView false false false [], CallActivate true)])).
  - discriminate.
  - reflexivity.
Defined.

End ActivationProps.

Import ActivationProps.
